(** * SegNBDT [tools/vis_gradcam.py]: pixel selection, naming, overlap, crop

    A shallow embedding of the pure helpers of the saliency visualisation
    script, and the properties its specification states about them.

    Python integers are [Z]; Python lists are [list]; a [dict] is an
    association list in insertion order; an exception is a value of
    [py_error] carried by [result]. *)

From Stdlib Require Import Ascii String DecimalString.
From Stdlib Require Import ZArith QArith List Bool Lia Permutation Sorted.
From Stdlib Require Import SpecFloat.
From Stdlib Require DecimalPos DecimalZ.
Import ListNotations.
Local Open Scope string_scope.
Local Open Scope list_scope.
Local Open Scope Z_scope.

(* ================================================================== *)
(** * Part I: the program                                              *)
(* ================================================================== *)

(** ** Exceptions *)

(** The exception classes the helpers can raise. *)
Inductive py_error : Type :=
| AssertionError
| TypeError
| ValueError
| KeyError
| IndexError
| ZeroDivisionError
| OverflowError
| RuntimeError.

(** A computation either returns or raises. *)
Inductive result (A : Type) : Type :=
| Ok (a : A)
| Raise (e : py_error).

Arguments Ok {A} a.
Arguments Raise {A} e.

Definition bind {A B : Type} (r : result A) (k : A -> result B) : result B :=
  match r with
  | Ok a => k a
  | Raise e => Raise e
  end.

Notation "x <- r ;; k" := (bind r (fun x => k))
  (at level 61, r at next level, right associativity).

(** [for x in xs: body], collecting the values, stopping at the first raise. *)
Fixpoint for_each {A B : Type} (f : A -> result B) (xs : list A)
  : result (list B) :=
  match xs with
  | [] => Ok []
  | x :: xs' => y <- f x ;; ys <- for_each f xs' ;; Ok (y :: ys)
  end.

(** ** The values a command-line axis argument can hold *)

(** [--pixel-i] is the integer [0] by default and a list of integers when
    given; [--pixel-i-range] is [None] by default and a list when given. *)
Inductive py_arg : Type :=
| PyNone
| PyInt (z : Z)
| PyList (l : list Z).

(** Python truthiness: [None], [0] and [[]] are false. *)
Definition truthy (a : py_arg) : bool :=
  match a with
  | PyNone => false
  | PyInt z => negb (z =? 0)
  | PyList [] => false
  | PyList (_ :: _) => true
  end.

(** ** The builtin [range] *)

(** Number of elements of [range(start, stop, step)] for [step <> 0]. *)
Definition range_len (start stop step : Z) : Z :=
  if 0 <? step then
    if start <? stop then (stop - start - 1) / step + 1 else 0
  else
    if stop <? start then (start - stop - 1) / (- step) + 1 else 0.

Definition range_values (start stop step : Z) : list Z :=
  map (fun k => start + Z.of_nat k * step)
      (seq 0 (Z.to_nat (range_len start stop step))).

(** [range] on the unpacked argument list: one to three integers; a zero
    step is a [ValueError]. *)
Definition py_range (args : list Z) : result (list Z) :=
  match args with
  | [stop] => Ok (range_values 0 stop 1)
  | [start; stop] => Ok (range_values start stop 1)
  | [start; stop; step] =>
      if step =? 0 then Raise ValueError
      else Ok (range_values start stop step)
  | _ => Raise TypeError
  end.

(** Star-unpacking [a] into [range]: unpacking needs an iterable. *)
Definition range_star (a : py_arg) : result py_arg :=
  match a with
  | PyList args => l <- py_range args ;; Ok (PyList l)
  | _ => Raise TypeError
  end.

(** [iter(a)]: the elements of a list; an [int] or [None] is not iterable. *)
Definition py_iter (a : py_arg) : result (list Z) :=
  match a with
  | PyList l => Ok l
  | _ => Raise TypeError
  end.

(** ** [get_pixels] *)

(** [pixel or range(...)], the range taking the unpacked [pixel_range]. *)
Definition axis_or (pixel pixel_range : py_arg) : result py_arg :=
  if truthy pixel then Ok pixel else range_star pixel_range.

Definition get_pixels (pixel_i pixel_j pixel_i_range pixel_j_range : py_arg)
    (cartesian_product : bool) : result (list (Z * Z)) :=
  if truthy pixel_i && truthy pixel_i_range then Raise AssertionError else
  pixel_is <- axis_or pixel_i pixel_i_range ;;
  if truthy pixel_j && truthy pixel_j_range then Raise AssertionError else
  pixel_js <- axis_or pixel_j pixel_j_range ;;
  if cartesian_product then
    jvs <- py_iter pixel_js ;;
    rows <- for_each (fun j =>
                        ivs <- py_iter pixel_is ;;
                        Ok (map (fun i => (i, j)) ivs)) jvs ;;
    Ok (concat rows)
  else
    ivs <- py_iter pixel_is ;;
    jvs <- py_iter pixel_js ;;
    Ok (combine ivs jvs).

(** ** Dictionaries *)

(** A [dict] keeps its entries in insertion order; [eqb] compares keys. *)
Section Dict.

Context {K V : Type} (eqb : K -> K -> bool).

(** [d.get(key)] *)
Fixpoint dict_get (key : K) (d : list (K * V)) : option V :=
  match d with
  | [] => None
  | (k, v) :: d' => if eqb key k then Some v else dict_get key d'
  end.

(** [key in d] *)
Definition dict_mem (key : K) (d : list (K * V)) : bool :=
  match dict_get key d with
  | Some _ => true
  | None => false
  end.

(** [d[key] = v]: the entry is overwritten in place, or appended. *)
Fixpoint dict_set (key : K) (v : V) (d : list (K * V)) : list (K * V) :=
  match d with
  | [] => [(key, v)]
  | (k, w) :: d' =>
      if eqb key k then (k, v) :: d' else (k, w) :: dict_set key v d'
  end.

(** [d.pop(key)]: the value and the dictionary without the entry; a
    [KeyError] when the key is absent. *)
Fixpoint dict_pop (key : K) (d : list (K * V))
  : result (V * list (K * V)) :=
  match d with
  | [] => Raise KeyError
  | (k, v) :: d' =>
      if eqb key k then Ok (v, d')
      else r <- dict_pop key d' ;; Ok (fst r, (k, v) :: snd r)
  end.

End Dict.

(** ** [generate_fname] *)

(** The values of the keyword dictionary: integers (image index, pixel
    coordinates) and strings (the suffix). *)
Inductive py_value : Type :=
| VInt (z : Z)
| VStr (s : string).

(** [str(v)], as an f-string field renders it. *)
Definition format_value (v : py_value) : string :=
  match v with
  | VInt z => NilZero.string_of_int (Z.to_int z)
  | VStr s => s
  end.

(** The keyword dictionary: string keys. *)
Definition kwargs_dict : Type := list (string * py_value).

(** [f'{key}-{value}'] *)
Definition render_part (key : string) (v : py_value) : string :=
  key ++ "-" ++ format_value v.

(** [sorted] on strings: ascending code-point order.  Equal strings are
    identical, so every correct sort returns this list. *)
Fixpoint insert_sorted (x : string) (l : list string) : list string :=
  match l with
  | [] => [x]
  | y :: l' => if String.leb x y then x :: l else y :: insert_sorted x l'
  end.

Definition sorted (l : list string) : list string :=
  fold_right insert_sorted [] l.

(** The first loop: the keys of [order] that are present, popped in turn. *)
Fixpoint pop_ordered (order : list string) (kwargs : kwargs_dict)
    (parts : list string) : result (kwargs_dict * list string) :=
  match order with
  | [] => Ok (kwargs, parts)
  | key :: order' =>
      if negb (dict_mem String.eqb key kwargs) then pop_ordered order' kwargs parts
      else
        r <- dict_pop String.eqb key kwargs ;;
        pop_ordered order' (snd r) (parts ++ [render_part key (fst r)])
  end.

(** The second loop: every key of the list popped in turn. *)
Fixpoint pop_all (keys : list string) (kwargs : kwargs_dict)
    (parts : list string) : result (kwargs_dict * list string) :=
  match keys with
  | [] => Ok (kwargs, parts)
  | key :: keys' =>
      r <- dict_pop String.eqb key kwargs ;;
      pop_all keys' (snd r) (parts ++ [render_part key (fst r)])
  end.

Definition default_order : list string := ["image"; "pixel_i"; "pixel_j"].

Definition generate_fname (kwargs : kwargs_dict) (order : list string)
  : result string :=
  r1 <- pop_ordered order kwargs [] ;;
  r2 <- pop_all (sorted (map fst (fst r1))) (fst r1) (snd r1) ;;
  Ok (String.concat "-" (snd r2)).

(** ** [crop] *)

(** [slice(start, stop)] *)
Record py_slice : Type := { slice_start : Z; slice_stop : Z }.

(** How slicing reads a bound against a sequence of length [len]: a
    negative bound counts from the end, and the result is clipped to
    [0 .. len]. *)
Definition clamp_index (len idx : Z) : Z :=
  if idx <? 0 then Z.max (idx + len) 0 else Z.min idx len.

(** [l[s]] *)
Definition apply_slice {A : Type} (s : py_slice) (l : list A) : list A :=
  let len := Z.of_nat (length l) in
  let lo := clamp_index len (slice_start s) in
  let hi := clamp_index len (slice_stop s) in
  firstn (Z.to_nat (hi - lo)) (skipn (Z.to_nat lo) l).

(** The two slices [crop] builds. *)
Definition crop_slices (i j size : Z) : py_slice * py_slice :=
  let half := size / 2 in
  ({| slice_start := Z.max (i - half) 0; slice_stop := i + half |},
   {| slice_start := Z.max (j - half) 0; slice_stop := j + half |}).

(** Rows then columns of one plane. *)
Definition slice_plane {A : Type} (slice_i slice_j : py_slice)
    (plane : list (list A)) : list (list A) :=
  map (apply_slice slice_j) (apply_slice slice_i plane).

(** A saliency tensor is laid out batch, channel, row, column; a raw image
    is laid out row, column, channel. *)
Definition image_of (is_tensor : bool) (A : Type) : Type :=
  if is_tensor then list (list (list (list A))) else list (list (list A)).

Definition crop {A : Type} (i j size : Z) (is_tensor : bool)
  : image_of is_tensor A -> image_of is_tensor A :=
  let slice_i := fst (crop_slices i j size) in
  let slice_j := snd (crop_slices i j size) in
  match is_tensor with
  | true => fun image => map (map (slice_plane slice_i slice_j)) image
  | false => fun image => slice_plane slice_i slice_j image
  end.

(** ** Saliency bounds *)

(** The builtins [max(a, b)] and [min(a, b)]: the first argument stays
    unless the second is strictly larger (smaller). *)
Definition py_max (a b : Q) : Q := if Qle_bool b a then a else b.
Definition py_min (a b : Q) : Q := if Qle_bool a b then a else b.

(** The closure variables [minimum] and [maximum]. *)
Record bounds : Type := { minimum : Q; maximum : Q }.

(** The lines the logger receives about the bounds. *)
Inductive log_line : Type :=
| StartingBounds (b : bounds)
| Bounds (b : bounds)
| FinalBounds (b : bounds).

(** [maximum, minimum = -1000, 0] *)
Definition reset_bounds : bounds :=
  {| minimum := 0; maximum := - (1000) |}.

(** The two assignments of the layer loop; [region_min] and [region_max]
    are [float(gradcam_region.min())] and [float(gradcam_region.max())]. *)
Definition update_bounds (b : bounds) (region_min region_max : Q) : bounds :=
  let maximum' := py_max region_max (maximum b) in
  let minimum' := py_min region_min (minimum b) in
  {| minimum := minimum'; maximum := maximum' |}.

(** [generate_and_save_saliency], as far as the bounds go: one update and
    one log line per target layer.  With more than one layer the call that
    follows the loop, for the combined map, passes six arguments to
    [generate_save_path] and raises a [TypeError]; it comes after every
    update and every line of the loop, so that the lines below are then the
    last lines of the log of the run. *)
Fixpoint generate_and_save_saliency (layers : list (Q * Q)) (b : bounds)
  : bounds * list log_line :=
  match layers with
  | [] => (b, [])
  | (region_min, region_max) :: layers' =>
      let b' := update_bounds b region_min region_max in
      let r := generate_and_save_saliency layers' b' in
      (fst r, Bounds b' :: snd r)
  end.

(** The calls of [generate_and_save_saliency] for one image, in turn. *)
Fixpoint saliency_calls (calls : list (list (Q * Q))) (b : bounds)
  : bounds * list log_line :=
  match calls with
  | [] => (b, [])
  | layers :: calls' =>
      let r1 := generate_and_save_saliency layers b in
      let r2 := saliency_calls calls' (fst r1) in
      (fst r2, snd r1 ++ snd r2)
  end.

(** What happens to one image index: it is skipped right after the reset
    (no pixel of the class to crop for), or it is processed by some calls,
    the final line being logged unless the whole-image branch continues. *)
Inductive image_plan : Type :=
| Skipped
| Processed (calls : list (list (Q * Q))) (logs_final : bool).

(** One iteration of the loop of [run] over the image indices. *)
Definition run_image (plan : image_plan) (b : bounds)
  : bounds * list log_line :=
  let b0 := reset_bounds in
  match plan with
  | Skipped => (b0, [StartingBounds b0])
  | Processed calls logs_final =>
      let r := saliency_calls calls b0 in
      (fst r,
       StartingBounds b0 :: snd r
         ++ (if logs_final then [FinalBounds (fst r)] else []))
  end.

Fixpoint run (plans : list image_plan) (b : bounds)
  : bounds * list log_line :=
  match plans with
  | [] => (b, [])
  | plan :: plans' =>
      let r1 := run_image plan b in
      let r2 := run plans' (fst r1) in
      (fst r2, snd r1 ++ snd r2)
  end.

(** ** [compute_overlap] *)

(** [np.unique]: the distinct values in ascending order. *)
Fixpoint insert_unique (x : Z) (l : list Z) : list Z :=
  match l with
  | [] => [x]
  | y :: l' =>
      if x <? y then x :: l
      else if x =? y then l
      else y :: insert_unique x l'
  end.

Definition np_unique (l : list Z) : list Z :=
  fold_right insert_unique [] l.

(** One row of [t[mask]]: the values where the mask is true; the row and
    its mask must have the same length. *)
Fixpoint masked_row (mask : list bool) (row : list Q) : result (list Q) :=
  match mask, row with
  | [], [] => Ok []
  | m :: mask', x :: row' =>
      rest <- masked_row mask' row' ;;
      Ok (if m then x :: rest else rest)
  | _, _ => Raise IndexError
  end.

(** [t[mask]] for a boolean mask of the shape of [t]: the selected values
    in row-major order; an [IndexError] when the shapes differ. *)
Fixpoint masked_select (mask : list (list bool)) (t : list (list Q))
  : result (list Q) :=
  match mask, t with
  | [], [] => Ok []
  | mrow :: mask', row :: t' =>
      vals <- masked_row mrow row ;;
      rest <- masked_select mask' t' ;;
      Ok (vals ++ rest)
  | _, _ => Raise IndexError
  end.

(** A label map is the numpy array the dataset returns or, after
    [torch.Tensor(label)] in the branch of [--crop-for], a torch tensor;
    the selector [label == cls] is of the same kind. *)
Inductive array_kind : Type :=
| NumpyArray
| TorchTensor.

Record label_map : Type := {
  label_kind : array_kind;
  label_rows : list (list Z)
}.

(** [mask.nonzero()] for a mask of one dimension: the positions of its
    true entries, counted from [from]. *)
Fixpoint true_positions (from : nat) (mask : list bool) : list nat :=
  match mask with
  | [] => []
  | m :: mask' =>
      if m then from :: true_positions (S from) mask'
      else true_positions (S from) mask'
  end.

(** Two index lists broadcast against each other: a single index is
    repeated, lists of equal length pair up, anything else is an
    [IndexError]. *)
Definition broadcast_indices (rows cols : list nat)
  : result (list (nat * nat)) :=
  match rows, cols with
  | [r], _ => Ok (map (fun c => (r, c)) cols)
  | _, [c] => Ok (map (fun r => (r, c)) rows)
  | _, _ =>
      if Nat.eqb (length rows) (length cols) then Ok (combine rows cols)
      else Raise IndexError
  end.

(** The number of columns of a plane. *)
Definition plane_width (t : list (list Q)) : nat :=
  match t with
  | [] => O
  | row :: _ => length row
  end.

(** [t[i]] and [t[i, j]] *)
Definition plane_row (t : list (list Q)) (i : nat) : result (list Q) :=
  match nth_error t i with
  | Some row => Ok row
  | None => Raise IndexError
  end.

Definition plane_item (t : list (list Q)) (ij : nat * nat) : result Q :=
  row <- plane_row t (fst ij) ;;
  match nth_error row (snd ij) with
  | Some x => Ok x
  | None => Raise IndexError
  end.

(** [t[selector]] when torch takes the rows of the selector for one index
    each: a plane has two dimensions, so three rows or more are too many
    indices; one row selects whole rows of the plane; two rows are a mask
    over the rows and a mask over the columns, whose true positions are
    broadcast against each other.  A mask must have the length of its
    dimension. *)
Definition index_per_dimension (selector : list (list bool))
    (t : list (list Q)) : result (list Q) :=
  match selector with
  | [mask0] =>
      if Nat.eqb (length mask0) (length t) then
        rows <- for_each (plane_row t) (true_positions 0 mask0) ;;
        Ok (concat rows)
      else Raise IndexError
  | [mask0; mask1] =>
      if Nat.eqb (length mask0) (length t)
         && Nat.eqb (length mask1) (plane_width t)
      then
        positions <- broadcast_indices (true_positions 0 mask0)
                                       (true_positions 0 mask1) ;;
        for_each (plane_item t) positions
      else Raise IndexError
  | _ => Raise IndexError
  end.

(** Whether torch unpacks the selector into one index per row: it does so,
    for backward compatibility, with a sequence that is not a tensor and
    has fewer than 32 items, each a sequence itself. *)
Definition unpacked_as_indices (kind : array_kind)
    (selector : list (list bool)) : bool :=
  match kind with
  | TorchTensor => false
  | NumpyArray =>
      Nat.ltb 0 (length selector) && Nat.ltb (length selector) 32
  end.

(** [gradcam[selector]] *)
Definition tensor_getitem (kind : array_kind) (selector : list (list bool))
    (t : list (list Q)) : result (list Q) :=
  if unpacked_as_indices kind selector then index_per_dimension selector t
  else masked_select selector t.

(** The arithmetic of torch on float32 tensors: [t.sum()] and the quotient
    of a sum by a count.  A float is the rational number it stands for; in
    which order a sum is added up and how sum and quotient are rounded is
    left to torch and differs between devices. *)
Record tensor_arith : Type := {
  tensor_sum : list Q -> Q;
  tensor_div : Q -> Z -> Q
}.

(** [selector.sum()]: the number of true entries. *)
Definition mask_count (mask : list (list bool)) : Z :=
  Z.of_nat (length (filter (fun m : bool => m) (concat mask))).

(** The ignore label. *)
Definition ignore_label : Z := 255.

Section Overlap.

Variable T : tensor_arith.

(** The saliency tensor and [GradCAM.normalize(gradcam)[0,0]], the plane of
    normalized values; [utils/gradcam.py] defines it. *)
Variable saliency : Type.
Variable normalize_plane : saliency -> list (list Q).

(** The loop over the classes of the label map. *)
Fixpoint overlap_loop (classes : list Z) (label : label_map)
    (gradcam : list (list Q)) (cls_to_mass : list (Z * Q))
  : result (list (Z * Q)) :=
  match classes with
  | [] => Ok cls_to_mass
  | cls :: classes' =>
      let selector := map (map (fun x => x =? cls)) (label_rows label) in
      vals <- tensor_getitem (label_kind label) selector gradcam ;;
      let mass := tensor_div T (tensor_sum T vals) (mask_count selector) in
      overlap_loop classes' label gradcam (dict_set Z.eqb cls mass cls_to_mass)
  end.

Definition compute_overlap (label : label_map) (gradcam : saliency)
  : result (list (Z * Q)) :=
  let gradcam := normalize_plane gradcam in
  cls_to_mass <- overlap_loop (np_unique (concat (label_rows label)))
                              label gradcam [] ;;
  r <- dict_pop Z.eqb ignore_label cls_to_mass ;;
  Ok (snd r).

End Overlap.

Arguments compute_overlap T {saliency} normalize_plane label gradcam.

(** ** The [random] module *)

(** The generator behind [random.seed] and [random.sample]: its state, the
    state a seed sets, and the draw of [k] positions out of [n] that
    [sample] makes.  [rng_samples_views] tells whether [sample] takes a set
    or a view of the keys of a dict for its population, which it does up to
    Python 3.10 by turning it into a tuple, or refuses it, which it does
    from Python 3.11 on.  The generator itself belongs to the standard
    library of Python; the properties below hold for every generator that
    draws without replacement. *)
Record random_module : Type := {
  rng_state : Type;
  rng_seed : Z -> rng_state;
  rng_choose : rng_state -> nat -> nat -> list nat * rng_state;
  rng_samples_views : bool
}.

Section Random.

Variable R : random_module.

(** [population[i]] *)
Definition py_index {A : Type} (population : list A) (i : nat) : result A :=
  match nth_error population i with
  | Some x => Ok x
  | None => Raise IndexError
  end.

(** [random.sample(population, k)] on a sequence: a [ValueError] when [k]
    is negative or larger than the population. *)
Definition random_sample {A : Type} (population : list A) (k : Z)
    (g : rng_state R) : result (list A * rng_state R) :=
  if (k <? 0) || (Z.of_nat (length population) <? k) then Raise ValueError
  else
    let drawn := rng_choose R g (length population) (Z.to_nat k) in
    picked <- for_each (py_index population) (fst drawn) ;;
    Ok (picked, snd drawn).

(** [random.sample(d.keys(), k)]: a view of the keys is no sequence; where
    [sample] takes it, it samples the tuple of the keys, and where it does
    not, the [TypeError] comes before any look at [k]. *)
Definition random_sample_keys {A : Type} (keys : list A) (k : Z)
    (g : rng_state R) : result (list A * rng_state R) :=
  if rng_samples_views R then random_sample keys k g
  else Raise TypeError.

(** ** [get_random_pixels] *)

(** The candidates: a list of pairs of integers or, as [run] passes them
    from [nonzero()], the rows of an integer tensor. *)
Inductive pixel_seq : Type :=
| IntPairs (pixels : list (Z * Z))
| TensorRows (pixels : list (Z * Z)).

Definition pixel_eqb (a b : Z * Z) : bool :=
  (fst a =? fst b) && (snd a =? snd b).

Section Bins.

(** The keys of [bin_to_pixels]: how the dict compares two keys, how the
    key of a candidate is made ([made] counts the keys made before it), and
    what the floor division by a zero bin size raises. *)
Context {K : Type} (key_eqb : K -> K -> bool)
        (make_key : nat -> Z * Z -> Z -> K) (zero_division : py_error).

(** [bin_to_pixels[key]] on a [defaultdict] of lists: a missing key reads
    as the empty list. *)
Definition bin_lookup (bin : K) (bin_to_pixels : list (K * list (Z * Z)))
  : list (Z * Z) :=
  match dict_get key_eqb bin bin_to_pixels with
  | Some l => l
  | None => []
  end.

(** The loop that files every pixel under its bin. *)
Fixpoint fill_bins (pixels : list (Z * Z)) (bin_size : Z) (made : nat)
    (bin_to_pixels : list (K * list (Z * Z)))
  : result (list (K * list (Z * Z))) :=
  match pixels with
  | [] => Ok bin_to_pixels
  | (i, j) :: pixels' =>
      if bin_size =? 0 then Raise zero_division
      else
        let bin := make_key made (i, j) bin_size in
        fill_bins pixels' bin_size (S made)
          (dict_set key_eqb bin (bin_lookup bin bin_to_pixels ++ [(i, j)])
                    bin_to_pixels)
  end.

(** The last loop: one pixel drawn from every list. *)
Fixpoint pick_pixels (pixels_per_bins : list (list (Z * Z)))
    (g : rng_state R) : result (list (Z * Z) * rng_state R) :=
  match pixels_per_bins with
  | [] => Ok ([], g)
  | pixels_per_bin :: rest =>
      s <- random_sample (seq 0 (length pixels_per_bin)) 1 g ;;
      index <- py_index (fst s) 0 ;;
      pixel <- py_index pixels_per_bin index ;;
      r <- pick_pixels rest (snd s) ;;
      Ok (pixel :: fst r, snd r)
  end.

(** The body of [get_random_pixels].  The generator state [g] the caller
    leaves behind is replaced by the seeded one before anything is
    drawn. *)
Definition sample_bins (n : Z) (pixels : list (Z * Z))
    (bin_size seed : Z) (g : rng_state R)
  : result (list (Z * Z) * rng_state R) :=
  let g := rng_seed R seed in
  bin_to_pixels <- fill_bins pixels bin_size 0 [] ;;
  chosen <- (if Z.of_nat (length bin_to_pixels) <=? n then
               Ok (map snd bin_to_pixels, g)
             else
               s <- random_sample_keys (map fst bin_to_pixels) n g ;;
               Ok (map (fun bin => bin_lookup bin bin_to_pixels) (fst s),
                   snd s)) ;;
  pick_pixels (fst chosen) (snd chosen).

End Bins.

(** The key of a pair of integers: a tuple of two integers, which the dict
    compares by value. *)
Definition int_key (made : nat) (p : Z * Z) (bin_size : Z) : Z * Z :=
  (fst p / bin_size, snd p / bin_size).

(** The key of a row of a tensor: the floor divisions make two new tensors
    every time, and a tensor is hashed by its identity, so the dict never
    finds the key of one candidate equal to the key of another.  The key
    stands for the objects made; dividing a tensor of integers by zero is
    a [RuntimeError] of torch. *)
Definition tensor_key (made : nat) (p : Z * Z) (bin_size : Z) : nat := made.

Definition get_random_pixels (n : Z) (pixels : pixel_seq)
    (bin_size seed : Z) (g : rng_state R)
  : result (list (Z * Z) * rng_state R) :=
  match pixels with
  | IntPairs l =>
      sample_bins pixel_eqb int_key ZeroDivisionError n l bin_size seed g
  | TensorRows l =>
      sample_bins Nat.eqb tensor_key RuntimeError n l bin_size seed g
  end.

End Random.

(** ** [compute_output_coord] *)

(** Python floats are IEEE 754 binary64 numbers: 53 bits of precision,
    infinities at exponent 1024. *)
Definition prec : Z := 53.
Definition emax : Z := 1024.

(** An integer as an exact operand of a float operation. *)
Definition int_operand (z : Z) : spec_float :=
  match z with
  | Z0 => S754_zero false
  | Zpos m => S754_finite false m 0
  | Zneg m => S754_finite true m 0
  end.

(** [a / b] on integers: the quotient rounded once to the nearest float. *)
Definition int_true_div (a b : Z) : result spec_float :=
  if b =? 0 then Raise ZeroDivisionError
  else
    match SFdiv prec emax (int_operand a) (int_operand b) with
    | S754_infinity _ => Raise OverflowError
    | q => Ok q
    end.

(** [float(z)]: the nearest float, an [OverflowError] beyond the range. *)
Definition float_of_int (z : Z) : result spec_float :=
  match binary_normalize prec emax z 0 false with
  | S754_infinity _ => Raise OverflowError
  | f => Ok f
  end.

(** [z * x] for an integer and a float. *)
Definition int_mul_float (z : Z) (x : spec_float) : result spec_float :=
  f <- float_of_int z ;; Ok (SFmul prec emax f x).

(** [int(np.floor(x))] *)
Definition floor_to_int (x : spec_float) : result Z :=
  match x with
  | S754_zero _ => Ok 0
  | S754_finite false m e => Ok (Z.shiftl (Zpos m) e)
  | S754_finite true m e => Ok (Z.shiftl (Zneg m) e)
  | S754_infinity _ => Raise OverflowError
  | S754_nan => Raise ValueError
  end.

Definition compute_output_coord (pixel_i pixel_j : Z)
    (image_shape output_shape : Z * Z) : result (Z * Z) :=
  ratio_i <- int_true_div (fst output_shape) (fst image_shape) ;;
  ratio_j <- int_true_div (snd output_shape) (snd image_shape) ;;
  scaled_i <- int_mul_float pixel_i ratio_i ;;
  out_pixel_i <- floor_to_int scaled_i ;;
  scaled_j <- int_mul_float pixel_j ratio_j ;;
  out_pixel_j <- floor_to_int scaled_j ;;
  Ok (out_pixel_i, out_pixel_j).

(** ** [get_image_indices] *)

Definition get_image_indices (image_index : Z) (image_index_range : py_arg)
  : result (list Z) :=
  if truthy image_index_range then
    r <- range_star image_index_range ;; py_iter r
  else Ok [image_index].

(** ** The keyword dictionaries of the run loop *)

(** [{'image': image_index, 'pixel_i': pixel_i, 'pixel_j': pixel_j}], with
    the suffix added when it is not empty. *)
Definition pixel_kwargs (image_index pixel_i pixel_j : Z) (suffix : string)
  : kwargs_dict :=
  let gradcam_kwargs :=
    [("image", VInt image_index); ("pixel_i", VInt pixel_i);
     ("pixel_j", VInt pixel_j)] in
  match suffix with
  | EmptyString => gradcam_kwargs
  | _ => dict_set String.eqb "suffix" (VStr suffix) gradcam_kwargs
  end.

(** ** [main]: the target layers *)

(** [s.split(sep)] for a separator of one character. *)
Fixpoint str_split (sep : ascii) (s : string) : list string :=
  match s with
  | EmptyString => [EmptyString]
  | String c s' =>
      if Ascii.eqb c sep then EmptyString :: str_split sep s'
      else
        match str_split sep s' with
        | piece :: pieces => String c piece :: pieces
        | [] => [String c EmptyString]
        end
  end.

(** The loop over the modules in reverse: its body ends in a [break] that
    does not depend on the test, so at most the first module of the
    reversed list is looked at.  A module is its name and whether it is a
    [Conv2d]; [None] is a variable that was never assigned. *)
Definition last_module_loop (reversed_modules : list (string * bool))
    (target_layers : option (list string)) : option (list string) :=
  match reversed_modules with
  | [] => target_layers
  | (name, is_conv2d) :: _ =>
      if is_conv2d then Some [name] else target_layers
  end.

(** The target layers [main] goes on with: [args_target_layers] is the
    text of [--target-layers], if given. *)
Definition select_target_layers (args_target_layers : option string)
    (named_modules : list (string * bool)) : option (list string) :=
  match args_target_layers with
  | Some (String c s) => Some (str_split "," (String c s))
  | _ => last_module_loop (rev named_modules) None
  end.

(** ** [main]: the pretrained weights *)

(** [k[n:]] *)
Fixpoint str_drop (n : nat) (s : string) : string :=
  match n, s with
  | O, _ => s
  | S n', String _ s' => str_drop n' s'
  | S _, EmptyString => EmptyString
  end.

Section Checkpoint.

Context {V : Type}.

(** The comprehension [{k[6:]: v for k, v in pretrained_dict.items()
    if k[6:] in model_dict.keys()}]. *)
Definition filter_checkpoint (pretrained_dict model_dict : list (string * V))
  : list (string * V) :=
  fold_left (fun acc kv =>
               if dict_mem String.eqb (str_drop 6 (fst kv)) model_dict
               then dict_set String.eqb (str_drop 6 (fst kv)) (snd kv) acc
               else acc)
            pretrained_dict [].

(** [d.update(other)] *)
Definition dict_update (d other : list (string * V)) : list (string * V) :=
  fold_left (fun acc kv => dict_set String.eqb (fst kv) (snd kv) acc) other d.

(** The state dictionary handed to [model.load_state_dict]. *)
Definition load_pretrained (pretrained_dict model_dict : list (string * V))
  : list (string * V) :=
  dict_update model_dict (filter_checkpoint pretrained_dict model_dict).

End Checkpoint.

(** ** [save_overlap] *)

Definition class_names : list string :=
  ["road"; "sidewalk"; "building"; "wall"; "fence";
   "pole"; "traffic_light"; "traffic_sign"; "vegetation"; "terrain";
   "sky"; "person"; "rider"; "car"; "truck"; "bus"; "train";
   "motorcycle"; "bicycle"].

(** [l[i]] for an integer [i]: a negative index counts from the end. *)
Definition list_getitem {A : Type} (l : list A) (i : Z) : result A :=
  let len := Z.of_nat (length l) in
  let i' := if i <? 0 then i + len else i in
  if (i' <? 0) || (len <=? i') then Raise IndexError
  else py_index l (Z.to_nat i').

(** [overlap[key]] *)
Definition dict_getitem (key : Z) (overlap : list (Z * Q)) : result Q :=
  match dict_get Z.eqb key overlap with
  | Some v => Ok v
  | None => Raise KeyError
  end.

(** [a < b] *)
Definition Qlt_bool (a b : Q) : bool := negb (Qle_bool b a).

(** [sorted(xs, key=f)]: every element is decorated with its key once; the
    sort is stable and compares the keys with [<] only. *)
Fixpoint insert_by_key {A : Type} (x : Q * A) (l : list (Q * A))
  : list (Q * A) :=
  match l with
  | [] => [x]
  | y :: l' =>
      if Qlt_bool (fst y) (fst x) then y :: insert_by_key x l'
      else x :: y :: l'
  end.

Definition sorted_by_key {A : Type} (f : A -> result Q) (xs : list A)
  : result (list A) :=
  decorated <- for_each (fun x => v <- f x ;; Ok (v, x)) xs ;;
  Ok (map snd (fold_right insert_by_key [] decorated)).

(** [list(reversed(sorted(overlap, key=lambda key: overlap[key])))[:k]] *)
Definition max_keys (overlap : list (Z * Q)) (k : Z) : result (list Z) :=
  by_mass <- sorted_by_key (fun key => dict_getitem key overlap)
                           (map fst overlap) ;;
  Ok (apply_slice {| slice_start := 0; slice_stop := k |} (rev by_mass)).

(** [save_overlap]: the mapping handed to [np.save] and the labels and
    values handed to [plt.barh]. *)
Definition save_overlap (T : tensor_arith) {saliency : Type}
    (normalize_plane : saliency -> list (list Q))
    (gradcam : saliency) (label : label_map) (k : Z)
  : result (list (Z * Q) * (list string * list Q)) :=
  overlap <- compute_overlap T normalize_plane label gradcam ;;
  max_keys <- max_keys overlap k ;;
  max_labels <- for_each (list_getitem class_names) max_keys ;;
  max_values <- for_each (fun key => dict_getitem key overlap) max_keys ;;
  Ok (overlap, (max_labels, max_values)).

(** ** [run]: the pixels of one image *)

(** The arguments the loop of [run] reads to choose the pixels. *)
Record pixel_args : Type := {
  args_pixel_i : py_arg;
  args_pixel_j : py_arg;
  args_pixel_i_range : py_arg;
  args_pixel_j_range : py_arg;
  args_pixel_cartesian_product : bool;
  args_crop_size : Z
}.

(** One iteration of the loop of [run] when [--crop-for] is not given, up
    to the loop over the pixels: for a whole-image method the assertion
    that no pixel is specified and, after the map of the whole image, the
    [continue] unless a crop size is set; then the assertion that both axes
    are specified and the call of [get_pixels].  [None] stands for the
    [continue]; the calls in between are taken to return. *)
Definition image_pixels (whole_image : bool) (args : pixel_args)
  : result (option (list (Z * Z))) :=
  next_image <-
    (if whole_image then
       if truthy (args_pixel_i args) || truthy (args_pixel_j args)
          || truthy (args_pixel_i_range args)
          || truthy (args_pixel_j_range args)
       then Raise AssertionError
       else Ok (args_crop_size args <=? 0)
     else Ok false) ;;
  if next_image then Ok None
  else if (truthy (args_pixel_i args) || truthy (args_pixel_i_range args))
          && (truthy (args_pixel_j args) || truthy (args_pixel_j_range args))
  then
    pixels <- get_pixels (args_pixel_i args) (args_pixel_j args)
                         (args_pixel_i_range args) (args_pixel_j_range args)
                         (args_pixel_cartesian_product args) ;;
    Ok (Some pixels)
  else Raise AssertionError.

(** ** Paths and directory names *)

(** The scan of [s.replace(old, new)] for a non-empty [old], left to right:
    [skip] counts the characters of a replaced occurrence still to pass. *)
Fixpoint replace_from (old new : string) (skip : nat) (s : string) : string :=
  match s with
  | EmptyString => EmptyString
  | String c s' =>
      match skip with
      | S skip' => replace_from old new skip' s'
      | O =>
          if String.prefix old s
          then (new ++ replace_from old new (String.length old - 1) s')%string
          else String c (replace_from old new 0 s')
      end
  end.

(** [s.replace(old, new)]; an empty [old] matches before every character
    and at the end. *)
Definition str_replace (old new s : string) : string :=
  match old with
  | EmptyString =>
      (new ++ String.concat "" (map (fun c => String c new)
                                    (list_ascii_of_string s)))%string
  | _ => replace_from old new 0 s
  end.

(** [s.endswith('/')] *)
Fixpoint ends_with_sep (s : string) : bool :=
  match s with
  | EmptyString => false
  | String c EmptyString => Ascii.eqb c "/"
  | String _ s' => ends_with_sep s'
  end.

(** [os.path.join(a, b)] of [posixpath]. *)
Definition path_join (a b : string) : string :=
  if String.prefix "/" b then b
  else
    match a with
    | EmptyString => b
    | _ => if ends_with_sep a then (a ++ b)%string else (a ++ "/" ++ b)%string
    end.

(** [['model.' + layer for layer in target_layers]] under NBDT. *)
Definition nbdt_target_layers (use_nbdt : bool) (target_layers : list string)
  : list string :=
  if use_nbdt then map (fun layer => ("model." ++ layer)%string) target_layers
  else target_layers.

(** An optional string in an f-string field. *)
Definition format_optional (v : option string) : string :=
  match v with
  | Some s => s
  | None => "None"
  end.

Section OutputDir.

(** [str.lower], which the language defines over all of Unicode. *)
Variable str_lower : string -> string.

(** [generate_output_dir]: the name of the directory it creates and
    returns. *)
Definition generate_output_dir (output_dir vis_mode target_layer : string)
    (use_nbdt : bool) (nbdt_node_wnid : option string) (crop_size : Z)
    (cls : option string) : string :=
  let vis_mode := str_lower vis_mode in
  let target_layer := str_replace "model." "" target_layer in
  let dir := path_join output_dir (vis_mode ++ "_" ++ target_layer)%string in
  let dir := if use_nbdt
             then (dir ++ "_" ++ format_optional nbdt_node_wnid)%string
             else dir in
  let dir := match cls with
             | Some (String c s) => (dir ++ "_cls" ++ String c s)%string
             | _ => dir
             end in
  let dir := if 0 <? crop_size
             then (dir ++ "_crop" ++ format_value (VInt crop_size))%string
             else dir in
  dir.

End OutputDir.

(** [generate_save_path]; the parameter [suffix] is not used. *)
Definition generate_save_path (output_dir : string)
    (gradcam_kwargs : kwargs_dict) (ext : string) : result string :=
  fname <- generate_fname gradcam_kwargs default_order ;;
  Ok (path_join output_dir (fname ++ "." ++ ext)%string).

(** [save_gradcam]: the path of the array saved with the picture. *)
Definition np_save_path (save_path : string) : string :=
  str_replace ".jpg" ".npy" save_path.

(** ** Class names and class ids *)

(** [l.index(x)]: the first position of [x]; a [ValueError] when [x] is not
    in the list. *)
Fixpoint list_index (x : string) (l : list string) : result Z :=
  match l with
  | [] => Raise ValueError
  | y :: l' =>
      if String.eqb x y then Ok 0
      else i <- list_index x l' ;; Ok (i + 1)
  end.

(** [args.crop_for and class_names.index(args.crop_for) not in label]:
    the test by which [run] skips an image; [None] and the empty string
    are false before the index is looked up. *)
Definition skips_image (crop_for : option string) (label : list (list Z))
  : result bool :=
  match crop_for with
  | Some (String c name) =>
      cls_index <- list_index (String c name) class_names ;;
      Ok (negb (existsb (Z.eqb cls_index) (concat label)))
  | _ => Ok false
  end.

(** ** [generate_and_save_saliency]: one turn of the loop over the layers *)

(** The arguments [pixel_i], [pixel_j] and [crop_size] of the call that
    ends the loop over the pixels in [run]: none without a crop size. *)
Definition saliency_call_args (args_crop_size pixel_i pixel_j : Z)
  : option Z * option Z * option Z :=
  if args_crop_size <=? 0 then (None, None, None)
  else (Some pixel_i, Some pixel_j, Some args_crop_size).

(** Truthiness of an optional integer: [None] and [0] are false. *)
Definition truthy_int (a : option Z) : bool :=
  match a with
  | Some z => negb (z =? 0)
  | None => false
  end.

(** All the elements of a saliency tensor. *)
Definition tensor_values (t : image_of true Q) : list Q :=
  concat (concat (concat t)).

(** [float(t.min())] and [float(t.max())]: torch refuses to reduce a tensor
    without elements, with a [RuntimeError]. *)
Definition tensor_extrema (t : image_of true Q) : result (Q * Q) :=
  match tensor_values t with
  | [] => Raise RuntimeError
  | x :: vals =>
      Ok (fold_left (fun m v => py_min v m) vals x,
          fold_left (fun m v => py_max v m) vals x)
  end.

Section LayerOverlap.

Variable T : tensor_arith.

(** [GradCAM.normalize(gradcam)[0,0]] on a saliency tensor. *)
Variable normalize_plane : image_of true Q -> list (list Q).

(** One turn of the loop over the target layers, as far as the overlap
    goes: the map is cropped when the three arguments are given; its
    extrema are taken for the bounds; the overlap is left out when the
    three arguments are true, and it is computed from the map, cropped or
    not, and the label map of the whole image otherwise.  The result is the
    extrema and what [save_overlap] saves, [None] standing for the
    [continue]; writing the pictures in between is taken to return. *)
Definition layer_overlap (call : option Z * option Z * option Z)
    (gradcam_region : image_of true Q) (label : label_map)
  : result (Q * Q * option (list (Z * Q) * (list string * list Q))) :=
  let '(pixel_i, pixel_j, crop_size) := call in
  let gradcam_region :=
    match crop_size, pixel_i, pixel_j with
    | Some size, Some i, Some j => crop i j size true gradcam_region
    | _, _, _ => gradcam_region
    end in
  extrema <- tensor_extrema gradcam_region ;;
  if truthy_int crop_size && truthy_int pixel_i && truthy_int pixel_j
  then Ok (extrema, None)
  else
    saved <- save_overlap T normalize_plane gradcam_region label 5 ;;
    Ok (extrema, Some saved).

End LayerOverlap.

(* ================================================================== *)
(** * Part II: the vocabulary of the specification                     *)
(* ================================================================== *)

(** ** Pixel selector *)

(** An axis is specified either by a non-empty explicit list (and no range)
    or by a range (and no explicit list); [vals] are the values it denotes. *)
Inductive axis_spec : py_arg -> py_arg -> list Z -> Prop :=
| axis_explicit (l : list Z) (rng : py_arg) :
    l <> [] -> truthy rng = false -> axis_spec (PyList l) rng l
| axis_range (pixel : py_arg) (args vals : list Z) :
    truthy pixel = false -> py_range args = Ok vals ->
    axis_spec pixel (PyList args) vals.

(** The columns of the cartesian product: one list of pairs per column
    value. *)
Definition columns_of (ivs jvs : list Z) : list (list (Z * Z)) :=
  map (fun j => map (fun i => (i, j)) ivs) jvs.

(** ** Output path builder *)




(** [d] without its first entry for [key]. *)
Fixpoint dict_remove {K V : Type} (eqb : K -> K -> bool) (key : K)
    (d : list (K * V)) : list (K * V) :=
  match d with
  | [] => []
  | (k, v) :: d' =>
      if eqb key k then d' else (k, v) :: dict_remove eqb key d'
  end.

(** ** Crop *)

(** The element at row [r], column [c] of a plane. *)
Definition plane_get {A : Type} (plane : list (list A)) (r c : nat)
  : option A :=
  match nth_error plane r with
  | Some row => nth_error row c
  | None => None
  end.

(** The index [lo + n] of the half-open window from [lo] to [hi], if the
    window reaches that far. *)
Definition window_index (lo hi : Z) (n : nat) : option nat :=
  if lo + Z.of_nat n <? hi then Some (Z.to_nat lo + n)%nat else None.

(** The element at batch [n], channel [ch], row [r], column [c]. *)
Definition tensor_get {A : Type} (t : list (list (list (list A))))
    (n ch r c : nat) : option A :=
  match nth_error t n with
  | Some batch =>
      match nth_error batch ch with
      | Some plane => plane_get plane r c
      | None => None
      end
  | None => None
  end.

(** ** Saliency bounds *)

(** The bounds a log line reports. *)
Definition line_bounds (l : log_line) : bounds :=
  match l with
  | StartingBounds b | Bounds b | FinalBounds b => b
  end.

(** The bounds in force after a stretch of log. *)
Definition last_bounds (prev : option bounds) (log : list log_line)
  : option bounds :=
  fold_left (fun _ l => Some (line_bounds l)) log prev.

(** [b'] is at least as wide as [b]. *)
Definition widens (b b' : bounds) : Prop :=
  (minimum b' <= minimum b)%Q /\ (maximum b <= maximum b')%Q.

(** The discipline of the bounds along a log: a starting line reports the
    reset pair, an update line widens the pair in force, a final line
    repeats it. *)
Fixpoint widening (prev : option bounds) (log : list log_line) : Prop :=
  match log with
  | [] => True
  | StartingBounds b :: log' =>
      b = reset_bounds /\ widening (Some b) log'
  | Bounds b :: log' =>
      match prev with
      | Some p => widens p b
      | None => False
      end /\ widening (Some b) log'
  | FinalBounds b :: log' =>
      prev = Some b /\ widening (Some b) log'
  end.

(** ** Overlap computer *)

(** The two maps have the same spatial shape. *)
Definition same_shape {A B : Type} (a : list (list A)) (b : list (list B))
  : Prop :=
  map (@length A) a = map (@length B) b.

(** The saliency values at the pixels labelled [cls], row by row. *)
Definition class_values (label : list (list Z)) (plane : list (list Q))
    (cls : Z) : list Q :=
  map snd (filter (fun p => fst p =? cls)
                  (combine (concat label) (concat plane))).

(** The arithmetic mean. *)
Definition mean (vals : list Q) : Q :=
  (fold_right Qplus 0 vals / inject_Z (Z.of_nat (length vals)))%Q.

(** Torch reads the selectors of the label map as boolean masks: the label
    map is a tensor, or an array without rows or of 32 rows or more. *)
Definition mask_read (label : label_map) : Prop :=
  label_kind label = TorchTensor \/
  label_rows label = [] \/
  (32 <= length (label_rows label))%nat.

(** The quotient torch computes for a class from the values at its pixels:
    their sum by their number, the mean as far as float32 gives it. *)
Definition class_quotient (T : tensor_arith) (label : list (list Z))
    (plane : list (list Q)) (cls : Z) : Q :=
  tensor_div T (tensor_sum T (class_values label plane cls))
             (Z.of_nat (length (class_values label plane cls))).

(** An arithmetic that does not round: what float32 arithmetic amounts to
    on values whose sums and quotients are float32 numbers again, such as
    halves and quarters. *)
Definition unrounded : tensor_arith :=
  {| tensor_sum := fun vals => fold_right Qplus 0%Q vals;
     tensor_div := fun x n => (x / inject_Z n)%Q |}.

(** ** Bounded random selection *)

(** A draw without replacement: [k] distinct positions below [n]. *)
Record draws_without_replacement (R : random_module) : Prop := {
  choose_length : forall g n k, (k <= n)%nat ->
    length (fst (rng_choose R g n k)) = k;
  choose_bound : forall g n k, (k <= n)%nat ->
    Forall (fun i => (i < n)%nat) (fst (rng_choose R g n k));
  choose_nodup : forall g n k, (k <= n)%nat ->
    NoDup (fst (rng_choose R g n k))
}.

(** A generator without any randomness: it draws the first [k] positions. *)
Definition first_positions : random_module :=
  {| rng_state := unit;
     rng_seed := fun _ => tt;
     rng_choose := fun g _ k => (seq 0 k, g);
     rng_samples_views := true |}.

(** A generator with a state: a linear congruential step, and a draw that
    removes the chosen position from the pool each time. *)
Definition lcg_next (s : Z) : Z := (1103515245 * s + 12345) mod 2147483648.

Definition remove_nth (i : nat) (pool : list nat) : list nat :=
  firstn i pool ++ skipn (S i) pool.

Fixpoint draw_from (pool : list nat) (k : nat) (s : Z) : list nat * Z :=
  match k with
  | O => ([], s)
  | S k' =>
      let s' := lcg_next s in
      let i := Z.to_nat (s' mod Z.of_nat (length pool)) in
      let r := draw_from (remove_nth i pool) k' s' in
      (nth i pool O :: fst r, snd r)
  end.

Definition lcg : random_module :=
  {| rng_state := Z;
     rng_seed := fun seed => seed;
     rng_choose := fun g n k => draw_from (seq 0 n) k g;
     rng_samples_views := true |}.

(** The same generator behind a [sample] that refuses views. *)
Definition lcg_strict : random_module :=
  {| rng_state := Z;
     rng_seed := fun seed => seed;
     rng_choose := fun g n k => draw_from (seq 0 n) k g;
     rng_samples_views := false |}.

(** The spatial bin of a pixel. *)
Definition bin_of (bin_size : Z) (p : Z * Z) : Z * Z :=
  (fst p / bin_size, snd p / bin_size).

Definition pixel_eq_dec (a b : Z * Z) : {a = b} + {a <> b}.
Proof. decide equality; apply Z.eq_dec. Defined.

(** The number of distinct bins the candidates occupy. *)
Definition distinct_bins (bin_size : Z) (pixels : list (Z * Z)) : nat :=
  length (nodup pixel_eq_dec (map (bin_of bin_size) pixels)).

(** What the filing loop maintains once the pixels [seen] are filed: the
    bins are distinct keys, every list is non-empty and holds pixels seen
    that lie in its bin, and the bin of every pixel seen is a key. *)
Definition bins_filed (bin_size : Z) (seen : list (Z * Z))
    (d : list (Z * Z * list (Z * Z))) : Prop :=
  NoDup (map fst d) /\
  (forall bin l, In (bin, l) d ->
     l <> [] /\ forall p, In p l -> In p seen /\ bin_of bin_size p = bin) /\
  (forall p, In p seen -> In (bin_of bin_size p) (map fst d)).

(** ** Coordinate mapping *)

(** One axis of [compute_output_coord]. *)
Definition scale_coord (pixel size_in size_out : Z) : result Z :=
  ratio <- int_true_div size_out size_in ;;
  scaled <- int_mul_float pixel ratio ;;
  floor_to_int scaled.

(** ** Further properties: vocabulary *)

(** [b] brackets the extrema [lo] and [hi] of a region. *)
Definition encloses (b : bounds) (region : Q * Q) : Prop :=
  (minimum b <= fst region)%Q /\ (snd region <= maximum b)%Q.

(** Every character of [s] satisfies [P]. *)
Fixpoint all_chars (P : ascii -> bool) (s : string) : bool :=
  match s with
  | EmptyString => true
  | String c s' => P c && all_chars P s'
  end.

(** The characters of a decimal numeral. *)
Definition decimal_char (c : ascii) : bool :=
  existsb (Ascii.eqb c)
    ["-"; "0"; "1"; "2"; "3"; "4"; "5"; "6"; "7"; "8"; "9"]%char.

(** The value of the last checkpoint entry whose key, without its first
    six characters, is [k]; [init] if there is none. *)
Definition last_stripped {V : Type} (k : string)
    (pretrained_dict : list (string * V)) (init : option V) : option V :=
  fold_left (fun acc kv =>
               if String.eqb k (str_drop 6 (fst kv)) then Some (snd kv)
               else acc)
            pretrained_dict init.

(** ** Command-line values *)

(** What [argparse] stores for [--pixel-i] and [--pixel-j]: the default [0]
    or the list of the integers given. *)
Definition parsed_pixel (a : py_arg) : Prop :=
  a = PyInt 0 \/ exists l, a = PyList l.

(** What [argparse] stores for [--pixel-i-range] and [--pixel-j-range]:
    [None] or the three integers given. *)
Definition parsed_range (a : py_arg) : Prop :=
  a = PyNone \/ exists start stop step, a = PyList [start; stop; step].

(** The axis is specified: by a list or by a range. *)
Definition axis_given (pixel pixel_range : py_arg) : bool :=
  truthy pixel || truthy pixel_range.

(** The axis is specified twice: by a list and by a range. *)
Definition axis_given_twice (pixel pixel_range : py_arg) : bool :=
  truthy pixel && truthy pixel_range.

(** The range of the axis is the one used, and its step is zero. *)
Definition zero_step (pixel pixel_range : py_arg) : bool :=
  negb (truthy pixel) &&
  match pixel_range with
  | PyList [_; _; step] => step =? 0
  | _ => false
  end.

(** ** Strings *)

(** [p in s] *)
Fixpoint str_contains (p s : string) : bool :=
  String.prefix p s ||
  match s with
  | EmptyString => false
  | String _ s' => str_contains p s'
  end.

(** ** Saliency tensors *)

(** The plane at batch 0, channel 0 of a saliency tensor. *)
Definition plane00 {A : Type} (t : list (list (list (list A))))
  : list (list A) :=
  nth 0%nat (nth 0%nat t []) [].

(* ================================================================== *)
(** * Part III: the properties                                         *)
(* ================================================================== *)

(** ** Pixel selector *)

Lemma axis_spec_no_assert (p r : py_arg) (vals : list Z) :
  axis_spec p r vals -> truthy p && truthy r = false.
Proof.
  intros [l rng Hl Hr | pixel args v Hp Hr]; cbn.
  - rewrite Hr. apply andb_false_r.
  - now rewrite Hp.
Qed.

Lemma axis_spec_resolves (p r : py_arg) (vals : list Z) :
  axis_spec p r vals -> axis_or p r = Ok (PyList vals).
Proof.
  intros [l rng Hl Hr | pixel args v Hp Hr]; unfold axis_or.
  - destruct l; [congruence | reflexivity].
  - rewrite Hp. cbn. now rewrite Hr.
Qed.

Lemma for_each_columns (ivs jvs : list Z) :
  for_each (fun j => l <- py_iter (PyList ivs) ;;
                     Ok (map (fun i => (i, j)) l)) jvs
  = Ok (columns_of ivs jvs).
Proof.
  induction jvs as [|j jvs IH]; cbn; [reflexivity|].
  cbn in IH. now rewrite IH.
Qed.

Lemma get_pixels_cartesian (pi pj pir pjr : py_arg) (rows cols : list Z) :
  axis_spec pi pir rows -> axis_spec pj pjr cols ->
  get_pixels pi pj pir pjr true = Ok (concat (columns_of rows cols)).
Proof.
  intros Hi Hj. unfold get_pixels.
  rewrite (axis_spec_no_assert _ _ _ Hi), (axis_spec_resolves _ _ _ Hi). cbn.
  rewrite (axis_spec_no_assert _ _ _ Hj), (axis_spec_resolves _ _ _ Hj). cbn.
  pose proof (for_each_columns rows cols) as H. cbn in H. now rewrite H.
Qed.

Lemma get_pixels_zip (pi pj pir pjr : py_arg) (rows cols : list Z) :
  axis_spec pi pir rows -> axis_spec pj pjr cols ->
  get_pixels pi pj pir pjr false = Ok (combine rows cols).
Proof.
  intros Hi Hj. unfold get_pixels.
  rewrite (axis_spec_no_assert _ _ _ Hi), (axis_spec_resolves _ _ _ Hi). cbn.
  rewrite (axis_spec_no_assert _ _ _ Hj), (axis_spec_resolves _ _ _ Hj). reflexivity.
Qed.

Lemma list_prod_cons_r (rows cols : list Z) (c : Z) :
  Permutation (list_prod rows (c :: cols))
              (map (fun i => (i, c)) rows ++ list_prod rows cols).
Proof.
  induction rows as [|r rows IH]; cbn; [constructor|].
  apply perm_skip. rewrite IH. apply Permutation_app_swap_app.
Qed.

Lemma columns_perm_list_prod (rows cols : list Z) :
  Permutation (concat (columns_of rows cols)) (list_prod rows cols).
Proof.
  unfold columns_of. induction cols as [|c cols IH]; cbn.
  - induction rows; cbn; auto.
  - rewrite list_prod_cons_r. now apply Permutation_app_head.
Qed.

Lemma columns_length (rows cols : list Z) :
  length (concat (columns_of rows cols)) = (length rows * length cols)%nat.
Proof.
  unfold columns_of. induction cols as [|c cols IH]; cbn; [lia|].
  rewrite length_app, length_map, IH. lia.
Qed.

Lemma combine_nth_error (A B : Type) (l : list A) (l' : list B) (k : nat)
    (a : A) (b : B) :
  nth_error l k = Some a -> nth_error l' k = Some b ->
  nth_error (combine l l') k = Some (a, b).
Proof.
  revert l' k. induction l as [|x l IH]; intros [|y l'] [|k]; cbn;
    try discriminate.
  - intros [= ->] [= ->]. reflexivity.
  - apply IH.
Qed.

Lemma columns_nth_error (rows cols : list Z) (q r : nat) (rv cv : Z) :
  nth_error rows r = Some rv -> nth_error cols q = Some cv ->
  nth_error (concat (columns_of rows cols)) (q * length rows + r)
  = Some (rv, cv).
Proof.
  unfold columns_of. intros Hr. revert q. induction cols as [|c cols IH]; intros [|q]; cbn;
    try discriminate.
  - intros [= ->]. rewrite nth_error_app1.
    + now rewrite nth_error_map, Hr.
    + rewrite length_map. apply nth_error_Some. congruence.
  - intros Hq. rewrite nth_error_app2; rewrite length_map; [|lia].
    replace (length rows + q * length rows + r - length rows)%nat
      with (q * length rows + r)%nat by lia.
    now apply IH.
Qed.

(** C1. For valid axis specifications, [get_pixels] in cartesian mode
    returns [|rows| * |cols|] pairs, one for every combination of a row
    value and a column value; in zip mode it returns [min |rows| |cols|]
    pairs, the k-th being the k-th row value with the k-th column value. *)
Theorem get_pixels_count_and_pairing
    (pi pj pir pjr : py_arg) (rows cols : list Z) :
  axis_spec pi pir rows -> axis_spec pj pjr cols ->
  (exists ps, get_pixels pi pj pir pjr true = Ok ps /\
     length ps = (length rows * length cols)%nat /\
     Permutation ps (list_prod rows cols)) /\
  (exists ps, get_pixels pi pj pir pjr false = Ok ps /\
     length ps = Nat.min (length rows) (length cols) /\
     forall k r c, nth_error rows k = Some r -> nth_error cols k = Some c ->
                   nth_error ps k = Some (r, c)).
Proof.
  intros Hi Hj. split.
  - exists (concat (columns_of rows cols)). split; [|split].
    + now apply get_pixels_cartesian.
    + apply columns_length.
    + apply columns_perm_list_prod.
  - exists (combine rows cols). split; [|split].
    + now apply get_pixels_zip.
    + apply length_combine.
    + intros k r c. apply combine_nth_error.
Qed.

Lemma get_pixels_count_and_pairing_witness :
  (exists ps, get_pixels (PyList [1; 2]) (PyInt 0) PyNone (PyList [0; 6; 2])
                true = Ok ps /\
     length ps = (2 * 3)%nat /\
     Permutation ps (list_prod [1; 2] [0; 2; 4])) /\
  (exists ps, get_pixels (PyList [1; 2]) (PyInt 0) PyNone (PyList [0; 6; 2])
                false = Ok ps /\
     length ps = Nat.min 2 3 /\
     forall k r c, nth_error [1; 2] k = Some r ->
                   nth_error [0; 2; 4] k = Some c ->
                   nth_error ps k = Some (r, c)).
Proof.
  apply (get_pixels_count_and_pairing
           (PyList [1; 2]) (PyInt 0) PyNone (PyList [0; 6; 2])
           [1; 2] [0; 2; 4]).
  - apply axis_explicit; [discriminate | reflexivity].
  - apply axis_range; reflexivity.
Defined.

(** C10. In cartesian mode the pairs come in column-major order: position
    [q * |rows| + r] holds [(rows[r], cols[q])]. *)
Theorem get_pixels_column_major
    (pi pj pir pjr : py_arg) (rows cols : list Z) (q r : nat) (rv cv : Z) :
  axis_spec pi pir rows -> axis_spec pj pjr cols ->
  nth_error rows r = Some rv -> nth_error cols q = Some cv ->
  exists ps, get_pixels pi pj pir pjr true = Ok ps /\
             nth_error ps (q * length rows + r) = Some (rv, cv).
Proof.
  intros Hi Hj Hr Hq. exists (concat (columns_of rows cols)). split.
  - now apply get_pixels_cartesian.
  - now apply columns_nth_error.
Qed.

Lemma get_pixels_column_major_witness :
  exists ps, get_pixels (PyList [10; 20; 30]) (PyList [7; 8]) PyNone PyNone
               true = Ok ps /\
             nth_error ps (1 * length [10; 20; 30] + 2) = Some (30, 8).
Proof.
  apply (get_pixels_column_major
           (PyList [10; 20; 30]) (PyList [7; 8]) PyNone PyNone
           [10; 20; 30] [7; 8] 1 2 30 8).
  - apply axis_explicit; [discriminate | reflexivity].
  - apply axis_explicit; [discriminate | reflexivity].
  - reflexivity.
  - reflexivity.
Defined.

(** The column-major order on a small input, by evaluation. *)
Example get_pixels_cartesian_order :
  get_pixels (PyList [10; 20; 30]) (PyList [7; 8]) PyNone PyNone true
  = Ok [(10, 7); (20, 7); (30, 7); (10, 8); (20, 8); (30, 8)].
Proof. reflexivity. Qed.

(** C5, as stated, fails: with a zero-step row range the row axis raises
    [ValueError] before the column assertion is reached, although the
    column axis carries both a list and a range. *)
Lemma get_pixels_double_spec_not_assertion :
  truthy (PyList [1]) && truthy (PyList [0; 3; 1]) = true /\
  get_pixels PyNone (PyList [1]) (PyList [0; 10; 0]) (PyList [0; 3; 1]) false
  = Raise ValueError /\
  get_pixels PyNone (PyList [1]) (PyList [0; 10; 0]) (PyList [0; 3; 1]) false
  <> Raise AssertionError.
Proof. repeat split. discriminate. Qed.

(** An empty explicit list is falsy: together with a range it passes the
    assertion and the range is used. *)
Example get_pixels_empty_list_with_range :
  get_pixels (PyList []) (PyList [7]) (PyList [0; 3; 1]) PyNone false
  = Ok [(0, 7)].
Proof. reflexivity. Qed.

(** C5 (amended). When some axis carries both a non-empty explicit list and
    a non-empty range, [get_pixels] returns no pixel set; it raises the
    assertion error when that axis is the row axis, and also when it is the
    column axis and the row axis itself resolves. *)
Theorem get_pixels_rejects_double_spec
    (pi pj pir pjr : py_arg) (cp : bool) :
  truthy pi && truthy pir = true \/ truthy pj && truthy pjr = true ->
  (forall ps, get_pixels pi pj pir pjr cp <> Ok ps) /\
  (truthy pi && truthy pir = true ->
   get_pixels pi pj pir pjr cp = Raise AssertionError) /\
  (truthy pj && truthy pjr = true ->
   forall a, axis_or pi pir = Ok a ->
   get_pixels pi pj pir pjr cp = Raise AssertionError).
Proof.
  intros H. unfold get_pixels.
  destruct (truthy pi && truthy pir) eqn:Ei.
  - repeat split; intros; discriminate.
  - destruct H as [H|H]; [discriminate|]. rewrite H.
    destruct (axis_or pi pir) as [a|e]; cbn.
    + repeat split; intros; discriminate.
    + repeat split; intros; discriminate.
Qed.

Lemma get_pixels_rejects_double_spec_witness :
  (forall ps, get_pixels (PyList [3]) (PyList [1]) PyNone (PyList [0; 3; 1])
                true <> Ok ps) /\
  (truthy (PyList [3]) && truthy PyNone = true ->
   get_pixels (PyList [3]) (PyList [1]) PyNone (PyList [0; 3; 1]) true
   = Raise AssertionError) /\
  (truthy (PyList [1]) && truthy (PyList [0; 3; 1]) = true ->
   forall a, axis_or (PyList [3]) PyNone = Ok a ->
   get_pixels (PyList [3]) (PyList [1]) PyNone (PyList [0; 3; 1]) true
   = Raise AssertionError).
Proof.
  apply (get_pixels_rejects_double_spec
           (PyList [3]) (PyList [1]) PyNone (PyList [0; 3; 1]) true).
  right. reflexivity.
Defined.

(** ** Output path builder *)

Section FilenameOrder.










End FilenameOrder.

(** ** Dictionaries *)

Section DictFacts.

Context {K V : Type} (eqb : K -> K -> bool).
Hypothesis eqb_spec : forall a b : K, reflect (a = b) (eqb a b).

Lemma dict_pop_get (key : K) (d : list (K * V)) :
  dict_pop eqb key d = match dict_get eqb key d with
                       | Some v => Ok (v, dict_remove eqb key d)
                       | None => Raise KeyError
                       end.
Proof.
  induction d as [|[k v] d IH]; cbn; [reflexivity|].
  destruct (eqb key k); [reflexivity|].
  rewrite IH. now destruct (dict_get eqb key d).
Qed.


Lemma dict_get_none (key : K) (d : list (K * V)) :
  dict_get eqb key d = None <-> ~ In key (map fst d).
Proof.
  induction d as [|[k v] d IH]; cbn; [tauto|].
  destruct (eqb_spec key k) as [->|Hk].
  - split; [discriminate | intros H; exfalso; apply H; now left].
  - rewrite IH. split; [intros H [E|E]; [congruence | contradiction]
                       | intros H E; apply H; now right].
Qed.

Lemma dict_get_in (key : K) (v : V) (d : list (K * V)) :
  NoDup (map fst d) -> (dict_get eqb key d = Some v <-> In (key, v) d).
Proof.
  induction d as [|[k w] d IH]; cbn; intros Hnd.
  - split; [discriminate | contradiction].
  - inversion Hnd as [|? ? Hk Hnd']; subst.
    destruct (eqb_spec key k) as [->|Hne].
    + split.
      * intros [= ->]. now left.
      * intros [[= ->]|Hin]; [reflexivity|].
        exfalso. apply Hk. now apply (in_map fst) in Hin.
    + rewrite (IH Hnd'). split; [now right|].
      intros [[= -> _]|Hin]; [contradiction | exact Hin].
Qed.


Lemma keys_remove (key : K) (d : list (K * V)) :
  NoDup (map fst d) ->
  map fst (dict_remove eqb key d)
  = filter (fun k => negb (eqb k key)) (map fst d).
Proof.
  induction d as [|[k v] d IH]; cbn; intros Hnd; [reflexivity|].
  inversion Hnd as [|? ? Hk Hnd']; subst.
  destruct (eqb_spec key k) as [->|Hne]; cbn.
  - destruct (eqb_spec k k) as [_|Hkk]; [|contradiction]. cbn.
    symmetry. apply forallb_filter_id. apply forallb_forall.
    intros x Hx. destruct (eqb_spec x k); [subst; contradiction | reflexivity].
  - destruct (eqb_spec k key) as [->|_]; [contradiction|]. cbn.
    now rewrite IH.
Qed.

(** Setting a key that is absent appends the entry. *)
Lemma dict_set_fresh (key : K) (v : V) (d : list (K * V)) :
  ~ In key (map fst d) -> dict_set eqb key v d = d ++ [(key, v)].
Proof.
  induction d as [|[k w] d IH]; cbn; intros Hk; [reflexivity|].
  destruct (eqb_spec key k) as [->|Hne]; [exfalso; apply Hk; now left|].
  rewrite IH; [reflexivity | intros Hin; apply Hk; now right].
Qed.

Lemma dict_set_keys_in (key k : K) (v : V) (d : list (K * V)) :
  In k (map fst (dict_set eqb key v d)) <-> k = key \/ In k (map fst d).
Proof.
  induction d as [|[k' w] d IH]; cbn.
  - intuition.
  - destruct (eqb_spec key k') as [->|Hne]; cbn; [intuition|].
    rewrite IH. intuition.
Qed.

Lemma dict_set_nodup (key : K) (v : V) (d : list (K * V)) :
  NoDup (map fst d) -> NoDup (map fst (dict_set eqb key v d)).
Proof.
  induction d as [|[k' w] d IH]; cbn; intros Hnd.
  - repeat constructor. intros [].
  - inversion Hnd as [|? ? Hk Hnd']; subst.
    destruct (eqb_spec key k') as [->|Hne]; cbn; [now constructor|].
    constructor; [|now apply IH].
    rewrite dict_set_keys_in. intros [->|Hin]; [now apply Hne | now apply Hk].
Qed.

Lemma dict_set_entries (key k : K) (v w : V) (d : list (K * V)) :
  In (k, w) (dict_set eqb key v d) -> (k = key /\ w = v) \/ In (k, w) d.
Proof.
  induction d as [|[k' w'] d IH]; cbn.
  - intros [[= <- <-]|[]]. now left.
  - destruct (eqb_spec key k') as [->|Hne]; cbn.
    + intros [[= <- <-]|Hin]; [now left | right; now right].
    + intros [E|Hin]; [right; now left|].
      destruct (IH Hin) as [H|H]; [now left | right; now right].
Qed.

End DictFacts.

Section FilenameBuilder.













(** Absent priority keys are skipped and the other keys are sorted. *)
Example generate_fname_suffix :
  generate_fname [("suffix", VStr "a"); ("pixel_j", VInt 5); ("image", VInt 2)]
                 default_order
  = Ok "image-2-pixel_j-5-suffix-a".
Proof. reflexivity. Qed.

End FilenameBuilder.

(** ** Crop *)

Section Crop.

Lemma clamp_index_nonneg (len idx : Z) :
  0 <= idx -> clamp_index len idx = Z.min idx len.
Proof.
  intros H. unfold clamp_index.
  destruct (Z.ltb_spec idx 0); [lia | reflexivity].
Qed.

(** A slice with non-negative bounds selects the window from its start to
    its stop, as far as the sequence reaches. *)
Lemma apply_slice_window (A : Type) (lo hi : Z) (l : list A) (n : nat) :
  0 <= lo -> 0 <= hi ->
  nth_error (apply_slice {| slice_start := lo; slice_stop := hi |} l) n
  = match window_index lo hi n with
    | Some k => nth_error l k
    | None => None
    end.
Proof.
  intros Hlo Hhi. unfold apply_slice, window_index. cbn [slice_start slice_stop].
  rewrite !clamp_index_nonneg by assumption.
  rewrite nth_error_firstn, nth_error_skipn.
  destruct (Z.ltb_spec (lo + Z.of_nat n) hi) as [Hin|Hout].
  - destruct (Nat.ltb_spec n
                (Z.to_nat (Z.min hi (Z.of_nat (length l))
                           - Z.min lo (Z.of_nat (length l))))) as [Hn|Hn].
    + f_equal. lia.
    + symmetry. rewrite nth_error_None.
      transitivity (Z.to_nat lo + n)%nat; [lia|].
      apply Nat.eq_le_incl. reflexivity.
  - destruct (Nat.ltb_spec n
                (Z.to_nat (Z.min hi (Z.of_nat (length l))
                           - Z.min lo (Z.of_nat (length l))))) as [Hn|Hn];
      [lia | reflexivity].
Qed.

Lemma slice_plane_window (A : Type) (lo_i hi_i lo_j hi_j : Z)
    (plane : list (list A))
    (r c : nat) :
  0 <= lo_i -> 0 <= hi_i -> 0 <= lo_j -> 0 <= hi_j ->
  plane_get (slice_plane {| slice_start := lo_i; slice_stop := hi_i |}
                         {| slice_start := lo_j; slice_stop := hi_j |} plane)
            r c
  = match window_index lo_i hi_i r, window_index lo_j hi_j c with
    | Some r', Some c' => plane_get plane r' c'
    | _, _ => None
    end.
Proof.
  intros Hli Hhi Hlj Hhj. unfold plane_get, slice_plane.
  rewrite nth_error_map, apply_slice_window by assumption.
  destruct (window_index lo_i hi_i r) as [r'|]; cbn.
  - destruct (nth_error plane r') as [row|]; cbn.
    + rewrite apply_slice_window by assumption.
      now destruct (window_index lo_j hi_j c).
    + now destruct (window_index lo_j hi_j c).
  - reflexivity.
Qed.

(** C8. For a positive crop size and a pixel as centre, [crop] selects on
    each axis the half-open window from [max (centre - size/2) 0] to
    [centre + size/2]: the low edge is clamped at 0, the high edge is never
    shortened by [crop] itself, so a centre closer than [size/2] to the low
    border gives a window starting at 0 and still ending at
    [centre + size/2]. *)
Theorem crop_window (A : Type) (size i j : Z) :
  0 < size -> 0 <= i -> 0 <= j ->
  let half := size / 2 in
  let lo_i := Z.max (i - half) 0 in
  let lo_j := Z.max (j - half) 0 in
  crop_slices i j size
  = ({| slice_start := lo_i; slice_stop := i + half |},
     {| slice_start := lo_j; slice_stop := j + half |}) /\
  (i < half -> lo_i = 0) /\
  (j < half -> lo_j = 0) /\
  (forall (image : image_of false A) (r c : nat),
     plane_get (crop i j size false image) r c
     = match window_index lo_i (i + half) r,
             window_index lo_j (j + half) c with
       | Some r', Some c' => plane_get image r' c'
       | _, _ => None
       end) /\
  (forall (image : image_of true A) (n ch r c : nat),
     tensor_get (crop i j size true image) n ch r c
     = match window_index lo_i (i + half) r,
             window_index lo_j (j + half) c with
       | Some r', Some c' => tensor_get image n ch r' c'
       | _, _ => None
       end).
Proof.
  intros Hs Hi Hj half lo_i lo_j.
  assert (0 <= half) as Hh by (apply Z.div_pos; lia).
  split; [reflexivity|]. split; [subst lo_i; lia|]. split; [subst lo_j; lia|].
  split.
  - intros image r c. unfold crop, crop_slices. cbn [fst snd].
    apply slice_plane_window; lia.
  - intros image n ch r c. unfold crop, crop_slices, tensor_get. cbn [fst snd].
    rewrite nth_error_map.
    destruct (nth_error image n) as [batch|]; cbn;
      [|now destruct (window_index lo_i (i + half) r),
                     (window_index lo_j (j + half) c)].
    rewrite nth_error_map.
    destruct (nth_error batch ch) as [plane|]; cbn;
      [|now destruct (window_index lo_i (i + half) r),
                     (window_index lo_j (j + half) c)].
    apply slice_plane_window; lia.
Qed.

Lemma crop_window_witness :
  let half := 4 / 2 in
  let lo_i := Z.max (1 - half) 0 in
  let lo_j := Z.max (5 - half) 0 in
  crop_slices 1 5 4
  = ({| slice_start := lo_i; slice_stop := 1 + half |},
     {| slice_start := lo_j; slice_stop := 5 + half |}) /\
  (1 < half -> lo_i = 0) /\
  (5 < half -> lo_j = 0) /\
  (forall (image : image_of false nat) (r c : nat),
     plane_get (crop 1 5 4 false image) r c
     = match window_index lo_i (1 + half) r,
             window_index lo_j (5 + half) c with
       | Some r', Some c' => plane_get image r' c'
       | _, _ => None
       end) /\
  (forall (image : image_of true nat) (n ch r c : nat),
     tensor_get (crop 1 5 4 true image) n ch r c
     = match window_index lo_i (1 + half) r,
             window_index lo_j (5 + half) c with
       | Some r', Some c' => tensor_get image n ch r' c'
       | _, _ => None
       end).
Proof.
  apply (crop_window nat 4 1 5); lia.
Defined.

(** A crop of size 4 centred on row 1, column 1 of a 4 by 5 plane keeps
    rows 0..2 and columns 0..2: three wide, not four. *)
Example crop_top_left_corner :
  crop (A := Z) 1 1 4 true
    [[[[ 0;  1;  2;  3;  4];
       [10; 11; 12; 13; 14];
       [20; 21; 22; 23; 24];
       [30; 31; 32; 33; 34]]]]
  = [[[[ 0;  1;  2];
       [10; 11; 12];
       [20; 21; 22]]]].
Proof. reflexivity. Qed.

End Crop.

(** ** Saliency bounds *)

Section SaliencyBounds.

Lemma py_max_ge_second (a b : Q) : (b <= py_max a b)%Q.
Proof.
  unfold py_max. destruct (Qle_bool b a) eqn:E.
  - now apply Qle_bool_iff.
  - apply Qle_refl.
Qed.

Lemma py_min_le_second (a b : Q) : (py_min a b <= b)%Q.
Proof.
  unfold py_min. destruct (Qle_bool a b) eqn:E.
  - now apply Qle_bool_iff.
  - apply Qle_refl.
Qed.

Lemma update_bounds_widens (b : bounds) (region_min region_max : Q) :
  widens b (update_bounds b region_min region_max).
Proof.
  split; cbn; [apply py_min_le_second | apply py_max_ge_second].
Qed.

Lemma widening_app (prev : option bounds) (l1 l2 : list log_line) :
  widening prev (l1 ++ l2)
  <-> widening prev l1 /\ widening (last_bounds prev l1) l2.
Proof.
  revert prev. induction l1 as [|[b|b|b] l1 IH]; intros prev; cbn;
    try rewrite IH; tauto.
Qed.

Lemma last_bounds_app (prev : option bounds) (l1 l2 : list log_line) :
  last_bounds prev (l1 ++ l2) = last_bounds (last_bounds prev l1) l2.
Proof. apply fold_left_app. Qed.

Lemma layers_widening (layers : list (Q * Q)) (b : bounds) :
  widening (Some b) (snd (generate_and_save_saliency layers b)) /\
  last_bounds (Some b) (snd (generate_and_save_saliency layers b))
  = Some (fst (generate_and_save_saliency layers b)).
Proof.
  revert b. induction layers as [|[lo hi] layers IH]; intros b; cbn.
  - split; [exact I | reflexivity].
  - destruct (IH (update_bounds b lo hi)) as [Hw Hl].
    split; [split; [apply update_bounds_widens | exact Hw] | exact Hl].
Qed.

Lemma calls_widening (calls : list (list (Q * Q))) (b : bounds) :
  widening (Some b) (snd (saliency_calls calls b)) /\
  last_bounds (Some b) (snd (saliency_calls calls b))
  = Some (fst (saliency_calls calls b)).
Proof.
  revert b. induction calls as [|layers calls IH]; intros b;
    cbn [saliency_calls fst snd].
  - split; [exact I | reflexivity].
  - destruct (layers_widening layers b) as [Hw1 Hl1].
    destruct (IH (fst (generate_and_save_saliency layers b))) as [Hw2 Hl2].
    rewrite widening_app, last_bounds_app, Hl1. tauto.
Qed.

Lemma run_image_widening (plan : image_plan) (b : bounds)
    (prev : option bounds) :
  widening prev (snd (run_image plan b)).
Proof.
  destruct plan as [|calls logs_final]; cbn [run_image fst snd widening].
  - split; [reflexivity | exact I].
  - split; [reflexivity|].
    destruct (calls_widening calls reset_bounds) as [Hw Hl].
    rewrite widening_app, Hl. split; [exact Hw|].
    destruct logs_final; cbn; auto.
Qed.

(** C9. Within one image index the bounds start at minimum 0 and maximum
    -1000 and are only widened: every update leaves the minimum at most
    what it was and the maximum at least what it was; each image index
    starts again from the reset pair, whatever the bounds were before. *)
Theorem saliency_bounds_widen_and_reset :
  (minimum reset_bounds = 0%Q /\ maximum reset_bounds = (- (1000))%Q) /\
  (forall b region_min region_max,
     (minimum (update_bounds b region_min region_max) <= minimum b)%Q /\
     (maximum b <= maximum (update_bounds b region_min region_max))%Q) /\
  (forall plan b, exists rest,
     snd (run_image plan b) = StartingBounds reset_bounds :: rest) /\
  (forall plan b b', run_image plan b = run_image plan b') /\
  (forall plans b prev, widening prev (snd (run plans b))).
Proof.
  split; [split; reflexivity|].
  split; [intros; apply update_bounds_widens|].
  split; [intros [|calls logs_final] b; cbn; eexists; reflexivity|].
  split; [intros [|calls logs_final] b b'; reflexivity|].
  induction plans as [|plan plans IH]; intros b prev; cbn [run fst snd];
    [exact I|].
  rewrite widening_app. split; [apply run_image_widening | apply IH].
Qed.

(** Two images, the first with two layers on one pixel: the second image
    starts again from the reset pair. *)
Example run_two_images :
  snd (run [Processed [[(-(2), 3); (-(1), 7)]] true; Skipped]%Q reset_bounds)
  = [StartingBounds reset_bounds;
     Bounds {| minimum := -(2); maximum := 3 |};
     Bounds {| minimum := -(2); maximum := 7 |};
     FinalBounds {| minimum := -(2); maximum := 7 |};
     StartingBounds reset_bounds]%Q.
Proof. reflexivity. Qed.

End SaliencyBounds.

(** ** Overlap computer *)

Section OverlapFacts.

Lemma insert_unique_in (x z : Z) (l : list Z) :
  In z (insert_unique x l) <-> z = x \/ In z l.
Proof.
  induction l as [|y l IH]; cbn; [intuition|].
  destruct (Z.ltb_spec x y); cbn; [intuition|].
  destruct (Z.eqb_spec x y); cbn; [subst; intuition|].
  rewrite IH. intuition.
Qed.

Lemma np_unique_in (z : Z) (l : list Z) : In z (np_unique l) <-> In z l.
Proof.
  induction l as [|x l IH]; cbn; [tauto|].
  rewrite insert_unique_in, IH. intuition.
Qed.

Lemma insert_unique_sorted (x : Z) (l : list Z) :
  StronglySorted Z.lt l -> StronglySorted Z.lt (insert_unique x l).
Proof.
  induction 1 as [|y l Hs IH Hall]; cbn; [repeat constructor|].
  destruct (Z.ltb_spec x y).
  - constructor; [now constructor|]. constructor; [assumption|].
    eapply Forall_impl; [|exact Hall]. cbn. intros; lia.
  - destruct (Z.eqb_spec x y); [now constructor|].
    constructor; [exact IH|]. apply Forall_forall. intros z Hz.
    apply insert_unique_in in Hz. destruct Hz as [->|Hz]; [lia|].
    rewrite Forall_forall in Hall. now apply Hall.
Qed.

Lemma np_unique_sorted (l : list Z) : StronglySorted Z.lt (np_unique l).
Proof.
  induction l as [|x l IH]; cbn; [constructor|].
  now apply insert_unique_sorted.
Qed.

Lemma strictly_sorted_nodup (l : list Z) : StronglySorted Z.lt l -> NoDup l.
Proof.
  induction 1 as [|y l Hs IH Hall]; constructor; [|exact IH].
  intros Hin. rewrite Forall_forall in Hall. specialize (Hall y Hin). lia.
Qed.

Lemma np_unique_nodup (l : list Z) : NoDup (np_unique l).
Proof. apply strictly_sorted_nodup, np_unique_sorted. Qed.

Lemma combine_app_same (A B : Type) (a b : list A) (c d : list B) :
  length a = length c ->
  combine (a ++ b) (c ++ d) = combine a c ++ combine b d.
Proof.
  revert c. induction a as [|x a IH]; intros [|y c]; cbn; try discriminate;
    [reflexivity|].
  intros [= H]. now rewrite IH.
Qed.

Lemma same_shape_concat (A B : Type) (a : list (list A)) (b : list (list B)) :
  same_shape a b -> length (concat a) = length (concat b).
Proof.
  unfold same_shape. revert b.
  induction a as [|r a IH]; intros [|s b]; cbn; try discriminate;
    [reflexivity|].
  intros [= Hr Hab]. rewrite !length_app, Hr. f_equal. now apply IH.
Qed.

Lemma masked_row_values (f : Z -> bool) (lrow : list Z) (row : list Q) :
  length lrow = length row ->
  masked_row (map f lrow) row
  = Ok (map snd (filter (fun p => f (fst p)) (combine lrow row))).
Proof.
  revert row. induction lrow as [|x lrow IH]; intros [|q row]; cbn;
    try discriminate; [reflexivity|].
  intros [= H]. rewrite (IH row H). cbn. now destruct (f x).
Qed.

Lemma masked_select_values (f : Z -> bool) (label : list (list Z))
    (plane : list (list Q)) :
  same_shape label plane ->
  masked_select (map (map f) label) plane
  = Ok (map snd (filter (fun p => f (fst p))
                        (combine (concat label) (concat plane)))).
Proof.
  unfold same_shape. revert plane.
  induction label as [|lrow label IH]; intros [|row plane]; cbn;
    try discriminate; [reflexivity|].
  intros [= Hr Hs]. rewrite (masked_row_values f lrow row Hr). cbn.
  rewrite (IH plane Hs). cbn.
  now rewrite combine_app_same, filter_app, map_app.
Qed.

Lemma filter_combine_length (f : Z -> bool) (l : list Z) (p : list Q) :
  length l = length p ->
  length (filter (fun x => f (fst x)) (combine l p)) = length (filter f l).
Proof.
  revert p. induction l as [|x l IH]; intros [|q p]; cbn; try discriminate;
    [reflexivity|].
  intros [= H]. destruct (f x); cbn; now rewrite IH.
Qed.

Lemma filter_true_map_length (f : Z -> bool) (l : list Z) :
  length (filter (fun m : bool => m) (map f l)) = length (filter f l).
Proof.
  induction l as [|x l IH]; cbn; [reflexivity|].
  destruct (f x); cbn; now rewrite IH.
Qed.

Lemma mask_count_values (label : list (list Z)) (plane : list (list Q))
    (cls : Z) :
  same_shape label plane ->
  mask_count (map (map (fun x => x =? cls)) label)
  = Z.of_nat (length (class_values label plane cls)).
Proof.
  intros Hs. unfold mask_count, class_values. f_equal.
  rewrite <- concat_map, filter_true_map_length, length_map.
  symmetry. apply (filter_combine_length (fun x => x =? cls)).
  now apply same_shape_concat.
Qed.

(** When torch reads the selector as a mask, the selection is the mask
    selection, whatever the kind of the label map. *)
Lemma tensor_getitem_mask (label : label_map) (f : Z -> bool)
    (t : list (list Q)) :
  mask_read label ->
  tensor_getitem (label_kind label) (map (map f) (label_rows label)) t
  = masked_select (map (map f) (label_rows label)) t.
Proof.
  unfold mask_read, tensor_getitem, unpacked_as_indices.
  destruct (label_kind label); [|reflexivity].
  rewrite length_map. intros [H|[->|H]]; [discriminate | reflexivity|].
  destruct (Nat.ltb_spec (length (label_rows label)) 32); [lia|].
  now rewrite andb_false_r.
Qed.

(** One class of the loop, for a label map read as a mask: the values
    selected are the values at the pixels of the class. *)
Lemma class_selection (label : label_map) (plane : list (list Q)) (cls : Z) :
  mask_read label -> same_shape (label_rows label) plane ->
  tensor_getitem (label_kind label)
    (map (map (fun x => x =? cls)) (label_rows label)) plane
  = Ok (class_values (label_rows label) plane cls) /\
  mask_count (map (map (fun x => x =? cls)) (label_rows label))
  = Z.of_nat (length (class_values (label_rows label) plane cls)).
Proof.
  intros Hm Hs. split.
  - rewrite tensor_getitem_mask by exact Hm.
    apply (masked_select_values (fun x => x =? cls) _ plane Hs).
  - apply (mask_count_values _ plane cls Hs).
Qed.

Lemma overlap_loop_quotients (T : tensor_arith) (label : label_map)
    (plane : list (list Q)) (classes : list Z) :
  mask_read label -> same_shape (label_rows label) plane -> NoDup classes ->
  forall d : list (Z * Q),
  (forall c, In c classes -> ~ In c (map fst d)) ->
  overlap_loop T classes label plane d
  = Ok (d ++ map (fun c => (c, class_quotient T (label_rows label) plane c))
                 classes).
Proof.
  intros Hm Hs. induction 1 as [|cls classes Hcls Hnd IH]; intros d Hfresh;
    cbn [overlap_loop map].
  - now rewrite app_nil_r.
  - destruct (class_selection label plane cls Hm Hs) as [Hsel Hcount].
    cbv zeta. rewrite Hsel. cbn [bind]. rewrite Hcount.
    fold (class_quotient T (label_rows label) plane cls).
    rewrite (dict_set_fresh Z.eqb Z.eqb_spec) by (apply Hfresh; now left).
    rewrite IH.
    + now rewrite <- app_assoc.
    + intros c Hc. rewrite map_app, in_app_iff. cbn.
      intros [Hin|[->|[]]]; [|contradiction].
      apply (Hfresh c); [now right | exact Hin].
Qed.


Lemma dict_remove_incl (key : Z) (d : list (Z * Q)) (x : Z * Q) :
  In x (dict_remove Z.eqb key d) -> In x d.
Proof.
  induction d as [|[k w] d IH]; cbn; [tauto|].
  destruct (Z.eqb key k); cbn; intuition.
Qed.






End OverlapFacts.

(** ** Bounded random selection *)

Section RandomPixels.

Lemma pixel_eqb_spec (a b : Z * Z) : reflect (a = b) (pixel_eqb a b).
Proof.
  destruct a as [a1 a2], b as [b1 b2]. unfold pixel_eqb. cbn.
  destruct (Z.eqb_spec a1 b1), (Z.eqb_spec a2 b2); cbn; constructor;
    congruence.
Qed.

Lemma bin_lookup_in (bin : Z * Z) (d : list (Z * Z * list (Z * Z)))
    (p : Z * Z) :
  NoDup (map fst d) -> In p (bin_lookup pixel_eqb bin d) ->
  In (bin, bin_lookup pixel_eqb bin d) d.
Proof.
  unfold bin_lookup. intros Hnd.
  destruct (dict_get pixel_eqb bin d) as [l|] eqn:E; [|intros []].
  intros _. now apply (dict_get_in pixel_eqb pixel_eqb_spec).
Qed.

Lemma bins_filed_step (bin_size : Z) (seen : list (Z * Z))
    (d : list (Z * Z * list (Z * Z))) (p : Z * Z) :
  bins_filed bin_size seen d ->
  bins_filed bin_size (seen ++ [p])
    (dict_set pixel_eqb (bin_of bin_size p)
       (bin_lookup pixel_eqb (bin_of bin_size p) d ++ [p]) d).
Proof.
  intros Hinv. destruct Hinv as (Hnd & Hent & Hcov). split; [|split].
  - now apply (dict_set_nodup pixel_eqb pixel_eqb_spec).
  - intros bin l Hin.
    apply (dict_set_entries pixel_eqb pixel_eqb_spec) in Hin.
    destruct Hin as [[-> ->]|Hin].
    + split; [now destruct (bin_lookup pixel_eqb (bin_of bin_size p) d)|].
      intros q Hq. apply in_app_iff in Hq. destruct Hq as [Hq|[<-|[]]].
      * pose proof (bin_lookup_in _ d q Hnd Hq) as Hentry.
        destruct (Hent _ _ Hentry) as [_ Hall].
        destruct (Hall q Hq) as [Hs Hb].
        split; [apply in_app_iff; now left | exact Hb].
      * split; [apply in_app_iff; right; now left | reflexivity].
    + destruct (Hent _ _ Hin) as [Hne Hall]. split; [exact Hne|].
      intros q Hq. destruct (Hall q Hq) as [Hs Hb].
      split; [apply in_app_iff; now left | exact Hb].
  - intros q Hq. apply (dict_set_keys_in pixel_eqb pixel_eqb_spec).
    apply in_app_iff in Hq. destruct Hq as [Hq|[<-|[]]];
      [right; now apply Hcov | now left].
Qed.

Lemma fill_bins_filed (bin_size : Z) (pixels : list (Z * Z)) :
  bin_size <> 0 ->
  forall seen made d, bins_filed bin_size seen d ->
  exists d',
    fill_bins pixel_eqb int_key ZeroDivisionError pixels bin_size made d
    = Ok d' /\
    bins_filed bin_size (seen ++ pixels) d'.
Proof.
  intros Hb. induction pixels as [|[i j] pixels IH]; intros seen made d Hinv;
    cbn [fill_bins].
  - exists d. rewrite app_nil_r. now split.
  - destruct (Z.eqb_spec bin_size 0) as [E|_]; [contradiction|].
    destruct (IH _ (S made) _ (bins_filed_step bin_size seen d (i, j) Hinv))
      as (d' & Hrun & Hinv').
    exists d'. split; [exact Hrun|]. now rewrite <- app_assoc in Hinv'.
Qed.

Lemma bins_filed_nil (bin_size : Z) : bins_filed bin_size [] [].
Proof.
  split; [constructor|]. split; [intros ? ? []| intros ? []].
Qed.

Lemma bins_filed_count (bin_size : Z) (pixels : list (Z * Z))
    (d : list (Z * Z * list (Z * Z))) :
  bins_filed bin_size pixels d -> length d = distinct_bins bin_size pixels.
Proof.
  intros Hinv. destruct Hinv as (Hnd & Hent & Hcov). unfold distinct_bins.
  rewrite <- (length_map fst d). apply Permutation_length.
  apply NoDup_Permutation; [exact Hnd | apply NoDup_nodup|].
  intros bin. rewrite nodup_In. split.
  - intros Hin. apply in_map_iff in Hin. destruct Hin as ([b l] & <- & Hin).
    destruct (Hent _ _ Hin) as [Hne Hall].
    destruct l as [|p l]; [congruence|].
    destruct (Hall p (or_introl eq_refl)) as [Hs Hb].
    apply in_map_iff. now exists p.
  - intros Hin. apply in_map_iff in Hin. destruct Hin as (p & <- & Hin).
    now apply Hcov.
Qed.

Lemma first_positions_draws : draws_without_replacement first_positions.
Proof.
  split; cbn; intros _ n k Hk.
  - apply length_seq.
  - apply Forall_forall. intros i Hi. apply in_seq in Hi. lia.
  - apply seq_NoDup.
Qed.

Lemma remove_nth_split (i : nat) (pool : list nat) :
  (i < length pool)%nat ->
  Permutation pool (nth i pool O :: remove_nth i pool).
Proof.
  intros Hi. unfold remove_nth.
  rewrite <- (firstn_skipn i pool) at 1.
  assert (skipn i pool = nth i pool O :: skipn (S i) pool) as ->.
  { revert i Hi. induction pool as [|x pool IH]; intros [|i] Hi; cbn in *;
      try lia; [reflexivity|]. apply IH. lia. }
  symmetry. apply Permutation_middle.
Qed.

Lemma draw_from_ok (k : nat) :
  forall (pool : list nat) (s : Z),
  NoDup pool -> (k <= length pool)%nat ->
  length (fst (draw_from pool k s)) = k /\
  incl (fst (draw_from pool k s)) pool /\
  NoDup (fst (draw_from pool k s)).
Proof.
  induction k as [|k IH]; intros pool s Hnd Hk; cbn [draw_from fst].
  - split; [reflexivity|]. split; [intros ? [] | constructor].
  - set (s' := lcg_next s).
    set (i := Z.to_nat (s' mod Z.of_nat (length pool))).
    assert (i < length pool)%nat as Hi.
    { unfold i. pose proof (Z.mod_pos_bound s' (Z.of_nat (length pool))). lia. }
    pose proof (remove_nth_split i pool Hi) as Hp.
    assert (NoDup (nth i pool O :: remove_nth i pool)) as Hnd'
        by now apply Permutation_NoDup with pool.
    inversion Hnd' as [|? ? Hx Hrest]; subst.
    assert (k <= length (remove_nth i pool))%nat as Hk'.
    { apply Permutation_length in Hp. cbn in Hp. lia. }
    destruct (IH (remove_nth i pool) s' Hrest Hk') as (Hlen & Hincl & Hnd'').
    split; [cbn; now rewrite Hlen|]. split.
    + intros y [<-|Hy].
      * apply Permutation_in with (nth i pool O :: remove_nth i pool);
          [now symmetry | now left].
      * apply Permutation_in with (nth i pool O :: remove_nth i pool);
          [now symmetry | right; now apply Hincl].
    + constructor; [|exact Hnd'']. intros Hin. apply Hx. now apply Hincl.
Qed.

Lemma lcg_draws : draws_without_replacement lcg.
Proof.
  split; cbn; intros g n k Hk;
    destruct (draw_from_ok k (seq 0 n) g (seq_NoDup n 0))
      as (Hlen & Hincl & Hnd); rewrite ?length_seq; try assumption.
  apply Forall_forall. intros i Hi. apply Hincl in Hi. apply in_seq in Hi. lia.
Qed.

Section Sampling.

Variable R : random_module.
Hypothesis R_draws : draws_without_replacement R.

Lemma for_each_index (A : Type) (population : list A) (idx : list nat) :
  Forall (fun i => (i < length population)%nat) idx ->
  exists picked,
    for_each (py_index population) idx = Ok picked /\
    Forall2 (fun i x => nth_error population i = Some x) idx picked.
Proof.
  induction 1 as [|i idx Hi Hall IH]; cbn.
  - exists []. split; [reflexivity | constructor].
  - destruct IH as (picked & -> & Hp). unfold py_index at 1.
    destruct (nth_error population i) as [x|] eqn:E;
      [|apply nth_error_None in E; lia].
    cbn. exists (x :: picked). split; [reflexivity | now constructor].
Qed.

Lemma picked_nodup (A : Type) (population : list A) (idx : list nat)
    (picked : list A) :
  NoDup population -> NoDup idx ->
  Forall2 (fun i x => nth_error population i = Some x) idx picked ->
  NoDup picked.
Proof.
  intros Hpop Hidx H. induction H as [|i x idx picked Hix H IH];
    [constructor|].
  inversion Hidx as [|? ? Hi Hidx']; subst. constructor; [|now apply IH].
  intros Hin. apply Hi. clear IH Hidx Hidx' Hi.
  induction H as [|j y idx picked Hjy H IH]; [destruct Hin|].
  destruct Hin as [->|Hin]; [left | right; now apply IH].
  rewrite NoDup_nth_error in Hpop. symmetry. apply Hpop; [|congruence].
  apply nth_error_Some. congruence.
Qed.

Lemma random_sample_ok (A : Type) (population : list A) (k : Z)
    (g : rng_state R) :
  0 <= k <= Z.of_nat (length population) ->
  exists picked g',
    random_sample R population k g = Ok (picked, g') /\
    length picked = Z.to_nat k /\
    incl picked population /\
    (NoDup population -> NoDup picked).
Proof.
  intros Hk. unfold random_sample.
  destruct (Z.ltb_spec k 0); [lia|].
  destruct (Z.ltb_spec (Z.of_nat (length population)) k); [lia|]. cbn [orb].
  assert (Z.to_nat k <= length population)%nat as Hle by lia.
  pose proof (choose_length R R_draws g _ _ Hle) as Hlen.
  pose proof (choose_bound R R_draws g _ _ Hle) as Hbound.
  pose proof (choose_nodup R R_draws g _ _ Hle) as Hnd.
  destruct (for_each_index A population _ Hbound) as (picked & -> & Hp).
  cbn [bind]. exists picked, (snd (rng_choose R g (length population) (Z.to_nat k))).
  split; [reflexivity|]. split; [|split].
  - rewrite <- (Forall2_length Hp). exact Hlen.
  - clear Hlen Hbound Hnd. induction Hp as [|i x idx picked Hix Hp IH];
      intros y Hy; [destruct Hy|].
    destruct Hy as [<-|Hy]; [now apply nth_error_In with i | now apply IH].
  - intros Hpop. now apply picked_nodup with population
      (fst (rng_choose R g (length population) (Z.to_nat k))).
Qed.

Lemma pick_pixels_ok (pixels_per_bins : list (list (Z * Z))) :
  Forall (fun l => l <> []) pixels_per_bins ->
  forall g, exists out g',
    pick_pixels R pixels_per_bins g = Ok (out, g') /\
    Forall2 (fun l p => In p l) pixels_per_bins out.
Proof.
  induction 1 as [|l rest Hl Hall IH]; intros g; cbn [pick_pixels].
  - exists [], g. split; [reflexivity | constructor].
  - destruct (random_sample_ok nat (seq 0 (length l)) 1 g)
      as (picked & g1 & -> & Hlen & Hincl & _).
    { rewrite length_seq. destruct l; [congruence | cbn; lia]. }
    cbn [bind fst snd].
    destruct picked as [|index [|? ?]]; try discriminate. cbn [py_index nth_error bind].
    assert (index < length l)%nat as Hindex.
    { assert (In index (seq 0 (length l))) as Hin by (apply Hincl; now left).
      apply in_seq in Hin. lia. }
    unfold py_index.
    destruct (nth_error l index) as [pixel|] eqn:E;
      [|apply nth_error_None in E; lia].
    cbn [bind]. destruct (IH g1) as (out & g' & -> & Hout). cbn [bind fst snd].
    exists (pixel :: out), g'. split; [reflexivity|].
    constructor; [now apply nth_error_In with index | exact Hout].
Qed.

(** What the drawn pixels inherit from the entries they are drawn from. *)
Lemma drawn_from_entries (bin_size : Z) (pixels : list (Z * Z))
    (d es : list (Z * Z * list (Z * Z))) (out : list (Z * Z)) :
  bins_filed bin_size pixels d ->
  Forall (fun e => In e d) es ->
  Forall2 (fun l p => In p l) (map snd es) out ->
  Forall (fun p => In p pixels) out /\
  map (bin_of bin_size) out = map fst es.
Proof.
  intros Hinv. destruct Hinv as (_ & Hent & _). intros Hes. revert out.
  induction Hes as [|[bin l] es He Hes IH]; intros out H; inversion H; subst.
  - split; [constructor | reflexivity].
  - destruct (IH _ H4) as [Hp Hb]. destruct (Hent _ _ He) as [_ Hall].
    destruct (Hall _ H2) as [Hs Hbin]. cbn in *.
    split; [now constructor | now rewrite Hb, Hbin].
Qed.

End Sampling.

Lemma filed_entries_nonempty (bin_size : Z) (pixels : list (Z * Z))
    (d es : list (Z * Z * list (Z * Z))) :
  bins_filed bin_size pixels d -> Forall (fun e => In e d) es ->
  Forall (fun l => l <> []) (map snd es).
Proof.
  intros Hinv. destruct Hinv as (_ & Hent & _).
  induction 1 as [|[bin l] es He Hes IH]; cbn; constructor; [|exact IH].
  now destruct (Hent _ _ He).
Qed.

Lemma filed_lookup_entry (bin_size : Z) (pixels : list (Z * Z))
    (d : list (Z * Z * list (Z * Z))) (bin : Z * Z) :
  bins_filed bin_size pixels d -> In bin (map fst d) ->
  In (bin, bin_lookup pixel_eqb bin d) d.
Proof.
  intros Hinv. destruct Hinv as (Hnd & _ & _). intros Hin. unfold bin_lookup.
  destruct (dict_get pixel_eqb bin d) as [l|] eqn:E.
  - now apply (dict_get_in pixel_eqb pixel_eqb_spec).
  - apply (dict_get_none pixel_eqb pixel_eqb_spec) in E. contradiction.
Qed.

(** The run of [get_random_pixels] on pairs of integers from the filed
    bins on: with all bins taken, or with some of them sampled where
    [sample] takes a view of the keys. *)
Lemma get_random_pixels_run (R : random_module)
    (R_draws : draws_without_replacement R)
    (n : Z) (pixels : list (Z * Z)) (bin_size seed : Z) :
  bin_size <> 0 ->
  Z.of_nat (distinct_bins bin_size pixels) <= n \/
  (0 <= n /\ rng_samples_views R = true) ->
  exists out g',
    (forall g,
       get_random_pixels R n (IntPairs pixels) bin_size seed g
       = Ok (out, g')) /\
    Z.of_nat (length out)
    = Z.min n (Z.of_nat (distinct_bins bin_size pixels)) /\
    Forall (fun p => In p pixels) out /\
    NoDup (map (bin_of bin_size) out).
Proof.
  intros Hb Hn. unfold get_random_pixels, sample_bins.
  destruct (fill_bins_filed bin_size pixels Hb [] 0%nat []
              (bins_filed_nil bin_size))
    as (d & -> & Hinv).
  cbn [app] in Hinv. cbn [bind].
  pose proof (bins_filed_count bin_size pixels d Hinv) as Hcount.
  assert (NoDup (map fst d)) as Hkeys by now destruct Hinv.
  destruct (Z.leb_spec (Z.of_nat (length d)) n) as [Hall|Hfew]; cbn [bind fst snd].
  - assert (Forall (fun e => In e d) d) as Hes
        by now apply Forall_forall.
    destruct (pick_pixels_ok R R_draws (map snd d)
                (filed_entries_nonempty bin_size pixels d d Hinv Hes)
                (rng_seed R seed)) as (out & g' & Hrun & Hout).
    destruct (drawn_from_entries bin_size pixels d d out Hinv Hes Hout)
      as [Hp Hbins].
    exists out, g'. split; [intros _; exact Hrun|]. split; [|split].
    + apply Forall2_length in Hout. rewrite length_map in Hout. lia.
    + exact Hp.
    + now rewrite Hbins.
  - destruct Hn as [Hn|[Hn Hviews]]; [lia|].
    unfold random_sample_keys. rewrite Hviews.
    destruct (random_sample_ok R R_draws (Z * Z) (map fst d) n (rng_seed R seed))
      as (bins & g1 & -> & Hlen & Hincl & Hnd);
      [rewrite length_map; lia|].
    cbn [bind fst snd].
    set (es := map (fun bin => (bin, bin_lookup pixel_eqb bin d)) bins).
    assert (map (fun bin => bin_lookup pixel_eqb bin d) bins = map snd es)
      as -> by (unfold es; now rewrite map_map).
    assert (map fst es = bins) as Hfst
        by (unfold es; rewrite map_map; apply map_id).
    assert (Forall (fun e => In e d) es) as Hes.
    { apply Forall_forall. intros e He. unfold es in He.
      apply in_map_iff in He. destruct He as (bin & <- & Hbin).
      apply (filed_lookup_entry bin_size pixels d bin Hinv). now apply Hincl. }
    destruct (pick_pixels_ok R R_draws (map snd es)
                (filed_entries_nonempty bin_size pixels d es Hinv Hes) g1)
      as (out & g' & Hrun & Hout).
    destruct (drawn_from_entries bin_size pixels d es out Hinv Hes Hout)
      as [Hp Hbins].
    exists out, g'. split; [intros _; exact Hrun|]. split; [|split].
    + apply Forall2_length in Hout. rewrite length_map in Hout.
      unfold es in Hout. rewrite length_map in Hout. lia.
    + exact Hp.
    + rewrite Hbins, Hfst. now apply Hnd.
Qed.

(** With fewer bins asked for than there are, the keys are sampled: a
    [sample] that refuses views raises, and one that takes them refuses a
    negative number. *)
Lemma get_random_pixels_sampled (R : random_module) (n : Z)
    (pixels : list (Z * Z)) (bin_size seed : Z) (g : rng_state R) :
  bin_size <> 0 -> n < Z.of_nat (distinct_bins bin_size pixels) ->
  get_random_pixels R n (IntPairs pixels) bin_size seed g
  = if rng_samples_views R
    then (if n <? 0 then Raise ValueError
          else get_random_pixels R n (IntPairs pixels) bin_size seed g)
    else Raise TypeError.
Proof.
  intros Hb Hn. unfold get_random_pixels, sample_bins.
  destruct (fill_bins_filed bin_size pixels Hb [] 0%nat []
              (bins_filed_nil bin_size))
    as (d & -> & Hinv).
  cbn [app] in Hinv. cbn [bind].
  rewrite <- (bins_filed_count bin_size pixels d Hinv) in Hn.
  destruct (Z.leb_spec (Z.of_nat (length d)) n); [lia|].
  unfold random_sample_keys.
  destruct (rng_samples_views R); [|reflexivity].
  destruct (Z.ltb_spec n 0) as [Hneg|]; [|reflexivity].
  unfold random_sample. destruct (Z.ltb_spec n 0); [reflexivity | lia].
Qed.

(** Rows of a tensor are filed each under a key of its own. *)
Lemma fill_bins_tensor (pixels : list (Z * Z)) (bin_size : Z) :
  bin_size <> 0 ->
  forall (made : nat) (d : list (nat * list (Z * Z))),
  (forall k, In k (map fst d) -> (k < made)%nat) ->
  fill_bins Nat.eqb tensor_key RuntimeError pixels bin_size made d
  = Ok (d ++ combine (seq made (length pixels))
                     (map (fun p => [p]) pixels)).
Proof.
  intros Hb. induction pixels as [|[i j] pixels IH]; intros made d Hd;
    cbn [fill_bins length seq map combine].
  - now rewrite app_nil_r.
  - destruct (Z.eqb_spec bin_size 0) as [E|_]; [contradiction|].
    assert (~ In made (map fst d)) as Hfresh
      by (intros Hin; apply Hd in Hin; lia).
    cbv zeta. change (tensor_key made (i, j) bin_size) with made.
    unfold bin_lookup.
    rewrite (proj2 (dict_get_none Nat.eqb Nat.eqb_spec made d) Hfresh).
    rewrite (dict_set_fresh Nat.eqb Nat.eqb_spec) by exact Hfresh.
    cbn [app]. rewrite IH.
    + now rewrite <- app_assoc.
    + intros k Hk. rewrite map_app, in_app_iff in Hk. cbn in Hk.
      destruct Hk as [Hk|[<-|[]]]; [apply Hd in Hk; lia | lia].
Qed.

(** From lists of one pixel each, the one pixel is what is drawn. *)
Lemma pick_singletons (R : random_module)
    (R_draws : draws_without_replacement R) (pixels : list (Z * Z)) :
  forall g, exists g',
    pick_pixels R (map (fun p => [p]) pixels) g = Ok (pixels, g').
Proof.
  induction pixels as [|p pixels IH]; intros g; cbn [map pick_pixels].
  - now exists g.
  - destruct (random_sample_ok R R_draws nat (seq 0 (length [p])) 1 g)
      as (picked & g1 & -> & Hlen & Hincl & _); [cbn; lia|].
    cbn [bind fst snd].
    destruct picked as [|index [|? ?]]; try discriminate.
    assert (index = 0%nat) as ->.
    { assert (In index (seq 0 (length [p]))) as Hin by (apply Hincl; now left).
      cbn in Hin. intuition. }
    cbn [py_index nth_error bind]. destruct (IH g1) as [g' ->].
    cbn [bind fst snd]. now exists g'.
Qed.

Lemma combine_seq_snd (A : Type) (l : list A) (from : nat) :
  map snd (combine (seq from (length l)) l) = l.
Proof.
  revert from. induction l as [|x l IH]; intros from; cbn; [reflexivity|].
  now rewrite IH.
Qed.

(** C2. With the rows of a tensor for candidates, which is what [run]
    passes, every candidate is filed under a key of its own, whatever its
    spatial bin: as soon as [n] is at least the number of candidates, all
    of them are returned, in their order.  Four candidates of one spatial
    bin give four pixels, where the number of distinct spatial bins is
    one. *)
Theorem get_random_pixels_tensor_rows (R : random_module)
    (n : Z) (pixels : list (Z * Z)) (bin_size seed : Z) (g : rng_state R) :
  draws_without_replacement R ->
  bin_size <> 0 -> Z.of_nat (length pixels) <= n ->
  exists g',
    get_random_pixels R n (TensorRows pixels) bin_size seed g
    = Ok (pixels, g').
Proof.
  intros HR Hb Hn. unfold get_random_pixels, sample_bins.
  rewrite (fill_bins_tensor pixels bin_size Hb 0%nat []) by (intros k []).
  cbn [app bind].
  assert (length (combine (seq 0 (length pixels))
                          (map (fun p : Z * Z => [p]) pixels))
          = length pixels) as Hlen
    by (rewrite length_combine, length_seq, length_map; lia).
  rewrite Hlen. destruct (Z.leb_spec (Z.of_nat (length pixels)) n); [|lia].
  cbn [bind fst snd].
  assert (map snd (combine (seq 0 (length pixels))
                           (map (fun p : Z * Z => [p]) pixels))
          = map (fun p => [p]) pixels) as ->.
  { rewrite <- (length_map (fun p : Z * Z => [p]) pixels).
    apply combine_seq_snd. }
  apply (pick_singletons R HR).
Qed.

Lemma get_random_pixels_tensor_rows_witness :
  distinct_bins 300 [(0, 0); (0, 1); (1, 0); (1, 1)] = 1%nat /\
  exists g',
    get_random_pixels lcg 10 (TensorRows [(0, 0); (0, 1); (1, 0); (1, 1)])
                      300 0 (lcg_next 1)
    = Ok ([(0, 0); (0, 1); (1, 0); (1, 1)], g').
Proof.
  split; [reflexivity|].
  apply (get_random_pixels_tensor_rows lcg 10
           [(0, 0); (0, 1); (1, 0); (1, 1)] 300 0 (lcg_next 1));
    [exact lcg_draws | lia | cbn; lia].
Defined.

(** With the stateful generator the seed decides the pixels, the state
    left by earlier draws does not. *)
Example get_random_pixels_seeded :
  get_random_pixels lcg 2
    (IntPairs [(0, 0); (1, 1); (300, 0); (0, 700); (5, 5); (301, 5)]) 300 0 77
  = Ok ([(5, 5); (300, 0)], 1449466924) /\
  get_random_pixels lcg 2
    (IntPairs [(0, 0); (1, 1); (300, 0); (0, 700); (5, 5); (301, 5)])
    300 0 2024
  = Ok ([(5, 5); (300, 0)], 1449466924) /\
  get_random_pixels lcg 2
    (IntPairs [(0, 0); (1, 1); (300, 0); (0, 700); (5, 5); (301, 5)]) 300 1 77
  = Ok ([(1, 1); (0, 700)], 1147902781).
Proof. repeat split. Qed.

(** The same candidates as rows of a tensor: with [n] below their number
    two of the six keys are drawn where [sample] takes views; where it
    does not, nothing is returned, for rows and for pairs alike. *)
Example get_random_pixels_rows_sampled :
  get_random_pixels lcg 2
    (TensorRows [(0, 0); (1, 1); (300, 0); (0, 700); (5, 5); (301, 5)])
    300 0 77
  = Ok ([(0, 700); (1, 1)], 1449466924) /\
  get_random_pixels lcg_strict 2
    (TensorRows [(0, 0); (1, 1); (300, 0); (0, 700); (5, 5); (301, 5)])
    300 0 77
  = Raise TypeError /\
  get_random_pixels lcg_strict 2
    (IntPairs [(0, 0); (1, 1); (300, 0); (0, 700); (5, 5); (301, 5)])
    300 0 77
  = Raise TypeError.
Proof. repeat split. Qed.

End RandomPixels.

(** ** Coordinate mapping *)

Section OutputCoord.

Lemma compute_output_coord_axes (i j hi wi ho wo a b : Z) :
  scale_coord i hi ho = Ok a -> scale_coord j wi wo = Ok b ->
  compute_output_coord i j (hi, wi) (ho, wo) = Ok (a, b).
Proof.
  unfold scale_coord, compute_output_coord. cbn [fst snd].
  destruct (int_true_div ho hi) as [ri|e]; cbn [bind]; [|discriminate].
  destruct (int_mul_float i ri) as [si|e]; cbn [bind]; [|discriminate].
  intros ->.
  destruct (int_true_div wo wi) as [rj|e]; cbn [bind]; [|discriminate].
  destruct (int_mul_float j rj) as [sj|e]; cbn [bind]; [|discriminate].
  now intros ->.
Qed.

(** The number of binary digits of a mantissa. *)
Lemma digits2_size (p : positive) : digits2_pos p = Pos.size p.
Proof. induction p; cbn; congruence. Qed.

Lemma digits2_log2 (p : positive) : Zpos (digits2_pos p) = Z.log2 (Zpos p) + 1.
Proof.
  rewrite digits2_size. destruct p; cbn; try reflexivity.
  - rewrite Pos2Z.inj_succ. lia.
  - rewrite Pos2Z.inj_succ. lia.
Qed.

(** Away from the subnormal range a float keeps 53 digits. *)
Lemma fexp_above (e : Z) : -1021 <= e -> fexp prec emax e = e - 53.
Proof. intros H. unfold fexp, emin, prec, emax. lia. Qed.

Lemma div_eucl_exact (b c : Z) : 0 < b -> Z.div_eucl (b * c) b = (c, 0).
Proof.
  intros Hb. pose proof (Z.div_mul c b ltac:(lia)) as Hq.
  pose proof (Z.mod_mul c b ltac:(lia)) as Hr.
  unfold Z.div, Z.modulo in Hq, Hr. rewrite (Z.mul_comm b c).
  destruct (Z.div_eucl (c * b) b). now subst.
Qed.

(** The division of a size by itself times a power of two is exact. *)
Lemma div_core_pow2 (m q : positive) (k : Z) :
  0 <= k <= 1000 -> Zpos q = Zpos m * 2 ^ k ->
  SFdiv_core_binary prec emax (Zpos m) 0 (Zpos q) 0
  = (2 ^ 53, - k - 53, loc_Exact).
Proof.
  intros Hk Hq. unfold SFdiv_core_binary.
  cbn [Zdigits2]. rewrite !digits2_log2, Hq.
  rewrite Z.log2_mul_pow2 by lia.
  rewrite fexp_above by lia.
  replace (Z.min _ (0 - 0)) with (- k - 53) by lia.
  replace (0 - 0 - (- k - 53)) with (k + 53) by lia.
  destruct (k + 53) as [|s|s] eqn:Es; try lia.
  rewrite Z.shiftl_mul_pow2 by lia. rewrite <- Es.
  replace (Zpos m * 2 ^ (k + 53)) with ((Zpos m * 2 ^ k) * 2 ^ 53)
    by (rewrite Z.pow_add_r by lia; ring).
  rewrite div_eucl_exact by lia.
  unfold new_location, new_location_even, new_location_odd.
  now destruct (Z.even _).
Qed.

Lemma round_one (k : Z) :
  0 <= k <= 1000 ->
  binary_round_aux prec emax false (2 ^ 53) (- k - 53) loc_Exact
  = S754_finite false 4503599627370496 (- k - 52).
Proof.
  intros Hk. unfold binary_round_aux, shr_fexp.
  change (Zdigits2 (2 ^ 53)) with 54.
  rewrite fexp_above by lia.
  replace (54 + (- k - 53) - 53 - (- k - 53)) with 1 by lia.
  cbn [shr_record_of_loc shr iter_pos shr_1 Z.pow Z.pow_pos Pos.iter Z.mul Pos.mul
       loc_of_shr_record round_nearest_even shr_m shr_r shr_s orb].
  change (Zdigits2 4503599627370496) with 53.
  rewrite fexp_above by lia.
  replace (53 + (- k - 53 + 1) - 53 - (- k - 53 + 1)) with 0 by lia.
  cbn [shr shr_m].
  replace (- k - 53 + 1) with (- k - 52) by lia.
  destruct (Z.leb_spec (- k - 52) (emax - prec)); [reflexivity|].
  unfold emax, prec in *. lia.
Qed.

Lemma true_div_pow2 (m : positive) (k : Z) :
  0 <= k <= 1000 ->
  int_true_div (Zpos m) (Zpos m * 2 ^ k)
  = Ok (S754_finite false 4503599627370496 (- k - 52)).
Proof.
  intros Hk. unfold int_true_div.
  assert (0 < Zpos m * 2 ^ k) as Hpos by (apply Z.mul_pos_pos; lia).
  destruct (Zpos m * 2 ^ k) as [|q|q] eqn:Eq; try lia.
  cbn [Z.eqb int_operand SFdiv xorb].
  rewrite (div_core_pow2 m q k Hk) by (symmetry; exact Eq).
  now rewrite round_one.
Qed.

Lemma iter_xO_pow2 (p s : positive) :
  Zpos (Pos.iter xO p s) = Zpos p * 2 ^ Zpos s.
Proof.
  induction s as [|s IH] using Pos.peano_ind.
  - cbn. lia.
  - rewrite Pos.iter_succ, Pos2Z.inj_xO, IH, Pos2Z.inj_succ, Z.pow_succ_r by lia.
    ring.
Qed.

(** A mantissa of 53 digits is not rounded. *)
Lemma round_canonical (mz : positive) (e : Z) :
  digits2_pos mz = 53%positive -> -1074 <= e <= 971 ->
  binary_round_aux prec emax false (Zpos mz) e loc_Exact
  = S754_finite false mz e.
Proof.
  intros Hd He. unfold binary_round_aux, shr_fexp. cbn [Zdigits2].
  rewrite Hd, fexp_above by lia.
  replace (53 + e - 53 - e) with 0 by lia.
  cbn [shr_record_of_loc shr loc_of_shr_record round_nearest_even shr_m
       shr_r shr_s Zdigits2].
  rewrite Hd, fexp_above by lia.
  replace (53 + e - 53 - e) with 0 by lia.
  cbn [shr shr_m].
  destruct (Z.leb_spec e (emax - prec)); [reflexivity|].
  unfold emax, prec in *. lia.
Qed.

(** An integer below [2^53] converts to a float exactly. *)
Lemma float_of_int_pos (p : positive) :
  Zpos p < 2 ^ 53 ->
  exists mz ez,
    float_of_int (Zpos p) = Ok (S754_finite false mz ez) /\
    digits2_pos mz = 53%positive /\ -52 <= ez <= 0 /\
    Zpos mz = Zpos p * 2 ^ (- ez).
Proof.
  intros Hp. unfold float_of_int, binary_normalize, binary_round.
  pose proof (digits2_log2 p) as Hd.
  assert (0 <= Z.log2 (Zpos p) < 53) as Hlog.
  { split; [apply Z.log2_nonneg|]. apply Z.log2_lt_pow2; lia. }
  rewrite fexp_above by lia. unfold shl_align.
  destruct (Zpos (digits2_pos p) + 0 - 53 - 0) as [|s|s] eqn:Es; try lia.
  - assert (digits2_pos p = 53%positive) as Hd53 by lia.
    rewrite round_canonical by (try assumption; lia).
    exists p, 0. repeat split; try lia; assumption.
  - assert (digits2_pos (Pos.iter xO p s) = 53%positive) as Hd53.
    { apply Pos2Z.inj. rewrite digits2_log2, iter_xO_pow2.
      rewrite Z.log2_mul_pow2 by lia. lia. }
    rewrite round_canonical by (try assumption; lia).
    exists (Pos.iter xO p s), (Zpos (digits2_pos p) + 0 - 53).
    repeat split; try lia.
    rewrite iter_xO_pow2. f_equal. f_equal. lia.
Qed.

(** Multiplying by a power of two only moves the exponent. *)
Lemma mul_pow2 (mz : positive) (ez k : Z) :
  digits2_pos mz = 53%positive -> -52 <= ez <= 0 -> 0 <= k <= 1000 ->
  SFmul prec emax (S754_finite false mz ez)
        (S754_finite false 4503599627370496 (- k - 52))
  = S754_finite false mz (ez - k).
Proof.
  intros Hd He Hk. cbn [SFmul xorb]. rewrite Pos.mul_comm. cbn [Pos.mul].
  unfold binary_round_aux, shr_fexp. cbn [Zdigits2 digits2_pos]. rewrite Hd.
  cbn [Pos.succ]. rewrite fexp_above by lia.
  match goal with
  | |- context [shr _ ?e ?n] =>
      replace n with 52 by lia
  end.
  cbn [shr_record_of_loc shr iter_pos shr_1 loc_of_shr_record
       round_nearest_even shr_m shr_r shr_s orb Zdigits2].
  rewrite Hd, fexp_above by lia.
  match goal with
  | |- context [shr _ ?e ?n] =>
      replace n with 0 by lia
  end.
  cbn [shr shr_m].
  replace (ez + (- k - 52) + 52) with (ez - k) by lia.
  destruct (Z.leb_spec (ez - k) (emax - prec)); [reflexivity|].
  unfold emax, prec in *. lia.
Qed.

(** One axis, when the input size is the output size times [2^k]. *)
Lemma scale_pow2 (m : positive) (k pixel : Z) :
  0 <= k <= 1000 -> 0 <= pixel < 2 ^ 53 ->
  scale_coord pixel (Zpos m * 2 ^ k) (Zpos m) = Ok (pixel / 2 ^ k).
Proof.
  intros Hk Hp. unfold scale_coord. rewrite true_div_pow2 by exact Hk.
  cbn [bind]. unfold int_mul_float.
  destruct pixel as [|p|p]; try lia.
  - reflexivity.
  - destruct (float_of_int_pos p) as (mz & ez & -> & Hd & He & Hm); [lia|].
    cbn [bind]. rewrite mul_pow2 by assumption. cbn [floor_to_int].
    f_equal. rewrite Z.shiftl_div_pow2 by lia. rewrite Hm.
    replace (- (ez - k)) with (k + - ez) by lia.
    rewrite Z.pow_add_r by lia.
    apply Z.div_mul_cancel_r; lia.
Qed.

Lemma scale_pow2_exact_floor (size_out k pixel : Z) :
  0 < size_out -> 0 <= k <= 1000 -> 0 <= pixel < 2 ^ 53 ->
  scale_coord pixel (size_out * 2 ^ k) size_out
  = Ok (pixel * size_out / (size_out * 2 ^ k)).
Proof.
  intros Hs Hk Hp. destruct size_out as [|m|m]; try lia.
  rewrite scale_pow2 by assumption. f_equal.
  rewrite (Z.mul_comm pixel). symmetry. apply Z.div_mul_cancel_l; lia.
Qed.

(** C6, as stated, fails: the ratio 2/98 and its product with 49 are each
    rounded to a float, the product comes out just below 1, and the floor
    is 0 where the exact floor of 49*2/98 is 1. *)
Lemma compute_output_coord_rounds_below :
  0 < 98 /\ 0 <= 49 < 98 /\
  compute_output_coord 49 49 (98, 98) (2, 2) = Ok (0, 0) /\
  (49 * 2 / 98, 49 * 2 / 98) = (1, 1).
Proof. vm_compute. intuition congruence. Qed.

(** C6 (amended). When each input size is the output size times a power
    of two, [compute_output_coord] returns the exact floors
    [(i*H_out/H_in, j*W_out/W_in)] at every pixel with coordinates below
    [2^53]; in particular input 1024 by 2048, output 128 by 256 maps pixel
    (512, 1024) to (64, 128). *)
Theorem compute_output_coord_power_of_two (i j h_out w_out k l : Z) :
  0 < h_out -> 0 < w_out -> 0 <= k <= 1000 -> 0 <= l <= 1000 ->
  0 <= i < 2 ^ 53 -> 0 <= j < 2 ^ 53 ->
  compute_output_coord i j (h_out * 2 ^ k, w_out * 2 ^ l) (h_out, w_out)
  = Ok (i * h_out / (h_out * 2 ^ k), j * w_out / (w_out * 2 ^ l)) /\
  compute_output_coord 512 1024 (1024, 2048) (128, 256) = Ok (64, 128).
Proof.
  intros Hh Hw Hk Hl Hi Hj. split.
  - apply compute_output_coord_axes; now apply scale_pow2_exact_floor.
  - vm_compute. reflexivity.
Qed.

Lemma compute_output_coord_power_of_two_witness :
  compute_output_coord 1023 7 (128 * 2 ^ 3, 256 * 2 ^ 3) (128, 256)
  = Ok (1023 * 128 / (128 * 2 ^ 3), 7 * 256 / (256 * 2 ^ 3)) /\
  compute_output_coord 512 1024 (1024, 2048) (128, 256) = Ok (64, 128).
Proof.
  apply (compute_output_coord_power_of_two 1023 7 128 256 3 3); lia.
Defined.

(** A ratio that is not a power of two: the floors of 2 * (1/3) and of
    7 * (3/10). *)
Example compute_output_coord_thirds :
  compute_output_coord 2 7 (3, 10) (1, 3) = Ok (0, 2).
Proof. vm_compute. reflexivity. Qed.

End OutputCoord.

(* ================================================================== *)
(** * Part IV: further properties of the code                          *)
(* ================================================================== *)

(** ** Image indices *)

Section ImageIndices.

Lemma range_values_in (start stop step x : Z) :
  0 < step ->
  In x (range_values start stop step)
  <-> start <= x < stop /\ (x - start) mod step = 0.
Proof.
  intros Hs. unfold range_values, range_len.
  destruct (Z.ltb_spec 0 step) as [_|]; [|lia].
  rewrite in_map_iff. split.
  - intros (k & <- & Hk). apply in_seq in Hk.
    destruct (Z.ltb_spec start stop) as [Hlt|Hge]; [|cbn in Hk; lia].
    assert (Z.of_nat k <= (stop - start - 1) / step) as Hq by lia.
    assert (step * ((stop - start - 1) / step) <= stop - start - 1) as Hm
        by (apply Z.mul_div_le; lia).
    split; [nia|].
    replace (start + Z.of_nat k * step - start) with (Z.of_nat k * step) by ring.
    apply Z.mod_mul. lia.
  - intros [Hx Hmod].
    destruct (Z.ltb_spec start stop) as [Hlt|Hge]; [|lia].
    exists (Z.to_nat ((x - start) / step)).
    assert (0 <= (x - start) / step) as Hq by (apply Z.div_pos; lia).
    assert (x - start = step * ((x - start) / step)) as Hex
        by (apply Z.div_exact; lia).
    split.
    + rewrite Z2Nat.id by exact Hq. lia.
    + apply in_seq.
      assert ((x - start) / step <= (stop - start - 1) / step) as Hle
          by (apply Z.div_le_mono; lia).
      lia.
Qed.

Lemma range_values_increasing (start stop step : Z) :
  0 < step -> StronglySorted Z.lt (range_values start stop step).
Proof.
  intros Hs. unfold range_values.
  generalize (Z.to_nat (range_len start stop step)) as n.
  generalize 0%nat as from.
  intros from n. revert from. induction n as [|n IH]; intros from; cbn;
    constructor; [apply IH|].
  apply Forall_forall. intros y Hy. apply in_map_iff in Hy.
  destruct Hy as (k & <- & Hk). apply in_seq in Hk. nia.
Qed.

(** With a range of positive step, [get_image_indices] returns, in
    increasing order, exactly the indices of the half-open interval from
    [start] to [stop] that lie a multiple of [step] above [start]; without
    a range it returns the single index. *)
Theorem get_image_indices_half_open (image_index start stop step : Z) :
  0 < step ->
  exists l,
    get_image_indices image_index (PyList [start; stop; step]) = Ok l /\
    StronglySorted Z.lt l /\
    (forall x, In x l <-> start <= x < stop /\ (x - start) mod step = 0) /\
    (forall r, truthy r = false ->
               get_image_indices image_index r = Ok [image_index]).
Proof.
  intros Hs. exists (range_values start stop step).
  split; [|split; [|split]].
  - unfold get_image_indices. cbn.
    destruct (Z.eqb_spec step 0); [lia | reflexivity].
  - now apply range_values_increasing.
  - intros x. now apply range_values_in.
  - intros r Hr. unfold get_image_indices. now rewrite Hr.
Qed.

Lemma get_image_indices_half_open_witness :
  exists l,
    get_image_indices 0 (PyList [3; 20; 5]) = Ok l /\
    StronglySorted Z.lt l /\
    (forall x, In x l <-> 3 <= x < 20 /\ (x - 3) mod 5 = 0) /\
    (forall r, truthy r = false -> get_image_indices 0 r = Ok [0]).
Proof.
  apply (get_image_indices_half_open 0 3 20 5). lia.
Defined.

End ImageIndices.

(** ** Saliency bounds: what the running pair covers *)

Section BoundsCover.

Lemma py_min_le_first (a b : Q) : (py_min a b <= a)%Q.
Proof.
  unfold py_min. destruct (Qle_bool a b) eqn:E; [apply Qle_refl|].
  apply Qlt_le_weak, Qnot_le_lt. intros H.
  apply Qle_bool_iff in H. congruence.
Qed.

Lemma py_max_ge_first (a b : Q) : (a <= py_max a b)%Q.
Proof.
  unfold py_max. destruct (Qle_bool b a) eqn:E; [apply Qle_refl|].
  apply Qlt_le_weak, Qnot_le_lt. intros H.
  apply Qle_bool_iff in H. congruence.
Qed.

Lemma update_bounds_encloses (b : bounds) (region : Q * Q) :
  encloses (update_bounds b (fst region) (snd region)) region.
Proof.
  split; cbn; [apply py_min_le_first | apply py_max_ge_first].
Qed.

Lemma widens_trans (a b c : bounds) : widens a b -> widens b c -> widens a c.
Proof.
  intros [H1 H2] [H3 H4]. split; eapply Qle_trans; eassumption.
Qed.

Lemma widens_encloses (b b' : bounds) (region : Q * Q) :
  widens b b' -> encloses b region -> encloses b' region.
Proof.
  intros [H1 H2] [H3 H4]. split; eapply Qle_trans; eassumption.
Qed.

Lemma layers_widen (layers : list (Q * Q)) (b : bounds) :
  widens b (fst (generate_and_save_saliency layers b)).
Proof.
  revert b. induction layers as [|[lo hi] layers IH]; intros b; cbn.
  - split; apply Qle_refl.
  - eapply widens_trans; [apply update_bounds_widens | apply IH].
Qed.

(** Every heat map is saved under bounds that contain its own extrema,
    and the bounds left by the layer loop contain those of every layer. *)
Lemma layers_covered (layers : list (Q * Q)) (b : bounds) :
  Forall2 (fun region line => encloses (line_bounds line) region)
          layers (snd (generate_and_save_saliency layers b)) /\
  Forall (encloses (fst (generate_and_save_saliency layers b))) layers.
Proof.
  revert b. induction layers as [|[lo hi] layers IH]; intros b; cbn.
  - split; constructor.
  - destruct (IH (update_bounds b lo hi)) as [H1 H2]. split.
    + constructor; [apply (update_bounds_encloses b (lo, hi)) | exact H1].
    + constructor; [|exact H2].
      eapply widens_encloses; [apply layers_widen|].
      apply (update_bounds_encloses b (lo, hi)).
Qed.

Lemma calls_widen (calls : list (list (Q * Q))) (b : bounds) :
  widens b (fst (saliency_calls calls b)).
Proof.
  revert b. induction calls as [|layers calls IH]; intros b; cbn.
  - split; apply Qle_refl.
  - eapply widens_trans; [apply layers_widen | apply IH].
Qed.

Lemma calls_covered (calls : list (list (Q * Q))) (b : bounds) :
  Forall2 (fun region line => encloses (line_bounds line) region)
          (concat calls) (snd (saliency_calls calls b)) /\
  Forall (encloses (fst (saliency_calls calls b))) (concat calls).
Proof.
  revert b. induction calls as [|layers calls IH]; intros b; cbn.
  - split; constructor.
  - destruct (layers_covered layers b) as [H1 H2].
    destruct (IH (fst (generate_and_save_saliency layers b))) as [H3 H4].
    split.
    + now apply Forall2_app.
    + apply Forall_app. split; [|exact H4].
      eapply Forall_impl; [|exact H2]. intros region.
      apply widens_encloses, calls_widen.
Qed.

(** For every image that is processed: each heat map is written with
    running bounds that contain its own minimum and maximum; the bounds at
    the end of the image contain the extrema of every region of the image;
    and they never leave out the initial pair, so the minimum is at most 0
    and the maximum at least -1000 whatever was observed. *)
Theorem saliency_bounds_cover
    (calls : list (list (Q * Q))) (logs_final : bool) (b : bounds) :
  let r := run_image (Processed calls logs_final) b in
  (exists lines,
     snd r = StartingBounds reset_bounds :: lines
               ++ (if logs_final then [FinalBounds (fst r)] else []) /\
     Forall2 (fun region line => encloses (line_bounds line) region)
             (concat calls) lines) /\
  Forall (encloses (fst r)) (concat calls) /\
  (minimum (fst r) <= 0)%Q /\ (- (1000) <= maximum (fst r))%Q.
Proof.
  cbn [run_image fst snd].
  destruct (calls_covered calls reset_bounds) as [H1 H2].
  split; [|split].
  - exists (snd (saliency_calls calls reset_bounds)). now split.
  - exact H2.
  - apply (calls_widen calls reset_bounds).
Qed.

End BoundsCover.

(** ** Crop: the size of the window *)

Section CropSize.

Lemma clamp_index_range (len idx : Z) :
  0 <= len -> 0 <= clamp_index len idx <= len.
Proof.
  intros H. unfold clamp_index. destruct (Z.ltb_spec idx 0); lia.
Qed.

Lemma apply_slice_length (A : Type) (s : py_slice) (l : list A) :
  Z.of_nat (length (apply_slice s l))
  = Z.max 0 (clamp_index (Z.of_nat (length l)) (slice_stop s)
             - clamp_index (Z.of_nat (length l)) (slice_start s)).
Proof.
  unfold apply_slice.
  pose proof (clamp_index_range (Z.of_nat (length l)) (slice_start s)
                ltac:(lia)) as Hlo.
  pose proof (clamp_index_range (Z.of_nat (length l)) (slice_stop s)
                ltac:(lia)) as Hhi.
  rewrite length_firstn, length_skipn. lia.
Qed.

Lemma apply_slice_length_nonneg (A : Type) (lo hi : Z) (l : list A) :
  0 <= lo -> lo <= hi ->
  Z.of_nat (length (apply_slice {| slice_start := lo; slice_stop := hi |} l))
  = Z.max 0 (Z.min hi (Z.of_nat (length l)) - lo).
Proof.
  intros Hlo Hhi. rewrite apply_slice_length. cbn [slice_start slice_stop].
  rewrite !clamp_index_nonneg by lia. lia.
Qed.

Lemma apply_slice_incl (A : Type) (s : py_slice) (l : list A) (x : A) :
  In x (apply_slice s l) -> In x l.
Proof.
  unfold apply_slice. intros Hin.
  set (m := Z.to_nat (clamp_index (Z.of_nat (length l)) (slice_start s))) in *.
  rewrite <- (firstn_skipn m l). apply in_or_app. right.
  set (rest := skipn m l) in *.
  set (n := Z.to_nat _) in Hin.
  rewrite <- (firstn_skipn n rest). apply in_or_app. now left.
Qed.

(** For a pixel as centre, the crop of an image of [H] rows of [W] columns
    has [min (i + size/2) H - max (i - size/2) 0] rows (none if that is
    negative) and as many columns by the same rule; it is never larger than
    [2 * (size/2)], hence never larger than [size], and it has exactly
    [2 * (size/2)] rows when the window lies inside the image: one less
    than [size] when [size] is odd. *)
Theorem crop_size_bound (A : Type) (size i j W : Z)
    (image : image_of false A) :
  0 < size -> 0 <= i -> 0 <= j ->
  Forall (fun row => Z.of_nat (length row) = W) image ->
  let half := size / 2 in
  let H := Z.of_nat (length image) in
  let rows := Z.of_nat (length (crop i j size false image)) in
  rows = Z.max 0 (Z.min (i + half) H - Z.max (i - half) 0) /\
  Forall (fun row => Z.of_nat (length row)
                     = Z.max 0 (Z.min (j + half) W - Z.max (j - half) 0))
         (crop i j size false image) /\
  rows <= 2 * half <= size /\
  (half <= i -> i + half <= H -> rows = 2 * half).
Proof.
  intros Hs Hi Hj Hrows half H rows.
  assert (0 <= half) as Hh by (apply Z.div_pos; lia).
  assert (2 * half <= size) as Hsize
      by (subst half; pose proof (Z.mul_div_le size 2); lia).
  assert (rows = Z.max 0 (Z.min (i + half) H - Z.max (i - half) 0)) as Hr.
  { subst rows. unfold crop, crop_slices, slice_plane. cbn [fst snd].
    rewrite length_map, apply_slice_length_nonneg by lia. reflexivity. }
  split; [exact Hr|]. split; [|split; [lia|lia]].
  unfold crop, crop_slices, slice_plane. cbn [fst snd].
  apply Forall_forall. intros row Hrow. apply in_map_iff in Hrow.
  destruct Hrow as (row0 & <- & Hin).
  rewrite apply_slice_length_nonneg by lia.
  assert (In row0 image) as Hin0 by (eapply apply_slice_incl; exact Hin).
  rewrite Forall_forall in Hrows. now rewrite (Hrows row0 Hin0).
Qed.

Lemma crop_size_bound_witness :
  let half := 5 / 2 in
  let H := Z.of_nat (length [[[1%nat]; [2%nat]; [3%nat]];
                            [[4%nat]; [5%nat]; [6%nat]];
                            [[7%nat]; [8%nat]; [9%nat]]]) in
  let rows :=
    Z.of_nat (length (crop (A := nat) 1 0 5 false
                        [[[1%nat]; [2%nat]; [3%nat]];
                         [[4%nat]; [5%nat]; [6%nat]];
                         [[7%nat]; [8%nat]; [9%nat]]])) in
  rows = Z.max 0 (Z.min (1 + half) H - Z.max (1 - half) 0) /\
  Forall (fun row => Z.of_nat (length row)
                     = Z.max 0 (Z.min (0 + half) 3 - Z.max (0 - half) 0))
         (crop (A := nat) 1 0 5 false
            [[[1%nat]; [2%nat]; [3%nat]];
             [[4%nat]; [5%nat]; [6%nat]];
             [[7%nat]; [8%nat]; [9%nat]]]) /\
  rows <= 2 * half <= 5 /\
  (half <= 1 -> 1 + half <= H -> rows = 2 * half).
Proof.
  apply (crop_size_bound nat 5 1 0 3
           [[[1%nat]; [2%nat]; [3%nat]];
            [[4%nat]; [5%nat]; [6%nat]];
            [[7%nat]; [8%nat]; [9%nat]]]); try lia.
  repeat constructor.
Defined.

Lemma apply_slice_negative_stop (A : Type) (lo hi : Z) (l : list A) :
  lo <= 0 -> hi < 0 ->
  apply_slice {| slice_start := Z.max lo 0; slice_stop := hi |} l
  = firstn (Z.to_nat (Z.of_nat (length l) + hi)) l.
Proof.
  intros Hlo Hhi. unfold apply_slice. cbn [slice_start slice_stop].
  unfold clamp_index.
  destruct (Z.ltb_spec (Z.max lo 0) 0) as [|_]; [lia|].
  destruct (Z.ltb_spec hi 0) as [_|]; [|lia].
  replace (Z.min (Z.max lo 0) (Z.of_nat (length l))) with 0 by lia.
  cbn [Z.to_nat skipn]. f_equal. lia.
Qed.

Lemma slice_plane_negative_stop (B : Type) (size i j : Z)
    (plane : list (list B)) :
  0 < size -> i + size / 2 < 0 ->
  slice_plane (fst (crop_slices i j size)) (snd (crop_slices i j size)) plane
  = map (apply_slice (snd (crop_slices i j size)))
        (firstn (Z.to_nat (Z.of_nat (length plane) + (i + size / 2))) plane).
Proof.
  intros Hs Hneg.
  assert (0 <= size / 2) as Hh by (apply Z.div_pos; lia).
  unfold slice_plane. f_equal. unfold crop_slices. cbn [fst].
  apply apply_slice_negative_stop; lia.
Qed.

(** A centre row so far above the image that [i + size/2] is negative does
    not give an empty crop: the negative stop counts from the bottom, and
    the rows returned are all rows but the last [- (i + size/2)], from the
    top on, however small [size] is; in the raw image and in every plane
    of a saliency tensor alike.  The columns are cut as for any centre. *)
Theorem crop_negative_centre (A : Type) (size i j : Z) :
  0 < size -> i + size / 2 < 0 ->
  (forall image : image_of false A,
     crop i j size false image
     = map (apply_slice (snd (crop_slices i j size)))
           (firstn (Z.to_nat (Z.of_nat (length image) + (i + size / 2)))
                   image) /\
     Z.of_nat (length (crop i j size false image))
     = Z.max 0 (Z.of_nat (length image) + (i + size / 2))) /\
  (forall t : image_of true A,
     crop i j size true t
     = map (map (fun plane =>
                   map (apply_slice (snd (crop_slices i j size)))
                       (firstn (Z.to_nat (Z.of_nat (length plane)
                                          + (i + size / 2)))
                               plane)))
           t).
Proof.
  intros Hs Hneg. split.
  - intros image. unfold crop.
    pose proof (slice_plane_negative_stop (list A) size i j image Hs Hneg)
      as Hplane.
    split; [exact Hplane|].
    rewrite Hplane, length_map, length_firstn.
    generalize (length (image : list (list (list A)))). intros n. lia.
  - intros t. unfold crop. apply map_ext. intros batch.
    apply map_ext. intros plane.
    now apply slice_plane_negative_stop.
Qed.

Lemma crop_negative_centre_witness :
  (forall image : image_of false nat,
     crop (-3) 0 2 false image
     = map (apply_slice (snd (crop_slices (-3) 0 2)))
           (firstn (Z.to_nat (Z.of_nat (length image) + (-3 + 2 / 2)))
                   image) /\
     Z.of_nat (length (crop (-3) 0 2 false image))
     = Z.max 0 (Z.of_nat (length image) + (-3 + 2 / 2))) /\
  (forall t : image_of true nat,
     crop (-3) 0 2 true t
     = map (map (fun plane =>
                   map (apply_slice (snd (crop_slices (-3) 0 2)))
                       (firstn (Z.to_nat (Z.of_nat (length plane)
                                          + (-3 + 2 / 2)))
                               plane)))
           t).
Proof.
  apply (crop_negative_centre nat 2 (-3) 0); [lia | reflexivity].
Defined.

(** Five rows, centre three rows above the image, size 2: the first three
    rows come back. *)
Example crop_negative_centre_rows :
  crop (-3) 0 2 false
    [[[1%nat]]; [[2%nat]]; [[3%nat]]; [[4%nat]]; [[5%nat]]]
  = [[[1%nat]]; [[2%nat]]; [[3%nat]]].
Proof. reflexivity. Qed.

End CropSize.

(** ** Coordinate mapping: signs and bounds *)

Section OutputCoordBounds.

Lemma round_canonical_signed (s : bool) (mz : positive) (e : Z) :
  digits2_pos mz = 53%positive -> -1074 <= e <= 971 ->
  binary_round_aux prec emax s (Zpos mz) e loc_Exact
  = S754_finite s mz e.
Proof.
  intros Hd He. unfold binary_round_aux, shr_fexp. cbn [Zdigits2].
  rewrite Hd, fexp_above by lia.
  replace (53 + e - 53 - e) with 0 by lia.
  cbn [shr_record_of_loc shr loc_of_shr_record round_nearest_even shr_m
       shr_r shr_s Zdigits2].
  rewrite Hd, fexp_above by lia.
  replace (53 + e - 53 - e) with 0 by lia.
  cbn [shr shr_m].
  destruct (Z.leb_spec e (emax - prec)); [reflexivity|].
  unfold emax, prec in *. lia.
Qed.

Lemma float_of_int_neg (p : positive) :
  Zpos p < 2 ^ 53 ->
  exists mz ez,
    float_of_int (Zneg p) = Ok (S754_finite true mz ez) /\
    digits2_pos mz = 53%positive /\ -52 <= ez <= 0 /\
    Zpos mz = Zpos p * 2 ^ (- ez).
Proof.
  intros Hp. unfold float_of_int, binary_normalize, binary_round.
  pose proof (digits2_log2 p) as Hd.
  assert (0 <= Z.log2 (Zpos p) < 53) as Hlog.
  { split; [apply Z.log2_nonneg|]. apply Z.log2_lt_pow2; lia. }
  rewrite fexp_above by lia. unfold shl_align.
  destruct (Zpos (digits2_pos p) + 0 - 53 - 0) as [|s|s] eqn:Es; try lia.
  - assert (digits2_pos p = 53%positive) as Hd53 by lia.
    rewrite round_canonical_signed by (try assumption; lia).
    exists p, 0. repeat split; try lia; assumption.
  - assert (digits2_pos (Pos.iter xO p s) = 53%positive) as Hd53.
    { apply Pos2Z.inj. rewrite digits2_log2, iter_xO_pow2.
      rewrite Z.log2_mul_pow2 by lia. lia. }
    rewrite round_canonical_signed by (try assumption; lia).
    exists (Pos.iter xO p s), (Zpos (digits2_pos p) + 0 - 53).
    repeat split; try lia.
    rewrite iter_xO_pow2. f_equal. f_equal. lia.
Qed.

Lemma mul_pow2_neg (mz : positive) (ez k : Z) :
  digits2_pos mz = 53%positive -> -52 <= ez <= 0 -> 0 <= k <= 1000 ->
  SFmul prec emax (S754_finite true mz ez)
        (S754_finite false 4503599627370496 (- k - 52))
  = S754_finite true mz (ez - k).
Proof.
  intros Hd He Hk. cbn [SFmul xorb]. rewrite Pos.mul_comm. cbn [Pos.mul].
  unfold binary_round_aux, shr_fexp. cbn [Zdigits2 digits2_pos]. rewrite Hd.
  cbn [Pos.succ]. rewrite fexp_above by lia.
  match goal with
  | |- context [shr _ ?e ?n] => replace n with 52 by lia
  end.
  cbn [shr_record_of_loc shr iter_pos shr_1 loc_of_shr_record
       round_nearest_even shr_m shr_r shr_s orb Zdigits2].
  rewrite Hd, fexp_above by lia.
  match goal with
  | |- context [shr _ ?e ?n] => replace n with 0 by lia
  end.
  cbn [shr shr_m].
  replace (ez + (- k - 52) + 52) with (ez - k) by lia.
  destruct (Z.leb_spec (ez - k) (emax - prec)); [reflexivity|].
  unfold emax, prec in *. lia.
Qed.

(** One axis, for a pixel of either sign. *)
Lemma scale_pow2_signed (m : positive) (k pixel : Z) :
  0 <= k <= 1000 -> - 2 ^ 53 < pixel < 2 ^ 53 ->
  scale_coord pixel (Zpos m * 2 ^ k) (Zpos m) = Ok (pixel / 2 ^ k).
Proof.
  intros Hk Hp. destruct pixel as [|p|p].
  - apply scale_pow2; lia.
  - apply scale_pow2; lia.
  - unfold scale_coord. rewrite true_div_pow2 by exact Hk.
    cbn [bind]. unfold int_mul_float.
    destruct (float_of_int_neg p) as (mz & ez & -> & Hd & He & Hm); [lia|].
    cbn [bind]. rewrite mul_pow2_neg by assumption. cbn [floor_to_int].
    f_equal. rewrite Z.shiftl_div_pow2 by lia.
    replace (Zneg mz) with (Zneg p * 2 ^ (- ez)) by lia.
    replace (- (ez - k)) with (k + - ez) by lia.
    rewrite Z.pow_add_r by lia.
    apply Z.div_mul_cancel_r; lia.
Qed.

(** When each input size is the output size times a power of two, the
    output coordinate of a pixel of either sign is the floor of the pixel
    divided by that power; so a pixel inside the image lands inside the
    output tensor, and a negative pixel, which the bounds assertion of the
    run loop lets through, lands on a negative index. *)
Theorem compute_output_coord_within_output (i j h_out w_out k l : Z) :
  0 < h_out -> 0 < w_out -> 0 <= k <= 1000 -> 0 <= l <= 1000 ->
  - 2 ^ 53 < i < 2 ^ 53 -> - 2 ^ 53 < j < 2 ^ 53 ->
  compute_output_coord i j (h_out * 2 ^ k, w_out * 2 ^ l) (h_out, w_out)
  = Ok (i / 2 ^ k, j / 2 ^ l) /\
  (0 <= i < h_out * 2 ^ k -> 0 <= i / 2 ^ k < h_out) /\
  (0 <= j < w_out * 2 ^ l -> 0 <= j / 2 ^ l < w_out) /\
  (i < 0 -> i / 2 ^ k < 0) /\
  (j < 0 -> j / 2 ^ l < 0).
Proof.
  intros Hh Hw Hk Hl Hi Hj.
  assert (0 < 2 ^ k) as Pk by (apply Z.pow_pos_nonneg; lia).
  assert (0 < 2 ^ l) as Pl by (apply Z.pow_pos_nonneg; lia).
  split; [|split; [|split; [|split]]].
  - destruct h_out as [|mh|mh]; try lia. destruct w_out as [|mw|mw]; try lia.
    apply compute_output_coord_axes; now apply scale_pow2_signed.
  - intros Hin. split; [apply Z.div_pos; lia|].
    apply Z.div_lt_upper_bound; lia.
  - intros Hin. split; [apply Z.div_pos; lia|].
    apply Z.div_lt_upper_bound; lia.
  - intros Hneg. apply Z.div_lt_upper_bound; lia.
  - intros Hneg. apply Z.div_lt_upper_bound; lia.
Qed.

Lemma compute_output_coord_within_output_witness :
  compute_output_coord (-5) 2047 (128 * 2 ^ 3, 256 * 2 ^ 3) (128, 256)
  = Ok (-5 / 2 ^ 3, 2047 / 2 ^ 3) /\
  (0 <= -5 < 128 * 2 ^ 3 -> 0 <= -5 / 2 ^ 3 < 128) /\
  (0 <= 2047 < 256 * 2 ^ 3 -> 0 <= 2047 / 2 ^ 3 < 256) /\
  (-5 < 0 -> -5 / 2 ^ 3 < 0) /\
  (2047 < 0 -> 2047 / 2 ^ 3 < 0).
Proof.
  apply (compute_output_coord_within_output (-5) 2047 128 256 3 3); lia.
Defined.

End OutputCoordBounds.

(** ** File names: no collisions between pixels *)

Section FilenameCollisions.

Lemma string_of_uint_decimal (d : Decimal.uint) :
  all_chars decimal_char (NilEmpty.string_of_uint d) = true.
Proof. induction d; cbn; auto. Qed.

Lemma format_int_decimal (z : Z) :
  all_chars decimal_char (format_value (VInt z)) = true.
Proof.
  cbn. destruct (Z.to_int z) as [d|d]; cbn;
    destruct d; cbn; auto using string_of_uint_decimal;
    apply (string_of_uint_decimal d).
Qed.

Lemma pos_to_uint_nonnil (p : positive) : Pos.to_uint p <> Decimal.Nil.
Proof.
  apply DecimalPos.Unsigned.to_uint_nonnil.
Qed.

Lemma format_int_injective (a b : Z) :
  format_value (VInt a) = format_value (VInt b) -> a = b.
Proof.
  cbn. intros H.
  assert (forall z, Z.to_int z <> Decimal.Pos Decimal.Nil /\
                    Z.to_int z <> Decimal.Neg Decimal.Nil) as Hnn.
  { intros [|p|p]; cbn; split; try discriminate;
      intros [= E]; now apply pos_to_uint_nonnil in E. }
  assert (Z.to_int a = Z.to_int b) as E.
  { apply (f_equal NilZero.int_of_string) in H.
    rewrite !NilZero.isi in H by apply Hnn. now injection H. }
  rewrite <- (DecimalZ.of_to a), <- (DecimalZ.of_to b). now rewrite E.
Qed.

(** Two numerals followed by a dash and a letter split in one way only. *)
Lemma split_at_letter (x : ascii) (s1 s2 t1 t2 : string) :
  decimal_char x = false ->
  all_chars decimal_char s1 = true -> all_chars decimal_char s2 = true ->
  (s1 ++ String "-" (String x t1) = s2 ++ String "-" (String x t2))%string ->
  s1 = s2 /\ t1 = t2.
Proof.
  intros Hx. revert s2.
  induction s1 as [|c1 s1 IH]; intros [|c2 s2];
    cbn [String.append all_chars]; intros H1 H2 E.
  - injection E as <-. now split.
  - exfalso. injection E as Ec E. subst c2.
    apply andb_prop in H2. destruct H2 as [_ H2].
    destruct s2 as [|c3 s2]; cbn [String.append all_chars] in E, H2;
      injection E as Ex E; subst.
    + cbn in Hx. discriminate.
    + apply andb_prop in H2. destruct H2 as [H2 _]. congruence.
  - exfalso. injection E as Ec E. subst c1.
    apply andb_prop in H1. destruct H1 as [_ H1].
    destruct s1 as [|c3 s1]; cbn [String.append all_chars] in E, H1;
      injection E as Ex E; subst.
    + cbn in Hx. discriminate.
    + apply andb_prop in H1. destruct H1 as [H1 _]. congruence.
  - injection E as -> E. apply andb_prop in H1, H2.
    destruct H1 as [_ H1], H2 as [_ H2].
    destruct (IH s2 H1 H2 E) as [-> ->]. now split.
Qed.

(** The keyword dictionaries the run loop builds for two pixels, under the
    same suffix, give the same file name only when image index, row and
    column agree. *)
Theorem generate_fname_no_collision
    (suffix : string) (a b c a' b' c' : Z) :
  generate_fname (pixel_kwargs a b c suffix) default_order
  = generate_fname (pixel_kwargs a' b' c' suffix) default_order ->
  a = a' /\ b = b' /\ c = c'.
Proof.
  destruct suffix as [|ch suffix]; cbn; intros [= E];
    apply split_at_letter in E;
      try reflexivity; try apply (format_int_decimal a);
      try apply (format_int_decimal a');
    destruct E as [Ea E]; injection E as E;
    apply split_at_letter in E;
      try reflexivity; try apply (format_int_decimal b);
      try apply (format_int_decimal b');
    destruct E as [Eb E]; injection E as E.
  - repeat split; now apply format_int_injective.
  - apply split_at_letter in E;
      try reflexivity; try apply (format_int_decimal c);
      try apply (format_int_decimal c').
    destruct E as [Ec _].
    repeat split; now apply format_int_injective.
Qed.

Lemma generate_fname_no_collision_witness :
  7 = 7 /\ 12 = 12 /\ -3 = -3.
Proof.
  apply (generate_fname_no_collision "run2" 7 12 (-3) 7 12 (-3)).
  reflexivity.
Defined.

End FilenameCollisions.

(** ** Target layers *)

Section TargetLayers.

Lemma str_split_nonempty (sep : ascii) (s : string) : str_split sep s <> [].
Proof.
  destruct s as [|c s]; cbn; [discriminate|].
  destruct (Ascii.eqb c sep); [discriminate|].
  destruct (str_split sep s); discriminate.
Qed.

Lemma str_concat_cons (sep x y : string) (l : list string) :
  String.concat sep (x :: y :: l)
  = (x ++ sep ++ String.concat sep (y :: l))%string.
Proof. reflexivity. Qed.

Lemma str_split_join (sep : ascii) (s : string) :
  String.concat (String sep EmptyString) (str_split sep s) = s.
Proof.
  induction s as [|c s IH]; [reflexivity|]. cbn [str_split].
  pose proof (str_split_nonempty sep s) as Hn.
  destruct (Ascii.eqb_spec c sep) as [->|Hne].
  - destruct (str_split sep s) as [|p ps] eqn:E; [congruence|].
    rewrite str_concat_cons, IH. reflexivity.
  - destruct (str_split sep s) as [|p ps] eqn:E; [congruence|].
    destruct ps as [|q qs].
    + cbn [String.concat] in *. now rewrite IH.
    + rewrite str_concat_cons in *.
      change (String c p ++ String sep "" ++ String.concat (String sep "") (q :: qs))%string
        with (String c (p ++ String sep "" ++ String.concat (String sep "") (q :: qs)))%string.
      now rewrite IH.
Qed.

Lemma str_split_pieces (sep : ascii) (s : string) :
  Forall (fun piece => all_chars (fun c => negb (Ascii.eqb c sep)) piece = true)
         (str_split sep s).
Proof.
  induction s as [|c s IH]; cbn [str_split]; [repeat constructor|].
  destruct (Ascii.eqb c sep) eqn:E.
  - constructor; [reflexivity | exact IH].
  - destruct (str_split sep s) as [|p ps]; [repeat constructor; cbn; now rewrite E|].
    inversion IH as [|? ? Hp Hps]; subst.
    constructor; [cbn; now rewrite E, Hp | exact Hps].
Qed.

(** Given as text, the target layers are the pieces between the commas, in
    order: no piece holds a comma and joining them with commas gives the
    text back.  Not given or empty, the target layer is the name of the
    last module when that module is a convolution; in every other case,
    also when an earlier module is a convolution, no target layer is
    assigned at all. *)
Theorem select_target_layers_last_module
    (named_modules : list (string * bool)) :
  (forall c s, exists pieces,
     select_target_layers (Some (String c s)) named_modules = Some pieces /\
     String.concat "," pieces = String c s /\
     Forall (fun piece =>
               all_chars (fun x => negb (Ascii.eqb x ",")) piece = true)
            pieces) /\
  (forall layers,
     select_target_layers None named_modules = Some layers
     <-> exists front name,
           named_modules = front ++ [(name, true)] /\ layers = [name]) /\
  (forall front name,
     select_target_layers None (front ++ [(name, false)]) = None) /\
  select_target_layers (Some "") named_modules
  = select_target_layers None named_modules.
Proof.
  split; [|split; [|split; [|reflexivity]]].
  - intros c s. exists (str_split "," (String c s)).
    split; [reflexivity|]. split; [apply str_split_join | apply str_split_pieces].
  - intros layers. unfold select_target_layers, last_module_loop.
    destruct (rev named_modules) as [|[name is_conv] rest] eqn:E.
    + split; [discriminate|]. intros (front & name & -> & _).
      rewrite rev_app_distr in E. discriminate.
    + apply (f_equal (@rev _)) in E. rewrite rev_involutive in E. cbn in E.
      subst named_modules. destruct is_conv.
      * split.
        -- intros [= <-]. now exists (rev rest), name.
        -- intros (front & name' & E & ->).
           apply app_inj_tail in E. destruct E as [_ [= ->]]. reflexivity.
      * split; [discriminate|]. intros (front & name' & E & _).
        apply app_inj_tail in E. destruct E as [_ E]. discriminate.
  - intros front name. unfold select_target_layers, last_module_loop.
    now rewrite rev_app_distr.
Qed.

End TargetLayers.

(** ** Pretrained weights *)

Section CheckpointFacts.

Context {V : Type}.

Lemma dict_get_set (k k' : string) (v : V) (d : list (string * V)) :
  dict_get String.eqb k (dict_set String.eqb k' v d)
  = if String.eqb k k' then Some v else dict_get String.eqb k d.
Proof.
  induction d as [|[k0 w] d IH]; cbn.
  - reflexivity.
  - destruct (String.eqb_spec k' k0) as [->|Hne]; cbn.
    + now destruct (String.eqb k k0).
    + destruct (String.eqb_spec k k0) as [->|Hk0].
      * destruct (String.eqb_spec k0 k'); [congruence | reflexivity].
      * exact IH.
Qed.

Lemma dict_set_keys_present (k : string) (v : V) (d : list (string * V)) :
  In k (map fst d) -> map fst (dict_set String.eqb k v d) = map fst d.
Proof.
  induction d as [|[k0 w] d IH]; cbn; [intros []|].
  destruct (String.eqb_spec k k0) as [->|Hne]; [reflexivity|].
  intros [E|Hin]; [congruence|]. cbn. now rewrite IH.
Qed.

Lemma dict_mem_in (k : string) (d : list (string * V)) :
  dict_mem String.eqb k d = true <-> In k (map fst d).
Proof.
  unfold dict_mem. pose proof (dict_get_none String.eqb String.eqb_spec k d) as H.
  destruct (dict_get String.eqb k d).
  - split; [intros _|reflexivity].
    destruct (in_dec string_dec k (map fst d)) as [Hin|Hn]; [exact Hin|].
    apply H in Hn. discriminate.
  - split; [discriminate|]. intros Hin. now apply H in Hin.
Qed.

Lemma filter_checkpoint_acc (pre model acc : list (string * V)) :
  let step := fun acc kv =>
    if dict_mem String.eqb (str_drop 6 (fst kv)) model
    then dict_set String.eqb (str_drop 6 (fst kv)) (snd kv) acc
    else acc in
  NoDup (map fst acc) ->
  (forall k, In k (map fst acc) -> In k (map fst model)) ->
  NoDup (map fst (fold_left step pre acc)) /\
  (forall k, In k (map fst (fold_left step pre acc)) -> In k (map fst model)) /\
  (forall k, dict_get String.eqb k (fold_left step pre acc)
             = if dict_mem String.eqb k model
               then last_stripped k pre (dict_get String.eqb k acc)
               else dict_get String.eqb k acc).
Proof.
  intros step. revert acc.
  induction pre as [|[k0 v0] pre IH]; intros acc Hnd Hsub; cbn [fold_left].
  - split; [exact Hnd|]. split; [exact Hsub|].
    intros k. unfold last_stripped. cbn. now destruct (dict_mem _ k model).
  - unfold step at 2 4 6. cbn [fst snd].
    destruct (dict_mem String.eqb (str_drop 6 k0) model) eqn:Em.
    + destruct (IH (dict_set String.eqb (str_drop 6 k0) v0 acc))
        as (H1 & H2 & H3).
      * now apply (dict_set_nodup String.eqb String.eqb_spec).
      * intros k Hk.
        apply (dict_set_keys_in String.eqb String.eqb_spec) in Hk.
        destruct Hk as [->|Hk]; [now apply dict_mem_in | now apply Hsub].
      * split; [exact H1|]. split; [exact H2|]. intros k. rewrite H3.
        unfold last_stripped. cbn [fold_left fst snd]. rewrite dict_get_set.
        destruct (dict_mem String.eqb k model) eqn:Ek; [reflexivity|].
        destruct (String.eqb_spec k (str_drop 6 k0)); [congruence|reflexivity].
    + destruct (IH acc Hnd Hsub) as (H1 & H2 & H3).
      split; [exact H1|]. split; [exact H2|]. intros k. rewrite H3.
      unfold last_stripped. cbn [fold_left fst snd].
      destruct (dict_mem String.eqb k model) eqn:Ek; [|reflexivity].
      destruct (String.eqb_spec k (str_drop 6 k0)); [congruence|reflexivity].
Qed.

Lemma dict_update_spec (other : list (string * V)) :
  NoDup (map fst other) ->
  forall d : list (string * V),
  (forall k, In k (map fst other) -> In k (map fst d)) ->
  map fst (dict_update d other) = map fst d /\
  (forall k, dict_get String.eqb k (dict_update d other)
             = match dict_get String.eqb k other with
               | Some v => Some v
               | None => dict_get String.eqb k d
               end).
Proof.
  unfold dict_update.
  induction other as [|[k0 v0] other IH]; intros Hnd d Hsub; cbn [fold_left].
  - split; [reflexivity|]. intros k. reflexivity.
  - cbn [map fst] in Hnd. inversion Hnd as [|? ? Hk0 Hnd']; subst.
    cbn [fst snd].
    assert (In k0 (map fst d)) as Hin by (apply Hsub; now left).
    destruct (IH Hnd' (dict_set String.eqb k0 v0 d)) as [H1 H2].
    { intros k Hk. rewrite dict_set_keys_present by exact Hin.
      apply Hsub. now right. }
    split; [now rewrite H1, dict_set_keys_present|].
    intros k. rewrite H2, dict_get_set. cbn [dict_get].
    destruct (String.eqb_spec k k0) as [->|Hne]; [|reflexivity].
    apply (dict_get_none String.eqb String.eqb_spec) in Hk0. now rewrite Hk0.
Qed.

(** Loading pretrained weights keeps the parameter names of the model, in
    their order: nothing is added and nothing is dropped.  A parameter
    takes the value of the last checkpoint entry whose key, cut by its
    first six characters, is its name, and keeps its own value when there
    is none; checkpoint entries that match no parameter are ignored. *)
Theorem load_pretrained_keeps_names
    (pretrained_dict model_dict : list (string * V)) :
  map fst (load_pretrained pretrained_dict model_dict) = map fst model_dict /\
  (forall k,
     dict_get String.eqb k (load_pretrained pretrained_dict model_dict)
     = if dict_mem String.eqb k model_dict
       then match last_stripped k pretrained_dict None with
            | Some v => Some v
            | None => dict_get String.eqb k model_dict
            end
       else None).
Proof.
  unfold load_pretrained, filter_checkpoint.
  destruct (filter_checkpoint_acc pretrained_dict model_dict [])
    as (Hnd & Hsub & Hget); [constructor | intros k [] |].
  cbn zeta in Hnd, Hsub, Hget.
  destruct (dict_update_spec _ Hnd model_dict Hsub) as [Hkeys Hval].
  split; [exact Hkeys|]. intros k. rewrite Hval, Hget. cbn [dict_get].
  destruct (dict_mem String.eqb k model_dict) eqn:Em; [reflexivity|].
  unfold dict_mem in Em. now destruct (dict_get String.eqb k model_dict).
Qed.

End CheckpointFacts.

(** ** The bars of the overlap plot *)

Section OverlapPlot.

Lemma overlap_loop_nodup (T : tensor_arith) (label : label_map)
    (plane : list (list Q)) (classes : list Z) :
  forall d d' : list (Z * Q),
  NoDup (map fst d) ->
  overlap_loop T classes label plane d = Ok d' -> NoDup (map fst d').
Proof.
  induction classes as [|cls classes IH]; intros d d' Hnd; cbn [overlap_loop].
  - now intros [= <-].
  - destruct (tensor_getitem _ _ plane) as [vals|e]; cbn [bind];
      [|discriminate].
    apply IH. now apply (dict_set_nodup Z.eqb Z.eqb_spec).
Qed.

Lemma compute_overlap_nodup (T : tensor_arith) (saliency : Type)
    (normalize_plane : saliency -> list (list Q))
    (label : label_map) (gradcam : saliency) (overlap : list (Z * Q)) :
  compute_overlap T normalize_plane label gradcam = Ok overlap ->
  NoDup (map fst overlap).
Proof.
  unfold compute_overlap.
  destruct (overlap_loop T _ label _ []) as [d|e] eqn:E; cbn [bind];
    [|discriminate].
  apply overlap_loop_nodup in E; [|constructor].
  rewrite (dict_pop_get Z.eqb).
  destruct (dict_get Z.eqb ignore_label d); cbn [bind snd]; [|discriminate].
  intros [= <-]. rewrite (keys_remove Z.eqb Z.eqb_spec) by exact E.
  now apply NoDup_filter.
Qed.

Lemma decorate_entries (overlap entries : list (Z * Q)) :
  NoDup (map fst overlap) -> incl entries overlap ->
  for_each (fun key => v <- dict_getitem key overlap ;; Ok (v, key))
           (map fst entries)
  = Ok (map (fun kv => (snd kv, fst kv)) entries).
Proof.
  intros Hnd. induction entries as [|[k v] entries IH]; intros Hin;
    cbn [map for_each fst snd]; [reflexivity|].
  unfold dict_getitem at 1.
  assert (dict_get Z.eqb k overlap = Some v) as ->
    by (apply (dict_get_in Z.eqb Z.eqb_spec); [exact Hnd | apply Hin; now left]).
  cbn [bind]. rewrite IH; [reflexivity|].
  intros x Hx. apply Hin. now right.
Qed.

Lemma values_of_entries (overlap entries : list (Z * Q)) :
  NoDup (map fst overlap) -> incl entries overlap ->
  for_each (fun key => dict_getitem key overlap) (map fst entries)
  = Ok (map snd entries).
Proof.
  intros Hnd. induction entries as [|[k v] entries IH]; intros Hin;
    cbn [map for_each fst snd]; [reflexivity|].
  unfold dict_getitem at 1.
  assert (dict_get Z.eqb k overlap = Some v) as ->
    by (apply (dict_get_in Z.eqb Z.eqb_spec); [exact Hnd | apply Hin; now left]).
  cbn [bind]. rewrite IH; [reflexivity|].
  intros x Hx. apply Hin. now right.
Qed.

Lemma Qlt_bool_false (a b : Q) : Qlt_bool a b = false -> (b <= a)%Q.
Proof.
  unfold Qlt_bool. intros H. apply negb_false_iff in H.
  now apply Qle_bool_iff.
Qed.

Lemma Qlt_bool_true (a b : Q) : Qlt_bool a b = true -> (a <= b)%Q.
Proof.
  unfold Qlt_bool. intros H. apply negb_true_iff in H.
  apply Qlt_le_weak, Qnot_le_lt. intros Hle.
  apply Qle_bool_iff in Hle. congruence.
Qed.

Lemma insert_by_key_perm (A : Type) (x : Q * A) (l : list (Q * A)) :
  Permutation (insert_by_key x l) (x :: l).
Proof.
  induction l as [|y l IH]; cbn [insert_by_key]; [reflexivity|].
  destruct (Qlt_bool (fst y) (fst x)); [|reflexivity].
  rewrite IH. apply perm_swap.
Qed.

Lemma insert_by_key_sorted (A : Type) (x : Q * A) (l : list (Q * A)) :
  StronglySorted (fun a b => (fst a <= fst b)%Q) l ->
  StronglySorted (fun a b => (fst a <= fst b)%Q) (insert_by_key x l).
Proof.
  induction 1 as [|y l Hs IH Hy]; cbn [insert_by_key].
  - repeat constructor.
  - destruct (Qlt_bool (fst y) (fst x)) eqn:E.
    + constructor; [exact IH|].
      rewrite Forall_forall in *. intros z Hz.
      apply (Permutation_in _ (insert_by_key_perm A x l)) in Hz.
      destruct Hz as [<-|Hz]; [now apply Qlt_bool_true | now apply Hy].
    + apply Qlt_bool_false in E.
      constructor; [now constructor|].
      constructor; [exact E|].
      rewrite Forall_forall in *. intros z Hz.
      eapply Qle_trans; [exact E | now apply Hy].
Qed.

Lemma sort_by_key_perm (A : Type) (l : list (Q * A)) :
  Permutation (fold_right insert_by_key [] l) l.
Proof.
  induction l as [|x l IH]; cbn [fold_right]; [reflexivity|].
  rewrite insert_by_key_perm. now constructor.
Qed.

Lemma sort_by_key_sorted (A : Type) (l : list (Q * A)) :
  StronglySorted (fun a b => (fst a <= fst b)%Q)
                 (fold_right insert_by_key [] l).
Proof.
  induction l as [|x l IH]; cbn [fold_right]; [constructor|].
  now apply insert_by_key_sorted.
Qed.

Lemma strongly_sorted_app (A : Type) (R : A -> A -> Prop) (l1 l2 : list A) :
  StronglySorted R (l1 ++ l2) <->
  StronglySorted R l1 /\ StronglySorted R l2 /\
  (forall a b, In a l1 -> In b l2 -> R a b).
Proof.
  induction l1 as [|x l1 IH]; cbn [app].
  - split; [intros H; repeat split; [constructor | exact H | intros ? ? []]
           | now intros (_ & H & _)].
  - split.
    + intros H. inversion H as [|? ? Hs Hx]; subst.
      apply IH in Hs. destruct Hs as (H1 & H2 & H12).
      rewrite Forall_forall in Hx.
      repeat split.
      * constructor; [exact H1|]. rewrite Forall_forall. intros z Hz.
        apply Hx, in_or_app. now left.
      * exact H2.
      * intros a b [<-|Ha] Hb; [apply Hx, in_or_app; now right | now apply H12].
    + intros (H1 & H2 & H12). inversion H1 as [|? ? Hs Hx]; subst.
      rewrite Forall_forall in Hx.
      constructor.
      * apply IH. repeat split; [exact Hs | exact H2|].
        intros a b Ha Hb. apply H12; [now right | exact Hb].
      * rewrite Forall_forall. intros z Hz. apply in_app_or in Hz.
        destruct Hz as [Hz|Hz]; [now apply Hx | apply H12; [now left | exact Hz]].
Qed.

Lemma strongly_sorted_rev (A : Type) (R : A -> A -> Prop) (l : list A) :
  StronglySorted R l -> StronglySorted (fun a b => R b a) (rev l).
Proof.
  induction 1 as [|x l Hs IH Hx]; cbn [rev]; [constructor|].
  apply strongly_sorted_app. repeat split.
  - exact IH.
  - repeat constructor.
  - intros a b Ha [<-|[]]. rewrite Forall_forall in Hx.
    apply Hx. now apply in_rev.
Qed.

Lemma strongly_sorted_map (A B : Type) (f : A -> B) (R : B -> B -> Prop)
    (l : list A) :
  StronglySorted (fun a b => R (f a) (f b)) l -> StronglySorted R (map f l).
Proof.
  induction 1 as [|x l Hs IH Hx]; cbn [map]; constructor; [exact IH|].
  rewrite Forall_forall in *. intros z Hz. apply in_map_iff in Hz.
  destruct Hz as (y & <- & Hy). now apply Hx.
Qed.

Lemma list_getitem_ok (A : Type) (l : list A) (i : Z) :
  - Z.of_nat (length l) <= i < Z.of_nat (length l) ->
  exists x, list_getitem l i = Ok x.
Proof.
  intros Hi. unfold list_getitem. cbv zeta.
  set (i' := if i <? 0 then i + Z.of_nat (length l) else i).
  assert (0 <= i' < Z.of_nat (length l)) as Hi'
    by (subst i'; destruct (Z.ltb_spec i 0); lia).
  destruct (Z.ltb_spec i' 0); [lia|].
  destruct (Z.leb_spec (Z.of_nat (length l)) i'); [lia|]. cbn [orb].
  unfold py_index.
  destruct (nth_error l (Z.to_nat i')) as [x|] eqn:E; [now exists x|].
  apply nth_error_None in E. lia.
Qed.

Lemma list_getitem_outside (A : Type) (l : list A) (i : Z) :
  i < - Z.of_nat (length l) \/ Z.of_nat (length l) <= i ->
  list_getitem l i = Raise IndexError.
Proof.
  intros Hi. unfold list_getitem. cbv zeta.
  set (i' := if i <? 0 then i + Z.of_nat (length l) else i).
  assert (i' < 0 \/ Z.of_nat (length l) <= i') as Hi'
    by (subst i'; destruct (Z.ltb_spec i 0); lia).
  destruct (Z.ltb_spec i' 0); [reflexivity|].
  destruct (Z.leb_spec (Z.of_nat (length l)) i'); [reflexivity | lia].
Qed.

Lemma for_each_all_ok (A B : Type) (f : A -> result B) (xs : list A) :
  (forall x, In x xs -> exists y, f x = Ok y) ->
  exists ys, for_each f xs = Ok ys /\ length ys = length xs.
Proof.
  induction xs as [|x xs IH]; intros H; cbn [for_each].
  - now exists [].
  - destruct (H x (or_introl eq_refl)) as [y ->].
    destruct IH as (ys & -> & Hlen); [intros z Hz; apply H; now right|].
    exists (y :: ys). cbn. now rewrite Hlen.
Qed.

Lemma for_each_raises (A B : Type) (f : A -> result B) (e : py_error)
    (xs : list A) :
  (forall x, In x xs -> (exists y, f x = Ok y) \/ f x = Raise e) ->
  (exists x, In x xs /\ f x = Raise e) ->
  for_each f xs = Raise e.
Proof.
  induction xs as [|x xs IH]; intros Hall (z & Hz & Hraise); [destruct Hz|].
  cbn [for_each].
  destruct (Hall x (or_introl eq_refl)) as [[y Hy]| ->]; [|reflexivity].
  rewrite Hy. cbn [bind]. rewrite IH; [reflexivity | |].
  - intros w Hw. apply Hall. now right.
  - destruct Hz as [<-|Hz]; [congruence|]. now exists z.
Qed.

(** Whenever [compute_overlap] returns, [save_overlap] plots, for
    [k >= 0], the [k] classes of largest mean saliency (all classes when
    there are fewer), in descending order of their means: the mapping splits
    into the plotted entries and the rest, and no entry of the rest has a
    larger mean than a plotted one.  A plotted class id between -19 and 18
    is labelled by indexing [class_names]; a plotted class id outside that
    range makes [save_overlap] raise an [IndexError]. *)
Theorem save_overlap_plots_largest (T : tensor_arith) (saliency : Type)
    (normalize_plane : saliency -> list (list Q))
    (gradcam : saliency) (label : label_map) (k : Z)
    (overlap : list (Z * Q)) :
  compute_overlap T normalize_plane label gradcam = Ok overlap ->
  0 <= k ->
  exists top rest : list (Z * Q),
    Permutation (top ++ rest) overlap /\
    Z.of_nat (length top) = Z.min k (Z.of_nat (length overlap)) /\
    StronglySorted (fun a b => (snd b <= snd a)%Q) top /\
    (forall a b, In a top -> In b rest -> (snd b <= snd a)%Q) /\
    max_keys overlap k = Ok (map fst top) /\
    ((forall a, In a top -> -19 <= fst a < 19) ->
     exists max_labels,
       save_overlap T normalize_plane gradcam label k
       = Ok (overlap, (max_labels, map snd top)) /\
       for_each (list_getitem class_names) (map fst top) = Ok max_labels /\
       length max_labels = length top) /\
    ((exists a, In a top /\ (fst a < -19 \/ 19 <= fst a)) ->
     save_overlap T normalize_plane gradcam label k = Raise IndexError).
Proof.
  intros Hrun Hk.
  pose proof (compute_overlap_nodup _ _ _ _ _ _ Hrun) as Hnd.
  set (swap := fun kv : Z * Q => (snd kv, fst kv)).
  set (unswap := fun vk : Q * Z => (snd vk, fst vk)).
  set (ordered := fold_right insert_by_key [] (map swap overlap)).
  set (n := Z.to_nat (Z.min k (Z.of_nat (length overlap)))).
  set (desc := map unswap (rev ordered)).
  assert (Permutation desc overlap) as Hperm.
  { unfold desc. rewrite <- Permutation_rev. unfold ordered.
    rewrite sort_by_key_perm, map_map.
    replace (map (fun x => unswap (swap x)) overlap) with overlap; [reflexivity|].
    symmetry. rewrite <- (map_id overlap) at 2. apply map_ext. now intros []. }
  assert (StronglySorted (fun a b => (snd b <= snd a)%Q) desc) as Hsorted.
  { unfold desc. apply strongly_sorted_map.
    apply (strongly_sorted_rev _ (fun a b => (fst a <= fst b)%Q)).
    apply sort_by_key_sorted. }
  assert (max_keys overlap k = Ok (map fst (firstn n desc))) as Hkeys.
  { unfold max_keys, sorted_by_key.
    rewrite (decorate_entries overlap overlap Hnd (incl_refl _)).
    cbn [bind]. fold swap. fold ordered. f_equal.
    unfold apply_slice. cbn [slice_start slice_stop].
    rewrite length_rev, length_map.
    assert (length ordered = length overlap) as Hlen
      by (unfold ordered; rewrite (Permutation_length (sort_by_key_perm _ _));
          apply length_map).
    rewrite Hlen. rewrite !clamp_index_nonneg by lia.
    rewrite (Z.min_l 0) by lia. rewrite Z.sub_0_r. cbn [Z.to_nat skipn].
    fold n. unfold desc. rewrite <- firstn_map, !map_rev, map_map.
    reflexivity. }
  exists (firstn n desc), (skipn n desc).
  rewrite firstn_skipn.
  rewrite <- (firstn_skipn n desc) in Hsorted.
  apply strongly_sorted_app in Hsorted. destruct Hsorted as (Htop & _ & Hdom).
  assert (incl (firstn n desc) overlap) as Hincl.
  { intros x Hx. apply (Permutation_in _ Hperm).
    rewrite <- (firstn_skipn n desc). apply in_or_app. now left. }
  split; [exact Hperm|]. split.
  { rewrite length_firstn, (Permutation_length Hperm). subst n. lia. }
  split; [exact Htop|]. split; [exact Hdom|]. split; [exact Hkeys|].
  unfold save_overlap. rewrite Hrun. cbn [bind]. rewrite Hkeys. cbn [bind].
  rewrite (values_of_entries overlap _ Hnd Hincl).
  split.
  - intros Hrange.
    destruct (for_each_all_ok _ _ (list_getitem class_names)
                              (map fst (firstn n desc)))
      as (labels & Hlabels & Hlen).
    { intros key Hkey. apply in_map_iff in Hkey.
      destruct Hkey as (a & <- & Ha). apply list_getitem_ok.
      specialize (Hrange a Ha). cbn. lia. }
    exists labels. rewrite Hlabels. cbn [bind].
    split; [reflexivity|]. split; [reflexivity|].
    now rewrite Hlen, length_map.
  - intros (a & Ha & Hout).
    rewrite (for_each_raises _ _ (list_getitem class_names) IndexError);
      [reflexivity | |].
    + intros key _.
      destruct (Z_lt_le_dec key (-19)) as [Hlo|Hlo];
        [right; apply list_getitem_outside; cbn; lia|].
      destruct (Z_lt_le_dec key 19) as [Hhi|Hhi];
        [left; apply list_getitem_ok; cbn; lia
        | right; apply list_getitem_outside; cbn; lia].
    + exists (fst a). split; [now apply in_map|].
      apply list_getitem_outside. cbn. lia.
Qed.

Lemma save_overlap_plots_largest_witness :
  exists top rest : list (Z * Q),
    Permutation (top ++ rest) [(0, 1%Q); (1, (1 # 4)%Q)] /\
    Z.of_nat (length top)
    = Z.min 1 (Z.of_nat (length [(0, 1%Q); (1, (1 # 4)%Q)])) /\
    StronglySorted (fun a b => (snd b <= snd a)%Q) top /\
    (forall a b, In a top -> In b rest -> (snd b <= snd a)%Q) /\
    max_keys [(0, 1%Q); (1, (1 # 4)%Q)] 1 = Ok (map fst top) /\
    ((forall a, In a top -> -19 <= fst a < 19) ->
     exists max_labels,
       save_overlap unrounded (fun plane : list (list Q) => plane)
                    [[1; 0]; [0; 1 # 2]]%Q
                    {| label_kind := TorchTensor;
                       label_rows := [[0; 1]; [255; 1]] |} 1
       = Ok ([(0, 1%Q); (1, (1 # 4)%Q)], (max_labels, map snd top)) /\
       for_each (list_getitem class_names) (map fst top) = Ok max_labels /\
       length max_labels = length top) /\
    ((exists a, In a top /\ (fst a < -19 \/ 19 <= fst a)) ->
     save_overlap unrounded (fun plane : list (list Q) => plane)
                  [[1; 0]; [0; 1 # 2]]%Q
                  {| label_kind := TorchTensor;
                     label_rows := [[0; 1]; [255; 1]] |} 1
     = Raise IndexError).
Proof.
  apply (save_overlap_plots_largest unrounded (list (list Q))
           (fun plane => plane) [[1; 0]; [0; 1 # 2]]%Q
           {| label_kind := TorchTensor; label_rows := [[0; 1]; [255; 1]] |}
           1 [(0, 1%Q); (1, (1 # 4)%Q)]);
    [reflexivity | lia].
Defined.

End OverlapPlot.

(** ** The pixels of one image *)

Section ImagePixels.

(** Without [--crop-for], a method that maps the whole image never reaches
    the loop over the pixels: the iteration ends after the map of the whole
    image when no pixel is specified and no crop size is set, and in every
    other case an assertion fails; with a positive crop size the two
    assertions contradict each other. *)
Theorem whole_image_never_reaches_pixels (args : pixel_args) :
  image_pixels true args
  = if truthy (args_pixel_i args) || truthy (args_pixel_j args)
       || truthy (args_pixel_i_range args) || truthy (args_pixel_j_range args)
       || (0 <? args_crop_size args)
    then Raise AssertionError
    else Ok None.
Proof.
  unfold image_pixels.
  destruct (truthy (args_pixel_i args)), (truthy (args_pixel_j args)),
    (truthy (args_pixel_i_range args)), (truthy (args_pixel_j_range args));
    cbn [orb andb bind]; try reflexivity.
  destruct (Z.leb_spec (args_crop_size args) 0),
    (Z.ltb_spec 0 (args_crop_size args)); try lia; reflexivity.
Qed.

Lemma parsed_axis_or (pixel pixel_range : py_arg) :
  parsed_pixel pixel -> parsed_range pixel_range ->
  axis_given pixel pixel_range = true ->
  axis_given_twice pixel pixel_range = false ->
  (zero_step pixel pixel_range = true /\
   axis_or pixel pixel_range = Raise ValueError) \/
  (zero_step pixel pixel_range = false /\
   exists l, axis_or pixel pixel_range = Ok (PyList l)).
Proof.
  unfold axis_given, axis_given_twice, zero_step, axis_or.
  intros [->|[l ->]] [->|(start & stop & step & ->)]; cbn [truthy]; cbn.
  - discriminate.
  - intros _ _. destruct (Z.eqb_spec step 0) as [->|Hs].
    + now left.
    + right. split; [reflexivity|]. now eexists.
  - destruct l; [discriminate|]. intros _ _. right.
    split; [reflexivity|]. now eexists.
  - destruct l; [|discriminate]. intros _ _. cbn.
    destruct (Z.eqb_spec step 0) as [->|Hs].
    + now left.
    + right. split; [reflexivity|]. now eexists.
Qed.

(** With the values the argument parser stores and a method that works
    from pixels, the iteration gets its pixels from [get_pixels] exactly
    when each axis is specified by a list or by a range, not by both and not
    by neither, and no range that is used has step zero.  The checks are
    made in this order: an axis not specified at all (as with the defaults)
    fails the assertion of the loop; then, first for the rows and then for
    the columns, an axis specified twice fails the assertion of
    [get_pixels] and a zero step is a [ValueError].  No other error arises:
    the [TypeError] of unpacking a missing range never shows. *)
Theorem image_pixels_one_spec_per_axis (args : pixel_args) :
  parsed_pixel (args_pixel_i args) -> parsed_pixel (args_pixel_j args) ->
  parsed_range (args_pixel_i_range args) ->
  parsed_range (args_pixel_j_range args) ->
  if negb (axis_given (args_pixel_i args) (args_pixel_i_range args)
           && axis_given (args_pixel_j args) (args_pixel_j_range args))
  then image_pixels false args = Raise AssertionError
  else if axis_given_twice (args_pixel_i args) (args_pixel_i_range args)
  then image_pixels false args = Raise AssertionError
  else if zero_step (args_pixel_i args) (args_pixel_i_range args)
  then image_pixels false args = Raise ValueError
  else if axis_given_twice (args_pixel_j args) (args_pixel_j_range args)
  then image_pixels false args = Raise AssertionError
  else if zero_step (args_pixel_j args) (args_pixel_j_range args)
  then image_pixels false args = Raise ValueError
  else exists pixels,
         image_pixels false args = Ok (Some pixels) /\
         get_pixels (args_pixel_i args) (args_pixel_j args)
                    (args_pixel_i_range args) (args_pixel_j_range args)
                    (args_pixel_cartesian_product args) = Ok pixels.
Proof.
  destruct args as [pi pj pir pjr cart size]. cbn [args_pixel_i args_pixel_j
    args_pixel_i_range args_pixel_j_range args_pixel_cartesian_product
    args_crop_size].
  intros Hpi Hpj Hpir Hpjr.
  unfold image_pixels. cbn [bind args_pixel_i args_pixel_j
    args_pixel_i_range args_pixel_j_range args_pixel_cartesian_product
    args_crop_size].
  fold (axis_given pi pir). fold (axis_given pj pjr).
  destruct (axis_given pi pir) eqn:Gi; cbn [andb negb]; [|reflexivity].
  destruct (axis_given pj pjr) eqn:Gj; cbn [andb negb]; [|reflexivity].
  unfold get_pixels.
  fold (axis_given_twice pi pir). fold (axis_given_twice pj pjr).
  destruct (axis_given_twice pi pir) eqn:Ti; [reflexivity|].
  destruct (parsed_axis_or pi pir Hpi Hpir Gi Ti) as [[-> ->]|[-> [ivs ->]]];
    cbn [bind]; [reflexivity|].
  destruct (axis_given_twice pj pjr) eqn:Tj; [reflexivity|].
  destruct (parsed_axis_or pj pjr Hpj Hpjr Gj Tj) as [[-> ->]|[-> [jvs ->]]];
    cbn [bind]; [reflexivity|].
  destruct cart.
  - change (py_iter (PyList jvs)) with (Ok jvs). cbn [bind].
    rewrite for_each_columns. cbn [bind]. eexists. split; reflexivity.
  - cbn [py_iter bind]. eexists. split; reflexivity.
Qed.

Lemma image_pixels_one_spec_per_axis_witness :
  exists pixels,
    image_pixels false
      {| args_pixel_i := PyList [3; 4]; args_pixel_j := PyInt 0;
         args_pixel_i_range := PyNone;
         args_pixel_j_range := PyList [0; 20; 10];
         args_pixel_cartesian_product := true; args_crop_size := 0 |}
    = Ok (Some pixels) /\
    get_pixels (PyList [3; 4]) (PyInt 0) PyNone (PyList [0; 20; 10]) true
    = Ok pixels.
Proof.
  apply (image_pixels_one_spec_per_axis
           {| args_pixel_i := PyList [3; 4]; args_pixel_j := PyInt 0;
              args_pixel_i_range := PyNone;
              args_pixel_j_range := PyList [0; 20; 10];
              args_pixel_cartesian_product := true; args_crop_size := 0 |}).
  - right. now exists [3; 4].
  - now left.
  - now left.
  - right. now exists 0, 20, 10.
Defined.

End ImagePixels.

(** ** The outcomes of [get_random_pixels] *)

Section RandomPixelOutcomes.

(** On pairs of integers [get_random_pixels] raises in three cases only:
    a [ZeroDivisionError] when the bin size is zero and there is a
    candidate to file; otherwise, when [n] is below the number of bins
    occupied, a [TypeError] where [random.sample] refuses the view of the
    keys (Python 3.11 on), and a [ValueError] when [n] is negative where
    it takes views.  In every other case, with a negative bin size or
    without any candidate too, it returns: the smaller of [n] and the
    number of bins occupied many pixels, each a candidate, no two in the
    same bin. *)
Theorem get_random_pixels_outcomes (R : random_module)
    (n : Z) (pixels : list (Z * Z)) (bin_size seed : Z) (g : rng_state R) :
  draws_without_replacement R ->
  match get_random_pixels R n (IntPairs pixels) bin_size seed g with
  | Raise e =>
      (e = ZeroDivisionError /\ bin_size = 0 /\ pixels <> []) \/
      (e = TypeError /\ (bin_size <> 0 \/ pixels = []) /\
       n < Z.of_nat (distinct_bins bin_size pixels) /\
       rng_samples_views R = false) \/
      (e = ValueError /\ (bin_size <> 0 \/ pixels = []) /\ n < 0 /\
       rng_samples_views R = true)
  | Ok (out, _) =>
      (bin_size <> 0 \/ pixels = []) /\
      (Z.of_nat (distinct_bins bin_size pixels) <= n \/
       (0 <= n /\ rng_samples_views R = true)) /\
      Z.of_nat (length out)
      = Z.min n (Z.of_nat (distinct_bins bin_size pixels)) /\
      Forall (fun p => In p pixels) out /\
      NoDup (map (bin_of bin_size) out)
  end.
Proof.
  intros HR.
  destruct (Z.eq_dec bin_size 0) as [Hb|Hb].
  - destruct pixels as [|[i j] pixels].
    + unfold get_random_pixels, sample_bins.
      cbn [fill_bins bind length Z.of_nat].
      change (Z.of_nat (distinct_bins bin_size [])) with 0.
      destruct (Z.leb_spec 0 n) as [Hn|Hn]; cbn [bind map fst snd pick_pixels].
      * split; [now right|]. split; [now left|].
        split; [cbn; lia|]. split; constructor.
      * unfold random_sample_keys.
        destruct (rng_samples_views R) eqn:Hv.
        -- unfold random_sample. destruct (Z.ltb_spec n 0); [|lia].
           cbn [orb bind]. right. right.
           repeat split; [now right | exact Hn].
        -- cbn [bind]. right. left. repeat split; [now right | exact Hn].
    + unfold get_random_pixels, sample_bins. cbn [fill_bins]. subst bin_size.
      cbn [Z.eqb bind]. left. repeat split. discriminate.
  - destruct (Z_lt_le_dec n (Z.of_nat (distinct_bins bin_size pixels)))
      as [Hfew|Hall].
    + rewrite get_random_pixels_sampled by assumption.
      destruct (rng_samples_views R) eqn:Hv.
      * destruct (Z.ltb_spec n 0) as [Hn|Hn].
        -- right. right. repeat split; [now left | exact Hn].
        -- destruct (get_random_pixels_run R HR n pixels bin_size seed Hb)
             as (out & g' & Hrun & Hlen & Hin & Hnd); [right; now split|].
           rewrite Hrun.
           split; [now left|]. split; [right; now split|].
           split; [exact Hlen|]. now split.
      * right. left. repeat split; [now left | exact Hfew].
    + destruct (get_random_pixels_run R HR n pixels bin_size seed Hb)
        as (out & g' & Hrun & Hlen & Hin & Hnd); [now left|].
      rewrite Hrun.
      split; [now left|]. split; [now left|].
      split; [exact Hlen|]. now split.
Qed.

Lemma get_random_pixels_outcomes_witness :
  match get_random_pixels lcg 1 (IntPairs [(5, 7); (-3, 2)]) (-4) 0
          (lcg_next 1) with
  | Raise e =>
      (e = ZeroDivisionError /\ -4 = 0 /\ [(5, 7); (-3, 2)] <> []) \/
      (e = TypeError /\ (-4 <> 0 \/ [(5, 7); (-3, 2)] = []) /\
       1 < Z.of_nat (distinct_bins (-4) [(5, 7); (-3, 2)]) /\
       rng_samples_views lcg = false) \/
      (e = ValueError /\ (-4 <> 0 \/ [(5, 7); (-3, 2)] = []) /\ 1 < 0 /\
       rng_samples_views lcg = true)
  | Ok (out, _) =>
      (-4 <> 0 \/ [(5, 7); (-3, 2)] = []) /\
      (Z.of_nat (distinct_bins (-4) [(5, 7); (-3, 2)]) <= 1 \/
       (0 <= 1 /\ rng_samples_views lcg = true)) /\
      Z.of_nat (length out)
      = Z.min 1 (Z.of_nat (distinct_bins (-4) [(5, 7); (-3, 2)])) /\
      Forall (fun p => In p [(5, 7); (-3, 2)]) out /\
      NoDup (map (bin_of (-4)) out)
  end.
Proof.
  apply (get_random_pixels_outcomes lcg 1 [(5, 7); (-3, 2)] (-4) 0
           (lcg_next 1)).
  exact lcg_draws.
Defined.

End RandomPixelOutcomes.

(** ** Paths and directory names *)

Section Paths.

Lemma str_append_nil_r (s : string) : (s ++ "")%string = s.
Proof. induction s as [|c s IH]; cbn; [reflexivity | now rewrite IH]. Qed.

Lemma str_append_assoc (s t u : string) :
  ((s ++ t) ++ u = s ++ t ++ u)%string.
Proof. induction s as [|c s IH]; cbn; [reflexivity | now rewrite IH]. Qed.

Lemma prefix_append (p b : string) : String.prefix p (p ++ b) = true.
Proof.
  induction p as [|c p IH]; cbn; [now destruct b|].
  destruct (ascii_dec c c); [exact IH | contradiction].
Qed.

Lemma prefix_split (p s : string) :
  String.prefix p s = true -> exists b, s = (p ++ b)%string.
Proof.
  revert s. induction p as [|c p IH]; intros s; cbn.
  - intros _. now exists s.
  - destruct s as [|c' s]; cbn; [discriminate|].
    destruct (ascii_dec c c') as [<-|]; [|discriminate].
    intros H. destruct (IH s H) as [b ->]. now exists b.
Qed.

Lemma prefix_nil (s : string) : String.prefix "" s = true.
Proof. now destruct s. Qed.

(** A match cannot run from [s] into a following [String d rest] when [d]
    is none of its characters. *)
Lemma prefix_stays (d : ascii) (rest q s : string) :
  all_chars (fun c => negb (Ascii.eqb c d)) q = true ->
  String.prefix q (s ++ String d rest) = true -> String.prefix q s = true.
Proof.
  revert s. induction q as [|a q IH]; intros s; [intros; apply prefix_nil|].
  cbn [all_chars]. intros Hq. apply andb_prop in Hq. destruct Hq as [Ha Hq].
  destruct s as [|b s]; cbn.
  - destruct (ascii_dec a d) as [->|]; [|discriminate].
    rewrite Ascii.eqb_refl in Ha. discriminate.
  - destruct (ascii_dec a b); [|discriminate]. now apply IH.
Qed.

Lemma no_straddle (d : ascii) (p' s b : string) :
  all_chars (fun c => negb (Ascii.eqb c d)) p' = true ->
  s <> EmptyString ->
  String.prefix (String d p') (s ++ String d p' ++ b) = true ->
  String.prefix (String d p') s = true.
Proof.
  intros Hp Hs. destruct s as [|c s]; [contradiction|]. cbn.
  destruct (ascii_dec d c); [|discriminate].
  now apply prefix_stays.
Qed.

Lemma replace_from_skip (old new x b : string) :
  replace_from old new (String.length x) (x ++ b)
  = replace_from old new 0 b.
Proof.
  induction x as [|c x IH]; cbn [String.length String.append].
  - reflexivity.
  - cbn [replace_from]. exact IH.
Qed.

(** The first occurrence is replaced and the scan goes on after it. *)
Lemma replace_first (d : ascii) (p' new a b : string) :
  all_chars (fun c => negb (Ascii.eqb c d)) p' = true ->
  str_contains (String d p') a = false ->
  replace_from (String d p') new 0 (a ++ String d p' ++ b)
  = (a ++ new ++ replace_from (String d p') new 0 b)%string.
Proof.
  intros Hp. induction a as [|c a IH]; intros Ha.
  - cbn [String.append]. cbn [replace_from].
    change (String d (p' ++ b))%string with (String d p' ++ b)%string.
    rewrite prefix_append. cbn [String.length]. rewrite Nat.sub_1_r.
    cbn [Nat.pred]. now rewrite replace_from_skip.
  - cbn [str_contains] in Ha. apply orb_false_elim in Ha.
    destruct Ha as [Hpre Ha].
    change (String c a ++ String d p' ++ b)%string
      with (String c (a ++ String d p' ++ b))%string.
    cbn [replace_from].
    destruct (String.prefix (String d p') (String c (a ++ String d p' ++ b)))
      eqn:E.
    + apply (no_straddle d p' (String c a) b Hp) in E;
        [congruence | discriminate].
    + rewrite IH by exact Ha. reflexivity.
Qed.

(** Under NBDT the target layers are prefixed with the name of the wrapped
    model, and [generate_output_dir] takes the prefix off again: every
    layer gets the directory it gets without NBDT wrapping its name. *)
Theorem generate_output_dir_drops_model_prefix
    (str_lower : string -> string)
    (output_dir vis_mode : string) (use_nbdt : bool)
    (nbdt_node_wnid : option string) (crop_size : Z) (cls : option string)
    (target_layers : list string) :
  map (fun layer => generate_output_dir str_lower output_dir vis_mode layer
                      use_nbdt nbdt_node_wnid crop_size cls)
      (nbdt_target_layers use_nbdt target_layers)
  = map (fun layer => generate_output_dir str_lower output_dir vis_mode layer
                        use_nbdt nbdt_node_wnid crop_size cls)
        target_layers.
Proof.
  unfold nbdt_target_layers. destruct use_nbdt; [|reflexivity].
  rewrite map_map. apply map_ext. intros layer.
  unfold generate_output_dir. cbv zeta.
  replace (str_replace "model." "" ("model." ++ layer))
    with (str_replace "model." "" layer); [reflexivity|].
  unfold str_replace.
  change ("model." ++ layer)%string with ("" ++ "model." ++ layer)%string.
  now rewrite (replace_first "m" "odel." "" "" layer).
Qed.

Lemma path_join_append (a f ext : string) :
  path_join a (f ++ String "." ext) = (path_join a f ++ String "." ext)%string.
Proof.
  unfold path_join. destruct f as [|c f].
  - cbn [String.append String.prefix].
    destruct (ascii_dec "/" "."); [discriminate|].
    destruct a as [|x a]; [reflexivity|].
    destruct (ends_with_sep (String x a)).
    + now rewrite str_append_nil_r.
    + now rewrite !str_append_assoc.
  - cbn [String.append String.prefix].
    destruct (ascii_dec "/" c).
    + now rewrite !prefix_nil.
    + destruct a as [|x a]; [reflexivity|].
      destruct (ends_with_sep (String x a)); now rewrite !str_append_assoc.
Qed.

Lemma append_cancel_l (a s t : string) : (a ++ s = a ++ t)%string -> s = t.
Proof.
  induction a as [|c a IH]; cbn; [trivial|]. intros [= E]. now apply IH.
Qed.

Lemma first_occurrence (p s : string) :
  p <> EmptyString -> str_contains p s = true ->
  exists a b, s = (a ++ p ++ b)%string /\ str_contains p a = false.
Proof.
  intros Hp. induction s as [|c s IH]; cbn [str_contains].
  - rewrite orb_false_r. destruct p; [contradiction | discriminate].
  - destruct (String.prefix p (String c s)) eqn:E.
    + intros _. destruct (prefix_split _ _ E) as [b ->].
      exists EmptyString, b. split; [reflexivity|].
      destruct p; [contradiction | reflexivity].
    + cbn [orb]. intros H. destruct (IH H) as (a & b & -> & Ha).
      exists (String c a), b. split; [reflexivity|].
      cbn [str_contains]. rewrite Ha, orb_false_r.
      destruct (String.prefix p (String c a)) eqn:E'; [|reflexivity].
      destruct (prefix_split _ _ E') as [x Hx].
      change (String c (a ++ p ++ b))%string
        with (String c a ++ p ++ b)%string in E.
      rewrite Hx, str_append_assoc, prefix_append in E. discriminate.
Qed.

(** The picture and the array saved with it: [save_gradcam] derives the
    path of the array by replacing [.jpg] by [.npy] everywhere in the path
    of the picture.  The result is the path [generate_save_path] builds for
    the extension [npy], the same stem with the other extension, exactly
    when [.jpg] occurs nowhere in the stem: not in the output directory and
    not in the suffix. *)
Theorem np_save_path_same_stem (output_dir : string)
    (gradcam_kwargs : kwargs_dict) (save_path : string) :
  generate_save_path output_dir gradcam_kwargs "jpg" = Ok save_path ->
  exists stem,
    save_path = (stem ++ ".jpg")%string /\
    generate_save_path output_dir gradcam_kwargs "npy"
    = Ok (stem ++ ".npy")%string /\
    (np_save_path save_path = (stem ++ ".npy")%string
     <-> str_contains ".jpg" stem = false).
Proof.
  unfold generate_save_path.
  destruct (generate_fname gradcam_kwargs default_order) as [fname|e];
    cbn [bind]; [|discriminate].
  intros [= <-]. exists (path_join output_dir fname).
  change (fname ++ "." ++ "jpg")%string with (fname ++ String "." "jpg")%string.
  change (fname ++ "." ++ "npy")%string with (fname ++ String "." "npy")%string.
  rewrite !path_join_append.
  split; [reflexivity|]. split; [reflexivity|].
  set (stem := path_join output_dir fname).
  unfold np_save_path, str_replace.
  split.
  - intros Hsame. destruct (str_contains ".jpg" stem) eqn:E; [|reflexivity].
    exfalso. destruct (first_occurrence ".jpg" stem) as (a & b & Hstem & Ha);
      [discriminate | exact E |].
    rewrite Hstem in Hsame. rewrite !str_append_assoc in Hsame.
    rewrite (replace_first "." "jpg" ".npy" a (b ++ ".jpg")) in Hsame
      by (reflexivity || exact Ha).
    apply append_cancel_l in Hsame. cbn [String.append] in Hsame.
    discriminate.
  - intros Hfree.
    replace (stem ++ ".jpg")%string with (stem ++ ".jpg" ++ "")%string
      by reflexivity.
    rewrite (replace_first "." "jpg" ".npy" stem "") by (reflexivity || exact Hfree).
    reflexivity.
Qed.

Lemma np_save_path_same_stem_witness :
  exists stem,
    "out/gradcam_last/image-3-pixel_i-4-pixel_j-5.jpg"
    = (stem ++ ".jpg")%string /\
    generate_save_path "out/gradcam_last" (pixel_kwargs 3 4 5 "") "npy"
    = Ok (stem ++ ".npy")%string /\
    (np_save_path "out/gradcam_last/image-3-pixel_i-4-pixel_j-5.jpg"
     = (stem ++ ".npy")%string
     <-> str_contains ".jpg" stem = false).
Proof.
  apply (np_save_path_same_stem "out/gradcam_last" (pixel_kwargs 3 4 5 "")
           "out/gradcam_last/image-3-pixel_i-4-pixel_j-5.jpg").
  reflexivity.
Defined.

End Paths.

(** ** Class names and class ids *)

Section ClassNames.

Lemma list_index_found (x : string) (l : list string) :
  In x l ->
  exists i, list_index x l = Ok i /\ 0 <= i < Z.of_nat (length l) /\
            nth_error l (Z.to_nat i) = Some x.
Proof.
  induction l as [|y l IH]; [intros []|]. intros Hin. cbn [list_index].
  destruct (String.eqb_spec x y) as [->|Hne].
  - exists 0. cbn [length]. repeat split; lia.
  - destruct Hin as [E|Hin]; [congruence|].
    destruct (IH Hin) as (i & -> & Hi & Hnth). exists (i + 1).
    cbn [bind length]. repeat split; try lia.
    replace (Z.to_nat (i + 1)) with (S (Z.to_nat i)) by lia. exact Hnth.
Qed.

Lemma list_index_absent (x : string) (l : list string) :
  ~ In x l -> list_index x l = Raise ValueError.
Proof.
  induction l as [|y l IH]; [reflexivity|]. intros Hn. cbn [list_index].
  destruct (String.eqb_spec x y) as [->|Hne]; [exfalso; apply Hn; now left|].
  rewrite IH; [reflexivity | intros Hin; apply Hn; now right].
Qed.

Lemma list_index_nth (l : list string) :
  NoDup l ->
  forall n x, nth_error l n = Some x -> list_index x l = Ok (Z.of_nat n).
Proof.
  induction 1 as [|y l Hy Hnd IH]; intros [|n] x; cbn [nth_error list_index];
    try discriminate.
  - intros [= ->]. now rewrite String.eqb_refl.
  - intros Hnth. destruct (String.eqb_spec x y) as [->|Hne].
    + exfalso. apply Hy. eapply nth_error_In. exact Hnth.
    + rewrite (IH n x Hnth). cbn [bind]. f_equal. lia.
Qed.

Lemma class_names_nodup : NoDup class_names.
Proof.
  apply (NoDup_count_occ' string_dec). intros x Hx.
  repeat (destruct Hx as [<-|Hx]; [reflexivity|]). destruct Hx.
Qed.

(** Class names and class ids correspond one to one: looking a class name
    up gives the id between 0 and 18 under which [class_names] holds that
    name, looking the name of an id up gives the id back, and a name that
    is no class name is a [ValueError], unless it is empty: then no image
    is skipped.  With the name of a class for [--crop-for], an image is
    skipped exactly when no pixel of its label map carries the id of the
    class. *)
Theorem class_names_round_trip :
  (forall name, In name class_names ->
     exists cls_index,
       list_index name class_names = Ok cls_index /\
       0 <= cls_index < 19 /\
       list_getitem class_names cls_index = Ok name /\
       forall label,
         skips_image (Some name) label = Ok true
         <-> ~ In cls_index (concat label)) /\
  (forall cls_index, 0 <= cls_index < 19 ->
     exists name,
       list_getitem class_names cls_index = Ok name /\
       list_index name class_names = Ok cls_index) /\
  (forall name label, ~ In name class_names ->
     list_index name class_names = Raise ValueError /\
     skips_image (Some name) label
     = if String.eqb name "" then Ok false else Raise ValueError).
Proof.
  split; [|split].
  - intros name Hin.
    destruct (list_index_found name class_names Hin) as (i & Hrun & Hi & Hnth).
    exists i. split; [exact Hrun|]. split; [exact Hi|]. split.
    + unfold list_getitem. cbv zeta.
      destruct (Z.ltb_spec i 0); [lia|].
      destruct (Z.ltb_spec i 0); [lia|].
      destruct (Z.leb_spec (Z.of_nat (length class_names)) i); [lia|].
      cbn [orb]. unfold py_index. now rewrite Hnth.
    + intros label. unfold skips_image.
      destruct name as [|c name];
        [exfalso; revert Hin; clear; intros Hin;
         repeat (destruct Hin as [Hin|Hin]; [discriminate|]); destruct Hin|].
      rewrite Hrun. cbn [bind].
      split.
      * intros [= Hneg] Hmem. apply negb_true_iff in Hneg.
        assert (existsb (Z.eqb i) (concat label) = true) as Hex
          by (apply existsb_exists; exists i; split;
              [exact Hmem | apply Z.eqb_refl]).
        congruence.
      * intros Hn. f_equal. apply negb_true_iff.
        destruct (existsb (Z.eqb i) (concat label)) eqn:E; [|reflexivity].
        apply existsb_exists in E. destruct E as (z & Hz & Heq).
        apply Z.eqb_eq in Heq. subst z. contradiction.
  - intros i Hi.
    destruct (list_getitem_ok _ class_names i) as [name Hget];
      [cbn [length class_names]; lia|].
    exists name. split; [exact Hget|].
    unfold list_getitem in Hget. cbv zeta in Hget.
    destruct (Z.ltb_spec i 0); [lia|].
    destruct (Z.ltb_spec i 0); [lia|].
    destruct (Z.leb_spec (Z.of_nat (length class_names)) i);
      [cbn [length class_names] in *; lia|].
    cbn [orb] in Hget. unfold py_index in Hget.
    destruct (nth_error class_names (Z.to_nat i)) as [x|] eqn:E;
      [|discriminate].
    injection Hget as ->.
    rewrite (list_index_nth class_names class_names_nodup _ _ E).
    f_equal. lia.
  - intros name label Hn. unfold skips_image.
    rewrite (list_index_absent name class_names Hn).
    destruct name as [|c name]; [now split|].
    rewrite (list_index_absent _ class_names Hn). now split.
Qed.

End ClassNames.

(** ** The class quotients of a label map read as a mask *)

Section OverlapQuotients.

Lemma filter_strongly_sorted (f : Z -> bool) (l : list Z) :
  StronglySorted Z.lt l -> StronglySorted Z.lt (filter f l).
Proof.
  induction 1 as [|x l Hs IH Hx]; cbn [filter]; [constructor|].
  destruct (f x); [|exact IH]. constructor; [exact IH|].
  rewrite Forall_forall in *. intros y Hy. apply filter_In in Hy.
  now apply Hx.
Qed.

(** When torch reads the label map as a mask, that is for a tensor and for
    an array of 32 rows or more, and the label map holds the ignore id
    and has the shape of the saliency plane, [compute_overlap] returns a
    mapping whose keys are the distinct class ids of the label map except
    255, in ascending order, and whose value for a class is the quotient,
    as torch computes it in float32, of the sum of the normalized saliency
    at the pixels of the class by their number; without rounding that is
    their mean. *)
Theorem compute_overlap_class_quotients (T : tensor_arith) (saliency : Type)
    (normalize_plane : saliency -> list (list Q))
    (label : label_map) (gradcam : saliency) :
  mask_read label ->
  In 255 (concat (label_rows label)) ->
  same_shape (label_rows label) (normalize_plane gradcam) ->
  exists m,
    compute_overlap T normalize_plane label gradcam = Ok m /\
    StronglySorted Z.lt (map fst m) /\
    (forall c, In c (map fst m)
               <-> In c (concat (label_rows label)) /\ c <> 255) /\
    (forall c v, In (c, v) m ->
       v = class_quotient T (label_rows label) (normalize_plane gradcam) c) /\
    (forall c,
       class_quotient unrounded (label_rows label) (normalize_plane gradcam) c
       = mean (class_values (label_rows label) (normalize_plane gradcam) c)).
Proof.
  intros Hm H255 Hs. unfold compute_overlap.
  set (plane := normalize_plane gradcam) in *.
  set (classes := np_unique (concat (label_rows label))).
  rewrite (overlap_loop_quotients T label plane classes Hm Hs
             (np_unique_nodup _) []) by (intros c _ []).
  cbn [bind app].
  set (d := map (fun c => (c, class_quotient T (label_rows label) plane c))
                classes).
  assert (map fst d = classes) as Hkeys
    by (unfold d; rewrite map_map; cbn; apply map_id).
  assert (exists v, dict_get Z.eqb ignore_label d = Some v) as [v Hv].
  { destruct (dict_get Z.eqb ignore_label d) as [v|] eqn:E; [now exists v|].
    apply (dict_get_none Z.eqb Z.eqb_spec) in E. exfalso. apply E.
    rewrite Hkeys. now apply np_unique_in. }
  rewrite dict_pop_get, Hv. cbn [bind snd].
  exists (dict_remove Z.eqb ignore_label d).
  assert (map fst (dict_remove Z.eqb ignore_label d)
          = filter (fun k => negb (k =? ignore_label)) classes) as Hrem
    by (rewrite (keys_remove Z.eqb Z.eqb_spec), Hkeys;
        [reflexivity | rewrite Hkeys; apply np_unique_nodup]).
  split; [reflexivity|]. split; [|split; [|split]].
  - rewrite Hrem. apply filter_strongly_sorted, np_unique_sorted.
  - intros c. rewrite Hrem, filter_In, Bool.negb_true_iff, Z.eqb_neq.
    unfold classes. now rewrite np_unique_in.
  - intros c w Hin. apply dict_remove_incl in Hin. unfold d in Hin.
    apply in_map_iff in Hin. destruct Hin as (c' & [= <- <-] & _).
    reflexivity.
  - intros c. reflexivity.
Qed.

Lemma compute_overlap_class_quotients_witness :
  exists m,
    compute_overlap unrounded (fun g : list (list Q) => g)
      {| label_kind := TorchTensor; label_rows := [[1; 255]; [1; 2]] |}
      [[1 # 2; 1 # 4]; [1 # 4; 1]]%Q = Ok m /\
    StronglySorted Z.lt (map fst m) /\
    (forall c, In c (map fst m)
               <-> In c (concat [[1; 255]; [1; 2]]) /\ c <> 255) /\
    (forall c v, In (c, v) m ->
       v = class_quotient unrounded [[1; 255]; [1; 2]]
             [[1 # 2; 1 # 4]; [1 # 4; 1]]%Q c) /\
    (forall c,
       class_quotient unrounded [[1; 255]; [1; 2]]
         [[1 # 2; 1 # 4]; [1 # 4; 1]]%Q c
       = mean (class_values [[1; 255]; [1; 2]]
                 [[1 # 2; 1 # 4]; [1 # 4; 1]]%Q c)).
Proof.
  apply (compute_overlap_class_quotients unrounded (list (list Q))
           (fun g => g)
           {| label_kind := TorchTensor; label_rows := [[1; 255]; [1; 2]] |}
           [[1 # 2; 1 # 4]; [1 # 4; 1]]%Q).
  - now left.
  - cbn. tauto.
  - reflexivity.
Defined.

End OverlapQuotients.

(** ** Label maps and saliency planes of different shapes *)

Section ShapeMismatch.

Lemma masked_row_outcome (mask : list bool) (row : list Q) :
  if Nat.eqb (length mask) (length row)
  then exists vals, masked_row mask row = Ok vals
  else masked_row mask row = Raise IndexError.
Proof.
  revert row. induction mask as [|m mask IH]; intros [|x row];
    cbn [length Nat.eqb masked_row]; try reflexivity.
  - now eexists.
  - specialize (IH row). destruct (Nat.eqb (length mask) (length row)).
    + destruct IH as [vals ->]. cbn [bind]. now eexists.
    + now rewrite IH.
Qed.

Lemma masked_select_mismatch (mask : list (list bool)) (t : list (list Q)) :
  ~ same_shape mask t -> masked_select mask t = Raise IndexError.
Proof.
  unfold same_shape. revert t.
  induction mask as [|mrow mask IH]; intros [|row t]; cbn [map masked_select];
    try reflexivity.
  - intros H. now contradiction H.
  - intros H. pose proof (masked_row_outcome mrow row) as Hrow.
    destruct (Nat.eqb_spec (length mrow) (length row)) as [E|E].
    + destruct Hrow as [vals ->]. cbn [bind]. rewrite IH; [reflexivity|].
      intros Hs. apply H. now rewrite E, Hs.
    + now rewrite Hrow.
Qed.

Lemma selector_shape (f : Z -> bool) (label : list (list Z)) :
  map (@length bool) (map (map f) label) = map (@length Z) label.
Proof.
  induction label as [|row label IH]; cbn; [reflexivity|].
  now rewrite length_map, IH.
Qed.

Lemma np_unique_nonempty (l : list Z) : l <> [] -> np_unique l <> [].
Proof.
  destruct l as [|z l]; [contradiction|]. intros _ E.
  assert (In z (np_unique (z :: l))) as Hin by (apply np_unique_in; now left).
  rewrite E in Hin. destruct Hin.
Qed.

(** Three rows or more cannot be three indices or more into a plane. *)
Lemma index_per_dimension_many (selector : list (list bool))
    (t : list (list Q)) :
  (3 <= length selector)%nat ->
  index_per_dimension selector t = Raise IndexError.
Proof.
  destruct selector as [|m0 [|m1 [|m2 selector]]]; cbn [length]; try lia.
  reflexivity.
Qed.

(** The loop stops at its first class when the plane cannot be indexed. *)
Lemma overlap_loop_refused (T : tensor_arith) (label : label_map)
    (plane : list (list Q)) (classes : list Z) (d : list (Z * Q)) :
  classes <> [] ->
  (forall f, tensor_getitem (label_kind label)
               (map (map f) (label_rows label)) plane = Raise IndexError) ->
  overlap_loop T classes label plane d = Raise IndexError.
Proof.
  intros Hne Hget. destruct classes as [|cls classes]; [contradiction|].
  cbn [overlap_loop]. now rewrite Hget.
Qed.

Lemma getitem_mask_mismatch (label : label_map) (plane : list (list Q))
    (f : Z -> bool) :
  mask_read label -> ~ same_shape (label_rows label) plane ->
  tensor_getitem (label_kind label) (map (map f) (label_rows label)) plane
  = Raise IndexError.
Proof.
  intros Hm Hs. rewrite tensor_getitem_mask by exact Hm.
  apply masked_select_mismatch. unfold same_shape in *.
  now rewrite selector_shape.
Qed.

Lemma getitem_rows_mismatch (label : label_map) (plane : list (list Q))
    (f : Z -> bool) :
  (3 <= length (label_rows label))%nat ->
  length (label_rows label) <> length plane ->
  tensor_getitem (label_kind label) (map (map f) (label_rows label)) plane
  = Raise IndexError.
Proof.
  intros H3 Hlen. unfold tensor_getitem.
  destruct (unpacked_as_indices _ _).
  - apply index_per_dimension_many. now rewrite length_map.
  - apply masked_select_mismatch. unfold same_shape.
    rewrite selector_shape. intros Hs.
    apply (f_equal (@length nat)) in Hs. rewrite !length_map in Hs.
    contradiction.
Qed.

(** A label map with at least one pixel makes [compute_overlap] raise an
    [IndexError] where the plane is indexed, whatever classes it holds, in
    two cases: torch reads it as a mask, and its shape is not the shape of
    the normalized saliency plane; or it is an array of 3 to 31 rows,
    whatever its shape, because torch takes the rows for as many indices
    into the plane. *)
Theorem compute_overlap_shape_mismatch (T : tensor_arith) (saliency : Type)
    (normalize_plane : saliency -> list (list Q))
    (label : label_map) (gradcam : saliency) :
  concat (label_rows label) <> [] ->
  (mask_read label /\
   ~ same_shape (label_rows label) (normalize_plane gradcam)) \/
  (label_kind label = NumpyArray /\
   (3 <= length (label_rows label) < 32)%nat) ->
  compute_overlap T normalize_plane label gradcam = Raise IndexError.
Proof.
  intros Hne Hcase. unfold compute_overlap.
  rewrite overlap_loop_refused;
    [reflexivity | now apply np_unique_nonempty |].
  intros f. destruct Hcase as [[Hm Hs]|[Hk Hrows]].
  - now apply getitem_mask_mismatch.
  - unfold tensor_getitem, unpacked_as_indices. rewrite Hk, length_map.
    destruct (Nat.ltb_spec 0 (length (label_rows label))); [|lia].
    destruct (Nat.ltb_spec (length (label_rows label)) 32); [|lia].
    cbn [andb]. apply index_per_dimension_many. rewrite length_map. lia.
Qed.

Lemma compute_overlap_shape_mismatch_witness :
  compute_overlap unrounded (fun plane : list (list Q) => plane)
    {| label_kind := TorchTensor; label_rows := [[0; 255]; [1; 1]] |}
    [[1; 0]]%Q
  = Raise IndexError.
Proof.
  apply (compute_overlap_shape_mismatch unrounded (list (list Q))
           (fun plane => plane)
           {| label_kind := TorchTensor; label_rows := [[0; 255]; [1; 1]] |}
           [[1; 0]]%Q); [discriminate|].
  left. split; [now left | discriminate].
Defined.

Lemma plane00_crop (A : Type) (i j size : Z)
    (t : list (list (list (list A)))) :
  plane00 (crop i j size true t)
  = slice_plane (fst (crop_slices i j size)) (snd (crop_slices i j size))
                (plane00 t).
Proof.
  assert (slice_plane (fst (crop_slices i j size))
                      (snd (crop_slices i j size)) (@nil (list A)) = [])
    as Hnil
    by (unfold slice_plane, apply_slice; now rewrite skipn_nil, firstn_nil).
  unfold plane00, crop.
  destruct t as [|batch t]; cbn [map nth]; [now rewrite Hnil|].
  destruct batch as [|plane batch]; cbn [map nth];
    [now rewrite Hnil | reflexivity].
Qed.

Lemma crop_rows_bound (A : Type) (i j size : Z) (plane : list (list A)) :
  0 < size -> 0 <= i ->
  Z.of_nat (length (slice_plane (fst (crop_slices i j size))
                                (snd (crop_slices i j size)) plane))
  <= 2 * (size / 2).
Proof.
  intros Hsize Hi. unfold slice_plane. rewrite length_map.
  assert (0 <= size / 2) as Hhalf by (apply Z.div_pos; lia).
  unfold crop_slices. cbn [fst].
  rewrite apply_slice_length_nonneg by lia. lia.
Qed.

Lemma concat_all_nil (A : Type) (l : list (list A)) :
  (forall x, In x l -> x = []) -> concat l = [].
Proof.
  induction l as [|x l IH]; intros H; cbn [concat]; [reflexivity|].
  rewrite (H x (or_introl eq_refl)), IH; [reflexivity|].
  intros y Hy. apply H. now right.
Qed.

(** A crop of size 1 around a pixel of the image has no rows. *)
Lemma crop_size_one_empty (i j : Z) (t : image_of true Q) :
  0 <= i -> tensor_values (crop i j 1 true t) = [].
Proof.
  intros Hi. unfold tensor_values, crop.
  assert (forall plane : list (list Q),
            slice_plane (fst (crop_slices i j 1)) (snd (crop_slices i j 1))
                        plane = []) as Hplane.
  { intros plane. unfold slice_plane, crop_slices. cbn [fst snd].
    change (1 / 2) with 0.
    assert (apply_slice {| slice_start := Z.max (i - 0) 0;
                           slice_stop := i + 0 |} plane = []) as ->;
      [|reflexivity].
    apply length_zero_iff_nil.
    pose proof (apply_slice_length_nonneg _ (Z.max (i - 0) 0) (i + 0) plane
                  ltac:(lia) ltac:(lia)) as Hlen.
    lia. }
  set (cropped := map (map (slice_plane (fst (crop_slices i j 1))
                                        (snd (crop_slices i j 1)))) t).
  assert (concat (concat cropped) = []) as ->; [|reflexivity].
  apply concat_all_nil. intros plane Hin. apply in_concat in Hin.
  destruct Hin as (batch & Hbatch & Hin).
  apply in_map_iff in Hbatch. destruct Hbatch as (batch0 & <- & _).
  apply in_map_iff in Hin. destruct Hin as (plane0 & <- & _).
  apply Hplane.
Qed.

(** With a positive crop size, the call that ends the loop over the pixels
    crops the saliency map.  A crop without elements, which a crop of size
    1 always is, stops the turn with the [RuntimeError] of the extrema,
    before the overlap.  Otherwise the overlap is left out for a pixel with
    both coordinates other than zero, and for a pixel on row 0 or column 0
    it is still computed, from the cropped map and the label map of the
    whole image: when normalizing keeps the shape of the plane and the
    label map has more rows than the crop can have, that is an
    [IndexError]. *)
Theorem border_pixel_overlap_fails (T : tensor_arith)
    (normalize_plane : image_of true Q -> list (list Q))
    (crop_size pixel_i pixel_j : Z)
    (gradcam_region : image_of true Q) (label : label_map) :
  (forall t, same_shape (normalize_plane t) (plane00 t)) ->
  0 < crop_size -> 0 <= pixel_i ->
  let cropped := crop pixel_i pixel_j crop_size true gradcam_region in
  let turn := layer_overlap T normalize_plane
                (saliency_call_args crop_size pixel_i pixel_j)
                gradcam_region label in
  (tensor_values cropped = [] -> turn = Raise RuntimeError) /\
  (crop_size = 1 -> turn = Raise RuntimeError) /\
  (forall extrema, tensor_extrema cropped = Ok extrema ->
     (pixel_i <> 0 -> pixel_j <> 0 -> turn = Ok (extrema, None)) /\
     (pixel_i = 0 \/ pixel_j = 0 ->
      turn = (saved <- save_overlap T normalize_plane cropped label 5 ;;
              Ok (extrema, Some saved)) /\
      (concat (label_rows label) <> [] ->
       2 * (crop_size / 2) < Z.of_nat (length (label_rows label)) ->
       turn = Raise IndexError))).
Proof.
  intros Hnorm Hsize Hi cropped turn.
  assert (turn = (extrema <- tensor_extrema cropped ;;
                  if negb (pixel_i =? 0) && negb (pixel_j =? 0)
                  then Ok (extrema, None)
                  else saved <- save_overlap T normalize_plane cropped
                                  label 5 ;;
                       Ok (extrema, Some saved))) as Hturn.
  { unfold turn, layer_overlap, saliency_call_args.
    destruct (Z.leb_spec crop_size 0) as [|_]; [lia|].
    cbn [truthy_int].
    destruct (Z.eqb_spec crop_size 0) as [|_]; [lia|]. reflexivity. }
  assert (tensor_values cropped = [] -> turn = Raise RuntimeError) as Hempty.
  { intros Hnil. rewrite Hturn. unfold tensor_extrema. now rewrite Hnil. }
  split; [exact Hempty|]. split.
  - intros ->. apply Hempty. now apply crop_size_one_empty.
  - intros extrema Hex. rewrite Hturn, Hex. cbn [bind]. split.
    + intros Hi0 Hj0.
      destruct (Z.eqb_spec pixel_i 0); [contradiction|].
      destruct (Z.eqb_spec pixel_j 0); [contradiction|]. reflexivity.
    + intros Hzero.
      assert (negb (pixel_i =? 0) && negb (pixel_j =? 0) = false) as ->.
      { destruct Hzero as [-> | ->]; cbn; [reflexivity|].
        now destruct (pixel_i =? 0). }
      split; [reflexivity|].
      intros Hne Hrows.
      assert (1 <= crop_size / 2) as Hhalf.
      { destruct (Z.eq_dec crop_size 1) as [->|H1].
        - unfold tensor_extrema in Hex. subst cropped.
          rewrite crop_size_one_empty in Hex by exact Hi. discriminate.
        - apply Z.div_le_lower_bound; lia. }
      unfold save_overlap, compute_overlap.
      rewrite overlap_loop_refused;
        [reflexivity | now apply np_unique_nonempty |].
      intros f. apply getitem_rows_mismatch; [lia|].
      specialize (Hnorm cropped). unfold same_shape in Hnorm.
      apply (f_equal (@length nat)) in Hnorm. rewrite !length_map in Hnorm.
      subst cropped. rewrite plane00_crop in Hnorm.
      pose proof (crop_rows_bound Q pixel_i pixel_j crop_size
                    (plane00 gradcam_region) Hsize Hi) as Hbound.
      lia.
Qed.

Lemma border_pixel_overlap_fails_witness :
  let cropped := crop 0 1 2 true [[[[1; 0]; [0; 1]; [1; 1]]]]%Q in
  let turn := layer_overlap unrounded plane00 (saliency_call_args 2 0 1)
                [[[[1; 0]; [0; 1]; [1; 1]]]]%Q
                {| label_kind := NumpyArray;
                   label_rows := [[0; 255]; [1; 1]; [0; 0]] |} in
  (tensor_values cropped = [] -> turn = Raise RuntimeError) /\
  (2 = 1 -> turn = Raise RuntimeError) /\
  (forall extrema, tensor_extrema cropped = Ok extrema ->
     (0 <> 0 -> 1 <> 0 -> turn = Ok (extrema, None)) /\
     (0 = 0 \/ 1 = 0 ->
      turn = (saved <- save_overlap unrounded plane00 cropped
                         {| label_kind := NumpyArray;
                            label_rows := [[0; 255]; [1; 1]; [0; 0]] |} 5 ;;
              Ok (extrema, Some saved)) /\
      (concat [[0; 255]; [1; 1]; [0; 0]] <> [] ->
       2 * (2 / 2) < Z.of_nat (length [[0; 255]; [1; 1]; [0; 0]]) ->
       turn = Raise IndexError))).
Proof.
  apply (border_pixel_overlap_fails unrounded plane00 2 0 1
           [[[[1; 0]; [0; 1]; [1; 1]]]]%Q
           {| label_kind := NumpyArray;
              label_rows := [[0; 255]; [1; 1]; [0; 0]] |}).
  - intros t. reflexivity.
  - lia.
  - lia.
Defined.

(** The turn of the witness, run: the crop holds the values 1 and 0 of the
    first row, and the overlap is refused. *)
Example border_pixel_turn :
  tensor_extrema (crop 0 1 2 true [[[[1; 0]; [0; 1]; [1; 1]]]]%Q)
  = Ok (0%Q, 1%Q) /\
  layer_overlap unrounded plane00 (saliency_call_args 2 0 1)
    [[[[1; 0]; [0; 1]; [1; 1]]]]%Q
    {| label_kind := NumpyArray; label_rows := [[0; 255]; [1; 1]; [0; 0]] |}
  = Raise IndexError /\
  layer_overlap unrounded plane00 (saliency_call_args 1 0 1)
    [[[[1; 0]; [0; 1]; [1; 1]]]]%Q
    {| label_kind := NumpyArray; label_rows := [[0; 255]; [1; 1]; [0; 0]] |}
  = Raise RuntimeError.
Proof. repeat split. Qed.

End ShapeMismatch.
